(** * code-sandbox-mcp: the session kernel pool and the execution relay

    A shallow embedding of
    - [code_sandbox_mcp/server.py] (the relay client, its message
      translator [_process_messages] and the health polling loop), and
    - [code_sandbox_mcp/container_service/kernel_service.py] (the kernel
      pool, the Jupyter kernel wrapper and the HTTP endpoints),
    together with the properties the design document states about them.

    Python values that cross the wire are JSON values; dictionaries keep
    their insertion order, so they are association lists.  A Python [str]
    is a Rocq [string] whose characters are read as code points below 256.
    Exceptions are values of [exn], carried by the error monad [res]. *)

From Stdlib Require Import ZArith Lia String Ascii List Bool Btauto.
From stdpp Require Import base tactics option list gmap strings pretty functions.

Set Warnings "-register-all".

Local Open Scope string_scope.
Local Open Scope list_scope.

(** ** Python values, exceptions and the string helpers the code uses *)

Module Py.

Inductive json : Type :=
  | JNull
  | JBool (b : bool)
  | JInt (z : Z)
  | JFloat (repr : string)    (* a float, carried by its Python repr *)
  | JStr (s : string)
  | JArr (l : list json)
  | JObj (d : list (string * json)).

Abbreviation pydict := (list (string * json)).

Inductive exn : Type :=
  | KeyError (key : string)
  | TypeError
  | AttributeError
  | IndexError
  | ValidationError
  | HTTPException (status_code : Z) (detail : string)
  | ClientError (msg : string)
  | JSONDecodeError
  | StartupError
  | Exception (msg : string).

Inductive res (A : Type) : Type :=
  | Ok (a : A)
  | Raise (e : exn).
Arguments Ok {A} a.
Arguments Raise {A} e.

#[global] Instance res_ret : MRet res := fun A a => Ok a.
#[global] Instance res_bind : MBind res := fun A B f m =>
  match m with
  | Ok a => f a
  | Raise e => Raise e
  end.

(** [d.get(k)] and [k in d] on a dictionary. *)
Fixpoint dict_get (d : pydict) (k : string) : option json :=
  match d with
  | [] => None
  | (k', v) :: d' => if String.eqb k' k then Some v else dict_get d' k
  end.

Definition keys (d : pydict) : list string := map fst d.

(** [x in l] on a list of strings. *)
Definition list_in (x : string) (l : list string) : bool :=
  existsb (String.eqb x) l.

(** [v[k]] with a string key: a [KeyError] on a dictionary that lacks the
    key, a [TypeError] on everything that is not a dictionary. *)
Definition getitem (v : json) (k : string) : res json :=
  match v with
  | JObj d =>
      match dict_get d k with
      | Some x => Ok x
      | None => Raise (KeyError k)
      end
  | _ => Raise TypeError
  end.

(** [sub in s] on strings. *)
Fixpoint str_in (sub s : string) : bool :=
  String.prefix sub s ||
  match s with
  | EmptyString => false
  | String _ s' => str_in sub s'
  end.

(** [sep.join(l)]. *)
Fixpoint str_join (sep : string) (l : list string) : string :=
  match l with
  | [] => ""
  | [x] => x
  | x :: l' => x +:+ sep +:+ str_join sep l'
  end.

Definition newline : string := String (ascii_of_nat 10) "".

(** Python truthiness, as used by [not v] and [if v]. *)
Definition truthy (v : json) : bool :=
  match v with
  | JNull => false
  | JBool b => b
  | JInt z => negb (Z.eqb z 0)
  | JFloat r => negb (String.eqb r "0.0" || String.eqb r "-0.0")
  | JStr s => negb (String.eqb s "")
  | JArr l => match l with [] => false | _ => true end
  | JObj d => match d with [] => false | _ => true end
  end.

(** [v == "lit"] for a string literal. *)
Definition eq_str (v : option json) (lit : string) : bool :=
  match v with
  | Some (JStr s) => String.eqb s lit
  | _ => false
  end.

(** What [for x in v] iterates over: the items of a list, the characters
    of a string, the keys of a dictionary; anything else is not iterable. *)
Fixpoint chars (s : string) : list string :=
  match s with
  | EmptyString => []
  | String c s' => String c "" :: chars s'
  end.

Definition iter (v : json) : res (list json) :=
  match v with
  | JArr l => Ok l
  | JStr s => Ok (map JStr (chars s))
  | JObj d => Ok (map JStr (keys d))
  | _ => Raise TypeError
  end.

(** [sep.join(v)]: every item has to be a string. *)
Fixpoint all_str (l : list json) : res (list string) :=
  match l with
  | [] => Ok []
  | JStr s :: l' => r ← all_str l'; Ok (s :: r)
  | _ :: _ => Raise TypeError
  end.

Definition join (sep : string) (v : json) : res string :=
  items ← iter v;
  lines ← all_str items;
  Ok (str_join sep lines).

(** [message.get(k)]: only a dictionary has the method. *)
Definition get (v : json) (k : string) : res (option json) :=
  match v with
  | JObj d => Ok (dict_get d k)
  | _ => Raise AttributeError
  end.

(** [json.dumps(v)] with its defaults ([ensure_ascii], separators [", "]
    and [": "]): every character outside the printable ASCII range, the
    quote and the backslash are escaped. *)
Definition hex_digit (n : N) : ascii :=
  match n with
  | 0 => "0" | 1 => "1" | 2 => "2" | 3 => "3" | 4 => "4" | 5 => "5"
  | 6 => "6" | 7 => "7" | 8 => "8" | 9 => "9" | 10 => "a" | 11 => "b"
  | 12 => "c" | 13 => "d" | 14 => "e" | _ => "f"
  end%N%char.

Definition dquote : string := String (ascii_of_nat 34) "".
Definition bslash : string := String (ascii_of_nat 92) "".

Definition escape_char (c : ascii) : string :=
  let n := N_of_ascii c in
  if (n =? 34)%N then bslash +:+ dquote
  else if (n =? 92)%N then bslash +:+ bslash
  else if (n =? 10)%N then bslash +:+ "n"
  else if (n =? 13)%N then bslash +:+ "r"
  else if (n =? 9)%N then bslash +:+ "t"
  else if (n =? 8)%N then bslash +:+ "b"
  else if (n =? 12)%N then bslash +:+ "f"
  else if ((32 <=? n) && (n <=? 126))%N then String c ""
  else bslash +:+ "u00" +:+
       String (hex_digit (n / 16)) (String (hex_digit (n mod 16)) "").

Fixpoint escape (s : string) : string :=
  match s with
  | EmptyString => ""
  | String c s' => escape_char c +:+ escape s'
  end.

Definition quote (s : string) : string :=
  dquote +:+ escape s +:+ dquote.

Definition dumps_float (r : string) : string :=
  if String.eqb r "nan" then "NaN"
  else if String.eqb r "inf" then "Infinity"
  else if String.eqb r "-inf" then "-Infinity"
  else r.

Fixpoint json_dumps (v : json) : string :=
  match v with
  | JNull => "null"
  | JBool true => "true"
  | JBool false => "false"
  | JInt z => pretty z
  | JFloat r => dumps_float r
  | JStr s => quote s
  | JArr l => "[" +:+ str_join ", " (map json_dumps l) +:+ "]"
  | JObj d =>
      "{" +:+
      str_join ", "
        (map (fun kv => match kv with
                        | (k, x) => quote k +:+ ": " +:+ json_dumps x
                        end) d)
      +:+ "}"
  end.

End Py.

(** ** The message translator ([ContainerKernelClient._process_messages]) *)

Module Translator.
Import Py.

(** [code_sandbox_types.KernelOutput], a pydantic model. *)
Record KernelOutput : Type := mkOutput {
  mime_type : string;
  content : string;
  is_error : bool
}.

(** Constructing the model validates its fields: with pydantic 2 (the
    version [setup.py] requires) a [str] field takes a string and nothing
    else. The mime type and the flag are literals or dictionary keys in
    every call, so only [content] can fail. *)
Definition KernelOutput_new (mime : string) (c : json) (err : bool)
  : res KernelOutput :=
  match c with
  | JStr s => Ok (mkOutput mime s err)
  | _ => Raise ValidationError
  end.

(** [list(data.keys())]. *)
Definition dict_keys (v : json) : res (list string) :=
  match v with
  | JObj d => Ok (keys d)
  | _ => Raise AttributeError
  end.

(** The body of the [for message in messages] loop: [results] is the
    list built so far, the value returned is the list after the body. *)
Definition process_message (results : list KernelOutput) (message : json)
  : res (list KernelOutput) :=
  msg_type ← get message "msg_type";
  if eq_str msg_type "stream" then
    c ← getitem message "content";
    text ← getitem c "text";
    o ← KernelOutput_new "text/plain" text false;
    Ok (results ++ [o])
  else if eq_str msg_type "display_data" || eq_str msg_type "execute_result" then
    c ← getitem message "content";
    data ← getitem c "data";
    mime_types ← dict_keys data;
    if existsb (str_in "image") mime_types then
      match List.filter (str_in "image") mime_types with
      | mt :: _ =>
          v ← getitem data mt;
          o ← KernelOutput_new mt v false;
          Ok (results ++ [o])
      | [] => Raise IndexError
      end
    else if list_in "text/markdown" mime_types then
      v ← getitem data "text/markdown";
      o ← KernelOutput_new "text/markdown" v false;
      Ok (results ++ [o])
    else if list_in "text/html" mime_types then
      v ← getitem data "text/html";
      o ← KernelOutput_new "text/html" v false;
      Ok (results ++ [o])
    else if list_in "application/json" mime_types then
      v ← getitem data "application/json";
      o ← KernelOutput_new "application/json" (JStr (json_dumps v)) false;
      Ok (results ++ [o])
    else
      v ← getitem data "text/plain";
      o ← KernelOutput_new "text/plain" v false;
      Ok (results ++ [o])
  else if eq_str msg_type "error" then
    c ← getitem message "content";
    tb ← getitem c "traceback";
    text ← join newline tb;
    o ← KernelOutput_new "text/plain" (JStr text) true;
    Ok (results ++ [o])
  else
    Ok results.

Fixpoint process_loop (results : list KernelOutput) (messages : list json)
  : res (list KernelOutput) :=
  match messages with
  | [] => Ok results
  | message :: rest =>
      results' ← process_message results message;
      process_loop results' rest
  end.

Definition _process_messages (messages : json) : res (list KernelOutput) :=
  items ← iter messages;
  process_loop [] items.

(** *** The design's reading of the selection (section 4.1)

    One representation is chosen by priority: the first mime type that
    contains [image]; else [text/markdown]; else [text/html]; else
    [application/json], serialised to text; else [text/plain]. *)
Definition spec_choice (data : pydict) : option (string * json) :=
  match find (fun kv => str_in "image" kv.1) data with
  | Some (mt, v) => Some (mt, v)
  | None =>
  match dict_get data "text/markdown" with
  | Some v => Some ("text/markdown", v)
  | None =>
  match dict_get data "text/html" with
  | Some v => Some ("text/html", v)
  | None =>
  match dict_get data "application/json" with
  | Some v => Some ("application/json", JStr (json_dumps v))
  | None =>
  match dict_get data "text/plain" with
  | Some v => Some ("text/plain", v)
  | None => None
  end end end end end.

(** The mime types the selection knows. *)
Definition listed (mt : string) : bool :=
  str_in "image" mt || String.eqb mt "text/markdown" ||
  String.eqb mt "text/html" || String.eqb mt "application/json" ||
  String.eqb mt "text/plain".

Definition offers_listed (data : pydict) : bool := existsb listed (keys data).

(** A [display_data] or [execute_result] event and the representations
    it carries. *)
Definition is_display (message : json) : bool :=
  match message with
  | JObj m =>
      eq_str (dict_get m "msg_type") "display_data" ||
      eq_str (dict_get m "msg_type") "execute_result"
  | _ => false
  end.

Definition data_of (message : json) : option pydict :=
  match message with
  | JObj m =>
      match dict_get m "content" with
      | Some (JObj c) =>
          match dict_get c "data" with
          | Some (JObj d) => Some d
          | _ => None
          end
      | _ => None
      end
  | _ => None
  end.

(** An [error] event and its traceback lines. *)
Definition is_error_event (message : json) : bool :=
  match message with
  | JObj m => eq_str (dict_get m "msg_type") "error"
  | _ => false
  end.

Definition traceback_of (message : json) : option (list string) :=
  match message with
  | JObj m =>
      match dict_get m "content" with
      | Some (JObj c) =>
          match dict_get c "traceback" with
          | Some (JArr l) =>
              match all_str l with
              | Ok lines => Some lines
              | Raise _ => None
              end
          | _ => None
          end
      | _ => None
      end
  | _ => None
  end.

(** What the translator does with a choice: one output appended, or the
    [KeyError] of the last branch. *)
Definition emit (results : list KernelOutput) (choice : option (string * json))
  : res (list KernelOutput) :=
  match choice with
  | Some (mt, v) => o ← KernelOutput_new mt v false; Ok (results ++ [o])
  | None => Raise (KeyError "text/plain")
  end.

End Translator.

(** ** The relay client ([ContainerKernelClient] in [server.py]) *)

Module Relay.
Import Py Translator.

(** What [session.post(url, json=payload)] gives back: the request fails
    with an [aiohttp.ClientError] (carried by its [str]), or a response
    arrives, with its status and with what [await response.text()] and
    [await response.json()] yield. *)
Inductive post_result : Type :=
  | PostFailed (e : string)
  | PostResponse (status : Z) (text : res string) (body : res json).

Section Client.

(** [str(v)] of a list or a dictionary is their [repr]; it is kept
    abstract. *)
Variable repr : json -> string.

(** [f"{v}"]. *)
Definition py_str (v : json) : string :=
  match v with
  | JStr s => s
  | JNull => "None"
  | JBool true => "True"
  | JBool false => "False"
  | JInt z => pretty z
  | JFloat r => r
  | _ => repr v
  end.

(** [result.get('error', 'Unknown error')]. *)
Definition get_default (v : json) (k : string) (dflt : json) : res json :=
  o ← get v k;
  Ok (default dflt o).

(** The [except aiohttp.ClientError as e] clause around the request. *)
Definition except_ClientError {A : Type} (r : res A) : res A :=
  match r with
  | Raise (ClientError e) =>
      Raise (Exception ("Failed to connect to container service: " +:+ e))
  | _ => r
  end.

(** The [payload] dictionary of [execute_code]. *)
Definition payload_of (kernel_id code language : string) : json :=
  JObj [("kernel_id", JStr kernel_id); ("code", JStr code);
        ("language", JStr language)].

(** [ContainerKernelClient.execute_code]; [post] is the transport, the
    answer of the container service to a url and a payload. *)
Definition execute_code (base_url : string)
    (post : string -> json -> post_result)
    (kernel_id code language : string) : res (list KernelOutput) :=
  let payload := payload_of kernel_id code language in
  except_ClientError
    match post (base_url +:+ "/execute") payload with
    | PostFailed e => Raise (ClientError e)
    | PostResponse status text body =>
        if negb (Z.eqb status 200) then
          error_text ← text;
          Raise (Exception ("Container service error: " +:+ error_text))
        else
          result ← body;
          success ← getitem result "success";
          if negb (truthy success) then
            e ← get_default result "error" (JStr "Unknown error");
            Raise (Exception ("Execution failed: " +:+ py_str e))
          else
            messages ← getitem result "messages";
            _process_messages messages
    end.

End Client.

(** *** Health polling ([ContainerKernelClient.health_check])

    Time is explicit: a clock that counts ticks, [hz] of them in a second.
    The environment decides how each [GET /health] ends and how long it
    and the following [asyncio.sleep(1)] really take. *)
Inductive probe : Type :=
  | ProbeStatus (status : Z)     (* a response arrived *)
  | ProbeClientError             (* aiohttp.ClientError *)
  | ProbeTimeout.                (* asyncio.TimeoutError, after 5 seconds *)

Record attempt : Type := mkAttempt {
  outcome : probe;
  took : N;        (* ticks from the loop test to the end of the request *)
  overshoot : N    (* ticks the sleep lasts beyond its second *)
}.

Inductive effect : Type :=
  | Get (url : string) (total_timeout : Z)
  | Sleep (seconds : Z).

Definition is_200 (p : probe) : bool :=
  match p with
  | ProbeStatus s => Z.eqb s 200
  | _ => false
  end.

Section Health.

Variable hz : positive.
Variable base_url : string.
Variable env : nat -> attempt.
Variable start_time : Z.
Variable timeout : Z.

(** The [while time.time() - start_time < timeout] loop; [n] counts the
    requests made so far, [now] is what [time.time()] reads at the test. *)
Fixpoint poll (fuel n : nat) (now : Z) (log : list effect)
  : option (bool * Z * list effect) :=
  match fuel with
  | O => None
  | S fuel' =>
      if (now - start_time <? timeout * Z.pos hz)%Z then
        let a := env n in
        let log1 := log ++ [Get (base_url +:+ "/health") 5] in
        let now1 := (now + Z.of_N (took a))%Z in
        if is_200 (outcome a) then Some (true, now1, log1)
        else
          poll fuel' (S n) (now1 + Z.pos hz + Z.of_N (overshoot a))%Z
               (log1 ++ [Sleep 1])
      else Some (false, now, log)
  end.

End Health.

(** [health_check(timeout=60)]: [setup] ticks pass between reading
    [start_time] and the first loop test. The loop runs at most once per
    second of [timeout], which bounds the fuel. *)
Definition health_check (hz : positive) (base_url : string)
    (env : nat -> attempt) (start_time : Z) (setup : N)
    (timeout : option Z) : option (bool * Z * list effect) :=
  let t := default 60%Z timeout in
  poll hz base_url env start_time t (S (Z.to_nat t)) 0
       (start_time + Z.of_N setup)%Z [].

(** The tick at which request [k] starts when all earlier ones failed. *)
Fixpoint probe_start (hz : positive) (env : nat -> attempt)
    (first : Z) (k : nat) : Z :=
  match k with
  | O => first
  | S k' =>
      (probe_start hz env first k' + Z.of_N (took (env k')) + Z.pos hz +
       Z.of_N (overshoot (env k')))%Z
  end.

(** The effects of [k] failed rounds. *)
Fixpoint rounds (base_url : string) (k : nat) : list effect :=
  match k with
  | O => []
  | S k' => rounds base_url k' ++ [Get (base_url +:+ "/health") 5; Sleep 1]
  end.

End Relay.

(** ** The container service ([kernel_service.py]), one request at a time

    The service is run here by a single task from the start of a request
    to its end. Kernel processes and lock objects are known by a number,
    their identity. What the kernels do is input: [boots h] tells whether
    kernel [h] comes up, [iopub h] is the list of the messages its iopub
    channel will still deliver. *)

Module Service.
Import Py.

Inductive effect : Type :=
  | NewKernel (h : nat)                      (* AsyncKernelManager() *)
  | StartKernel (h : nat) (cwd : string)     (* km.start_kernel(cwd=...) *)
  | StartChannels (h : nat)                  (* kc.start_channels() *)
  | WaitForReady (h : nat)                   (* kc.wait_for_ready() *)
  | Execute (h : nat) (code : string)        (* kc.execute(code) *)
  | StopChannels (h : nat)                   (* kc.stop_channels() *)
  | ShutdownKernel (h : nat).                (* km.shutdown_kernel() *)

Record JupyterKernel : Type := mkKernel {
  km : nat;                    (* the AsyncKernelManager of the kernel *)
  kc : option nat;             (* its client, [None] until [start] *)
  _execution_lock : bool       (* the asyncio.Lock, [true] while held *)
}.

Record KernelManager : Type := mkManager {
  kernels : gmap string JupyterKernel;
  _kernel_locks : gmap string nat
}.

Record world : Type := mkWorld {
  kernel_manager : KernelManager;
  fresh : nat;                          (* the next object identity *)
  boots : nat -> bool;
  iopub : nat -> list json;
  log : list effect
}.

(** A coroutine run to its end returns, raises, or waits for ever. *)
Inductive outcome (A : Type) : Type :=
  | Done (a : A) (w : world)
  | Raised (e : exn) (w : world)
  | Blocked (w : world).
Arguments Done {A} a w.
Arguments Raised {A} e w.
Arguments Blocked {A} w.

Definition M (A : Type) : Type := world -> outcome A.

Definition ret {A : Type} (a : A) : M A := fun w => Done a w.

Definition bind {A B : Type} (m : M A) (f : A -> M B) : M B := fun w =>
  match m w with
  | Done a w' => f a w'
  | Raised e w' => Raised e w'
  | Blocked w' => Blocked w'
  end.

Definition raise {A : Type} (e : exn) : M A := fun w => Raised e w.

Definition lift {A : Type} (r : res A) : M A :=
  match r with
  | Ok a => ret a
  | Raise e => raise e
  end.

Definition emit (e : effect) : M unit := fun w =>
  Done tt (mkWorld (kernel_manager w) (fresh w) (boots w) (iopub w)
                   (log w ++ [e])).

Definition set_manager (m : KernelManager) : M unit := fun w =>
  Done tt (mkWorld m (fresh w) (boots w) (iopub w) (log w)).

Definition new_object : M nat := fun w =>
  Done (fresh w)
       (mkWorld (kernel_manager w) (S (fresh w)) (boots w) (iopub w) (log w)).

Notation "'let*' x ':=' m 'in' k" := (bind m (fun x => k))
  (at level 10, x name, m at level 100, k at level 200, only parsing).
Notation "m ';;' k" := (bind m (fun _ => k))
  (at level 100, k at level 200, right associativity, only parsing).

(** [jupyter_imports.KERNEL_LIBRARIES]. *)
Definition KERNEL_LIBRARIES : list (list (string * string)) :=
  [ [("pip", "pandas"); ("name", "pandas"); ("alias", "pd")];
    [("pip", "numpy"); ("name", "numpy"); ("alias", "np")];
    [("pip", "matplotlib"); ("name", "matplotlib.pyplot"); ("alias", "plt")];
    [("pip", "seaborn"); ("name", "seaborn"); ("alias", "sns")] ].

Fixpoint lib_get (library : list (string * string)) (k : string)
  : option string :=
  match library with
  | [] => None
  | (k', v) :: rest => if String.eqb k' k then Some v else lib_get rest k
  end.

Definition lib_getitem (library : list (string * string)) (k : string)
  : res string :=
  match lib_get library k with
  | Some v => Ok v
  | None => Raise (KeyError k)
  end.

(** The string that the loop of [import_libraries] builds. *)
Fixpoint import_code (code : string) (libraries : list (list (string * string)))
  : res string :=
  match libraries with
  | [] => Ok code
  | library :: rest =>
      code1 ←
        match lib_get library "pip" with
        | Some p => Ok (code +:+ "!pip install " +:+ p +:+ newline)
        | None => Ok code
        end;
      name ← lib_getitem library "name";
      alias ← lib_getitem library "alias";
      let code2 := code1 +:+ "import " +:+ name +:+ " as " +:+ alias +:+ newline in
      let code3 :=
        if str_in "matplotlib" name
        then code2 +:+ "%matplotlib inline" +:+ newline
        else code2 in
      import_code code3 rest
  end.

(** One round of the [while True] loop of [execute_raw] on the reply that
    [get_iopub_msg] returned: whether the reply is handed to the consumer
    (it is, unless reading its type fails), and how the round ends. The
    loop is left on the [status] message whose [execution_state] is
    [idle]. *)
Inductive after_reply : Type :=
  | Continue
  | Break
  | Throw (e : exn).

Definition on_reply (reply : json) : bool * after_reply :=
  match get reply "msg_type" with
  | Raise e => (false, Throw e)
  | Ok msg_type =>
      if eq_str msg_type "status" then
        match (c ← getitem reply "content"; getitem c "execution_state") with
        | Raise e => (true, Throw e)
        | Ok st =>
            if eq_str (Some st) "idle" then (true, Break)
            else (true, Continue)
        end
      else (true, Continue)
  end.

(** The loop over the messages the channel delivers. The result is the
    list of the replies handed over, what is left on the channel, and how
    the loop ended; with no message left the read never returns. *)
Inductive loop_end : Type :=
  | Idle
  | Fails (e : exn)
  | Waits.

Fixpoint read_replies (pending yielded : list json)
  : list json * list json * loop_end :=
  match pending with
  | [] => (yielded, [], Waits)
  | reply :: rest =>
      let '(handed, next) := on_reply reply in
      let yielded' := if handed then yielded ++ [reply] else yielded in
      match next with
      | Continue => read_replies rest yielded'
      | Break => (yielded', rest, Idle)
      | Throw e => (yielded', rest, Fails e)
      end
  end.

(** [JupyterKernel.execute_raw], consumed by an [async for] that keeps
    every message. *)
Definition execute_raw (kernel : JupyterKernel) (code : string)
  : M (list json) := fun w =>
  if _execution_lock kernel then Blocked w
  else
    match kc kernel with
    | None => Raised AttributeError w      (* [None] has no [execute] *)
    | Some h =>
        let '(yielded, rest, ending) := read_replies (iopub w h) [] in
        let w' := mkWorld (kernel_manager w) (fresh w) (boots w)
                          (<[h := rest]> (iopub w))
                          (log w ++ [Execute h code]) in
        match ending with
        | Idle => Done yielded w'
        | Fails e => Raised e w'
        | Waits => Blocked w'
        end
    end.

(** [JupyterKernel.__init__] and [JupyterKernel.start]. *)
Definition JupyterKernel_new : M JupyterKernel :=
  let* h := new_object in
  emit (NewKernel h);;
  ret (mkKernel h None false).

Definition start (kernel : JupyterKernel) (working_dir : string)
  : M JupyterKernel := fun w =>
  let h := km kernel in
  if boots w h then
    (emit (StartKernel h working_dir);;
     emit (StartChannels h);;
     emit (WaitForReady h);;
     ret (mkKernel h (Some h) (_execution_lock kernel))) w
  else Raised StartupError w.

Definition import_libraries (kernel : JupyterKernel)
    (libraries : list (list (string * string))) : M unit :=
  let* code := lift (import_code "" libraries) in
  let* messages := execute_raw kernel code in
  ret tt.

(** [JupyterKernel.shutdown]. *)
Definition shutdown (kernel : JupyterKernel) : M unit :=
  (match kc kernel with
   | Some c => emit (StopChannels c)
   | None => ret tt
   end);;
  emit (ShutdownKernel (km kernel)).

(** [KernelManager.get_kernel]: both locks are free when a single task
    runs, so taking and releasing them leaves no trace. *)
Definition get_kernel (kernel_id : string) : M JupyterKernel := fun w =>
  let mgr := kernel_manager w in
  (let* lock :=
     match _kernel_locks mgr !! kernel_id with
     | Some l => ret l
     | None =>
         let* l := new_object in
         set_manager (mkManager (kernels mgr)
                                (<[kernel_id := l]> (_kernel_locks mgr)));;
         ret l
     end in
   match kernels mgr !! kernel_id with
   | Some kernel => ret kernel
   | None =>
       let* kernel := JupyterKernel_new in
       let* kernel := start kernel "/workspace" in
       import_libraries kernel KERNEL_LIBRARIES;;
       fun w' =>
         let mgr' := kernel_manager w' in
         (set_manager (mkManager (<[kernel_id := kernel]> (kernels mgr'))
                                 (_kernel_locks mgr'));;
          ret kernel) w'
   end) w.

(** [KernelManager.shutdown_kernel]. *)
Definition shutdown_kernel (kernel_id : string) : M unit := fun w =>
  let mgr := kernel_manager w in
  match kernels mgr !! kernel_id with
  | Some kernel =>
      (shutdown kernel;;
       fun w' =>
         let mgr' := kernel_manager w' in
         let kernels' := delete kernel_id (kernels mgr') in
         let locks' :=
           match _kernel_locks mgr' !! kernel_id with
           | Some _ => delete kernel_id (_kernel_locks mgr')
           | None => _kernel_locks mgr'
           end in
         set_manager (mkManager kernels' locks') w') w
  | None => Done tt w
  end.

(** The request and response models of the endpoint. *)
Record ExecuteRequest : Type := mkRequest {
  kernel_id : string;
  code : string;
  language : string
}.

Record ExecuteResponse : Type := mkResponse {
  success : bool;
  messages : list json;
  error : option string
}.

(** [execute_python_code]. *)
Definition execute_python_code (request : ExecuteRequest)
  : M ExecuteResponse :=
  let* kernel := get_kernel (kernel_id request) in
  let* messages := execute_raw kernel (code request) in
  ret (mkResponse true messages None).

(** [str.strip()]: the white space among the code points below 256. *)
Definition is_space (c : ascii) : bool :=
  let n := N_of_ascii c in
  ((9 <=? n) && (n <=? 13) || (28 <=? n) && (n <=? 32) ||
   (n =? 133) || (n =? 160))%N.

Fixpoint lstrip (s : string) : string :=
  match s with
  | EmptyString => ""
  | String c s' => if is_space c then lstrip s' else s
  end.

Fixpoint rstrip (s : string) : string :=
  match s with
  | EmptyString => ""
  | String c s' =>
      match rstrip s' with
      | EmptyString => if is_space c then "" else String c ""
      | t => String c t
      end
  end.

Definition strip (s : string) : string := rstrip (lstrip s).

(** White space only, at the start, at the end. *)
Fixpoint all_space (s : string) : bool :=
  match s with
  | EmptyString => true
  | String c s' => is_space c && all_space s'
  end.

Definition starts_space (s : string) : bool :=
  match s with
  | EmptyString => false
  | String c _ => is_space c
  end.

Fixpoint ends_space (s : string) : bool :=
  match s with
  | EmptyString => false
  | String c EmptyString => is_space c
  | String _ s' => ends_space s'
  end.

(** What the steps of [JupyterKernel.shutdown] leave in the log. *)
Definition shutdown_effects (kernel : JupyterKernel) : list effect :=
  match kc kernel with
  | Some c => [StopChannels c]
  | None => []
  end ++ [ShutdownKernel (km kernel)].

(** The shell magic [execute_shell_code] turns the code into. *)
Definition jupyter_code (request_code : string) : string :=
  let code := strip request_code in
  if str_in newline code
  then "%%bash" +:+ newline +:+ code
  else "!" +:+ code.

(** [execute_shell_code]. *)
Definition execute_shell_code (request : ExecuteRequest)
  : M ExecuteResponse :=
  let* kernel := get_kernel (kernel_id request) in
  let code := strip (code request) in
  let jupyter_code :=
    if str_in newline code
    then "%%bash" +:+ newline +:+ code
    else "!" +:+ code in
  let* messages := execute_raw kernel jupyter_code in
  ret (mkResponse true messages None).

Section Endpoint.

(** [traceback.format_exc()] starts with a fixed line; the frames and the
    line of the exception that follow depend on where the code is
    installed and are kept abstract. *)
Variable traceback_body : exn -> string.

Definition format_exc (e : exn) : string :=
  "Traceback (most recent call last):" +:+ newline +:+ traceback_body e.

(** The route function [execute_code] of [POST /execute]. *)
Definition execute_code (request : ExecuteRequest) : M ExecuteResponse :=
  fun w =>
  let body : M ExecuteResponse :=
    if String.eqb (language request) "python" then
      execute_python_code request
    else if String.eqb (language request) "bash" then
      execute_shell_code request
    else
      raise (HTTPException 400
               ("Unsupported language: " +:+ language request)) in
  match body w with
  | Raised e w' => Done (mkResponse false [] (Some (format_exc e))) w'
  | r => r
  end.

(** What FastAPI makes of a route function: its value is sent with status
    200, an [HTTPException] that leaves it with the status it carries,
    any other exception with status 500. *)
Inductive http_body : Type :=
  | Model (r : ExecuteResponse)
  | Detail (d : string)
  | InternalServerError.

Inductive http_reply : Type :=
  | Reply (status : Z) (body : http_body)
  | NoReply.

Definition respond (r : outcome ExecuteResponse) : http_reply :=
  match r with
  | Done resp _ => Reply 200 (Model resp)
  | Raised (HTTPException status detail) _ => Reply status (Detail detail)
  | Raised _ _ => Reply 500 InternalServerError
  | Blocked _ => NoReply
  end.

Definition post_execute (request : ExecuteRequest) (w : world) : http_reply :=
  respond (execute_code request w).

End Endpoint.

End Service.

(** ** Tasks and locks

    A lock has at most one owner among the tasks of a list: the task
    whose place in the code satisfies [P]. *)

Module Loop.

Section Owner.

Context {A : Type}.

(** Who holds the lock after task [i] went from [p] to [p']. *)
Definition next_owner (P : A -> bool) (i : nat) (p p' : A)
    (owner : option nat) : option nat :=
  if P p' then Some i else if P p then None else owner.

Definition owns (P : A -> bool) (ts : list A) (owner : option nat) : Prop :=
  forall i, (exists p, ts !! i = Some p /\ P p = true) <-> owner = Some i.

End Owner.

End Loop.

(** ** Concurrent callers of [KernelManager.get_kernel]

    The tasks of the event loop take turns; a task runs until it has to
    wait, and a task that waits for a lock runs again only once the lock is
    free. A call of [get_kernel] is cut at the points where it can wait:
    the two [async with] and the two [await]. A switch at an [async with]
    on a free lock is allowed here although asyncio does not make one, so
    the runs of the event loop are among the runs below. [start] and
    [import_libraries] work on a kernel that only the calling task knows
    and are taken as they run in the service above. *)

Module Pool.
Import Py Service Loop.

(** Where a call of [get_kernel] stands. *)
Inductive pc : Type :=
  | AtPoolLock                                (* before [async with self._lock] *)
  | InPoolLock                                (* inside it *)
  | AtIdLock (lock : nat)                     (* before [async with lock] *)
  | InIdLock (lock : nat)                     (* inside it, before the test *)
  | Starting (lock : nat) (kernel : JupyterKernel)    (* [await kernel.start()] *)
  | Importing (lock : nat) (kernel : JupyterKernel)   (* [await kernel.import_libraries(...)] *)
  | Returned (kernel : JupyterKernel)
  | Failed (e : exn).

(** The service, its pool-wide lock, the per-identifier locks that are
    held, and the calls in flight. *)
Record state : Type := mkState {
  wld : world;
  _lock : bool;
  held : gset nat;
  tasks : list pc
}.

Definition with_manager (m : KernelManager) (w : world) : world :=
  mkWorld m (fresh w) (boots w) (iopub w) (log w).

(** One turn of a call standing at [p]; [None] when it has to wait or is
    over. *)
Definition step_task (kernel_id : string) (p : pc) (s : state)
  : option (pc * state) :=
  let w := wld s in
  let mgr := kernel_manager w in
  match p with
  | AtPoolLock =>
      if _lock s then None
      else Some (InPoolLock, mkState w true (held s) (tasks s))
  | InPoolLock =>
      match _kernel_locks mgr !! kernel_id with
      | Some lock => Some (AtIdLock lock, mkState w false (held s) (tasks s))
      | None =>
          let lock := fresh w in
          let mgr' := mkManager (kernels mgr)
                                (<[kernel_id := lock]> (_kernel_locks mgr)) in
          let w' := mkWorld mgr' (S (fresh w)) (boots w) (iopub w) (log w) in
          Some (AtIdLock lock, mkState w' false (held s) (tasks s))
      end
  | AtIdLock lock =>
      if decide (lock ∈ held s) then None
      else Some (InIdLock lock, mkState w (_lock s) ({[lock]} ∪ held s) (tasks s))
  | InIdLock lock =>
      match kernels mgr !! kernel_id with
      | Some kernel =>
          Some (Returned kernel,
                mkState w (_lock s) (held s ∖ {[lock]}) (tasks s))
      | None =>
          match JupyterKernel_new w with
          | Done kernel w' =>
              Some (Starting lock kernel, mkState w' (_lock s) (held s) (tasks s))
          | _ => None
          end
      end
  | Starting lock kernel =>
      match start kernel "/workspace" w with
      | Done kernel' w' =>
          Some (Importing lock kernel',
                mkState w' (_lock s) (held s) (tasks s))
      | Raised e w' =>
          Some (Failed e, mkState w' (_lock s) (held s ∖ {[lock]}) (tasks s))
      | Blocked _ => None
      end
  | Importing lock kernel =>
      match import_libraries kernel KERNEL_LIBRARIES w with
      | Done _ w' =>
          let mgr' := kernel_manager w' in
          let w'' :=
            with_manager (mkManager (<[kernel_id := kernel]> (kernels mgr'))
                                    (_kernel_locks mgr')) w' in
          Some (Returned kernel,
                mkState w'' (_lock s) (held s ∖ {[lock]}) (tasks s))
      | Raised e w' =>
          Some (Failed e, mkState w' (_lock s) (held s ∖ {[lock]}) (tasks s))
      | Blocked _ => None
      end
  | Returned _ => None
  | Failed _ => None
  end.

(** The event loop gives the turn to call [i]. *)
Definition step (kernel_id : string) (i : nat) (s : state) : option state :=
  p ← tasks s !! i;
  '(p', s') ← step_task kernel_id p s;
  Some (mkState (wld s') (_lock s') (held s') (<[i := p']> (tasks s'))).

(** A schedule is the list of the calls that get the turn; a turn given
    to a call that cannot run changes nothing. *)
Fixpoint run (kernel_id : string) (schedule : list nat) (s : state) : state :=
  match schedule with
  | [] => s
  | i :: rest =>
      match step kernel_id i s with
      | Some s' => run kernel_id rest s'
      | None => run kernel_id rest s
      end
  end.

(** The turns of a schedule that did run. *)
Fixpoint turns (kernel_id : string) (schedule : list nat) (s : state) : nat :=
  match schedule with
  | [] => 0
  | i :: rest =>
      match step kernel_id i s with
      | Some s' => S (turns kernel_id rest s')
      | None => turns kernel_id rest s
      end
  end.

(** [n] calls made together on a service at rest. *)
Definition init (w : world) (n : nat) : state :=
  mkState w false ∅ (replicate n AtPoolLock).

(** The kernels of the service come up and answer the import. *)
Definition responsive (w : world) : Prop :=
  forall h, boots w h = true /\ (read_replies (iopub w h) []).2 = Idle.

(** The lock and the kernel that the calls for [kernel_id] will make, and
    what making the kernel leaves in the log. *)
Definition the_lock (w : world) (kernel_id : string) : nat :=
  default (fresh w) (_kernel_locks (kernel_manager w) !! kernel_id).

Definition the_handle (w : world) (kernel_id : string) : nat :=
  match _kernel_locks (kernel_manager w) !! kernel_id with
  | Some _ => fresh w
  | None => S (fresh w)
  end.

Definition the_kernel (w : world) (kernel_id : string) : JupyterKernel :=
  let h := the_handle w kernel_id in mkKernel h (Some h) false.

Definition the_import : string :=
  match import_code "" KERNEL_LIBRARIES with
  | Ok code => code
  | Raise _ => ""
  end.

Definition the_log (w : world) (kernel_id : string) : list effect :=
  let h := the_handle w kernel_id in
  [NewKernel h; StartKernel h "/workspace"; StartChannels h; WaitForReady h;
   Execute h the_import].

(** The turns a call still needs at most. *)
Definition rank (p : pc) : nat :=
  match p with
  | AtPoolLock => 6
  | InPoolLock => 5
  | AtIdLock _ => 4
  | InIdLock _ => 3
  | Starting _ _ => 2
  | Importing _ _ => 1
  | Returned _ => 0
  | Failed _ => 0
  end.

Definition remaining (s : state) : nat := list_sum (map rank (tasks s)).

(** *** The invariant of the runs

    The calls for one identifier go through four phases together: no
    kernel made yet, a kernel made and starting, a kernel started and
    importing, the kernel stored. *)
Inductive phase : Type := Fresh | Built | Booted | Stored.

Definition in_pool (p : pc) : bool :=
  match p with
  | InPoolLock => true
  | _ => false
  end.

Definition crit (p : pc) : bool :=
  match p with
  | InIdLock _ | Starting _ _ | Importing _ _ => true
  | _ => false
  end.

Section Invariant.

Variable kernel_id : string.
Variable w0 : world.

Definition task_ok (ph : phase) (p : pc) : Prop :=
  match p with
  | AtPoolLock | InPoolLock => True
  | AtIdLock l | InIdLock l => l = the_lock w0 kernel_id
  | Starting l k =>
      l = the_lock w0 kernel_id /\
      k = mkKernel (the_handle w0 kernel_id) None false /\ ph = Built
  | Importing l k =>
      l = the_lock w0 kernel_id /\ k = the_kernel w0 kernel_id /\ ph = Booted
  | Returned k => k = the_kernel w0 kernel_id /\ ph = Stored
  | Failed _ => False
  end.

(** The call that a phase is waiting for. *)
Definition phase_task (ph : phase) (p : pc) : bool :=
  match ph, p with
  | Built, Starting _ _ => true
  | Booted, Importing _ _ => true
  | _, _ => false
  end.

Definition phase_ok (ph : phase) (s : state) : Prop :=
  let w := wld s in
  let made := kernels (kernel_manager w) !! kernel_id in
  match ph with
  | Fresh =>
      made = None /\ log w = log w0 /\ iopub w = iopub w0 /\
      (is_Some (_kernel_locks (kernel_manager w) !! kernel_id) ->
       fresh w = the_handle w0 kernel_id)
  | Built =>
      made = None /\ iopub w = iopub w0 /\
      log w = log w0 ++ firstn 1 (the_log w0 kernel_id) /\
      exists j p, tasks s !! j = Some p /\ phase_task Built p = true
  | Booted =>
      made = None /\ iopub w = iopub w0 /\
      log w = log w0 ++ firstn 4 (the_log w0 kernel_id) /\
      exists j p, tasks s !! j = Some p /\ phase_task Booted p = true
  | Stored =>
      made = Some (the_kernel w0 kernel_id) /\
      log w = log w0 ++ the_log w0 kernel_id
  end.

Definition locks_ok (s : state) : Prop :=
  match _kernel_locks (kernel_manager (wld s)) !! kernel_id with
  | Some l => l = the_lock w0 kernel_id
  | None =>
      _kernel_locks (kernel_manager w0) !! kernel_id = None /\
      fresh (wld s) = fresh w0 /\
      forall i p, tasks s !! i = Some p -> p = AtPoolLock \/ p = InPoolLock
  end.

Record inv (s : state) (pool_owner owner : option nat) (ph : phase)
  : Prop := mkInv {
  inv_tasks : forall i p, tasks s !! i = Some p -> task_ok ph p;
  inv_pool_lock : _lock s = bool_decide (is_Some pool_owner);
  inv_pool_owner : owns in_pool (tasks s) pool_owner;
  inv_held :
    held s = match owner with
             | Some _ => {[the_lock w0 kernel_id]}
             | None => ∅
             end;
  inv_owner : owns crit (tasks s) owner;
  inv_boots : boots (wld s) = boots w0;
  inv_locks : locks_ok s;
  inv_phase : phase_ok ph s
}.

End Invariant.

End Pool.

(** ** Concurrent callers of [JupyterKernel.execute_raw]

    Several calls of [execute_raw] on one kernel, run by the event loop in
    any order. A call waits at [async with self._execution_lock] while the
    lock is held and at [await self.kc.get_iopub_msg()] while the channel
    has nothing to deliver; a call can be cancelled where it waits. What
    the calls do to the kernel and to their consumers is recorded in a
    trace. *)

Module Session.
Import Py Service Loop.

(** Where a call of [execute_raw] stands. *)
Inductive pc : Type :=
  | AtLock (code : string)      (* before [async with self._execution_lock] *)
  | Reading                     (* in the loop, at [get_iopub_msg] *)
  | Finished                    (* left the loop by [break] *)
  | Cancelled                   (* ended by a cancellation *)
  | Failed (e : exn).           (* ended by an exception of the loop body *)

Inductive event : Type :=
  | Sent (i : nat) (code : string)      (* call [i] ran [kc.execute(code)] *)
  | Yielded (i : nat) (reply : json)    (* call [i] handed [reply] over *)
  | Stopped (i : nat)                   (* call [i] caught [CancelledError] *)
  | Raised (i : nat) (e : exn).         (* call [i] raised [e] *)

Record state : Type := mkState {
  _execution_lock : bool;
  channel : list json;        (* what iopub will deliver, in order *)
  trace : list event;
  tasks : list pc
}.

(** What the event loop does next: run a call, or deliver a cancellation
    to it. *)
Inductive turn : Type :=
  | Run (i : nat)
  | Cancel (i : nat).

Definition call_of (t : turn) : nat :=
  match t with
  | Run i => i
  | Cancel i => i
  end.

(** One turn of call [i] standing at [p]. Leaving the [async with], by
    [break], by the caught cancellation or by an exception, releases the
    lock. *)
Definition step_task (t : turn) (p : pc) (s : state) : option (pc * state) :=
  match t, p with
  | Run i, AtLock code =>
      if _execution_lock s then None
      else Some (Reading,
                 mkState true (channel s) (trace s ++ [Sent i code]) (tasks s))
  | Run i, Reading =>
      match channel s with
      | [] => None
      | reply :: rest =>
          let '(handed, next) := on_reply reply in
          let tr := trace s ++ (if handed then [Yielded i reply] else []) in
          match next with
          | Continue => Some (Reading, mkState true rest tr (tasks s))
          | Break => Some (Finished, mkState false rest tr (tasks s))
          | Throw e =>
              Some (Failed e, mkState false rest (tr ++ [Raised i e]) (tasks s))
          end
      end
  | Cancel i, AtLock _ =>
      Some (Cancelled, s)
  | Cancel i, Reading =>
      Some (Cancelled,
            mkState false (channel s) (trace s ++ [Stopped i]) (tasks s))
  | _, _ => None
  end.

Definition step (t : turn) (s : state) : option state :=
  p ← tasks s !! call_of t;
  '(p', s') ← step_task t p s;
  Some (mkState (_execution_lock s') (channel s') (trace s')
                (<[call_of t := p']> (tasks s'))).

Fixpoint run (schedule : list turn) (s : state) : state :=
  match schedule with
  | [] => s
  | t :: rest =>
      match step t s with
      | Some s' => run rest s'
      | None => run rest s
      end
  end.

(** The calls [execute_raw(code)] for the codes of a list, made together
    on a kernel at rest. *)
Definition init (pending : list json) (codes : list string) : state :=
  mkState false pending [] (map AtLock codes).

Definition reading (p : pc) : bool :=
  match p with
  | Reading => true
  | _ => false
  end.

(** *** Reading a trace

    [idle reply] tells the reply on which the loop breaks. A trace is
    followed with the call in flight, if any: code is sent only with no
    call in flight, replies are handed over by the call in flight only,
    and the call in flight ends with the idle reply, a cancellation or an
    exception. *)
Definition idle (reply : json) : bool :=
  match (on_reply reply).2 with
  | Break => true
  | _ => false
  end.

Definition observe (cur : option nat) (ev : event) : option (option nat) :=
  match ev, cur with
  | Sent i _, None => Some (Some i)
  | Yielded i reply, Some j =>
      if Nat.eqb i j then Some (if idle reply then None else Some j) else None
  | Stopped i, Some j => if Nat.eqb i j then Some None else None
  | Raised i _, Some j => if Nat.eqb i j then Some None else None
  | _, _ => None
  end.

Fixpoint follow (cur : option nat) (tr : list event) : option (option nat) :=
  match tr with
  | [] => Some cur
  | ev :: rest =>
      match observe cur ev with
      | Some cur' => follow cur' rest
      | None => None
      end
  end.

(** The events that end the execution of call [i]. *)
Definition ends (i : nat) (ev : event) : bool :=
  match ev with
  | Sent _ _ => false
  | Yielded j reply => Nat.eqb j i && idle reply
  | Stopped j => Nat.eqb j i
  | Raised j _ => Nat.eqb j i
  end.

Definition is_raised (ev : event) : bool :=
  match ev with
  | Raised _ _ => true
  | _ => false
  end.

(** A reply on which the loop body raises nothing. *)
Definition sound (reply : json) : bool :=
  match (on_reply reply).2 with
  | Throw _ => false
  | _ => true
  end.

(** The invariant of the runs: the trace reads well, the call in flight
    is the one call in the loop, and the lock is held exactly then. *)
Record inv (s : state) (cur : option nat) : Prop := mkInv {
  inv_trace : follow None (trace s) = Some cur;
  inv_owner : owns reading (tasks s) cur;
  inv_lock : _execution_lock s = bool_decide (is_Some cur)
}.

End Session.

(** ** What the translator keeps

    The message types that give an output, and the messages that can give
    one: a message that is not a dictionary is kept among them, since the
    translator fails on it. *)

Module Outputs.
Import Py Translator.

Definition is_output_type (msg_type : option json) : bool :=
  eq_str msg_type "stream" || eq_str msg_type "display_data" ||
  eq_str msg_type "execute_result" || eq_str msg_type "error".

Definition produces (message : json) : bool :=
  match message with
  | JObj m => is_output_type (dict_get m "msg_type")
  | _ => true
  end.

End Outputs.

(** ** The life of a kernel

    The world a coroutine leaves, however it ends, and the loop of
    [KernelManager.shutdown_all]. The loop runs over the snapshot
    [list(self.kernels.keys())]; a dictionary lists its keys in the order
    of their insertion, which the finite map does not keep, so the
    snapshot is an argument. *)

Module Lifecycle.
Import Py Service.

Definition world_of {A : Type} (r : outcome A) : world :=
  match r with
  | Done _ w => w
  | Raised _ w => w
  | Blocked w => w
  end.

Fixpoint shutdown_all (keys : list string) : M unit :=
  match keys with
  | [] => ret tt
  | kernel_id :: rest => shutdown_kernel kernel_id;; shutdown_all rest
  end.

End Lifecycle.

(** ** What the callers of [execute_raw] receive

    The replies that the calls handed over, in the order of the trace,
    and the replies that a call hands over at all: a reply whose type
    cannot be read ends the call before the [yield]. *)

Module Delivery.
Import Py Service Session.

Definition handed_over (tr : list event) : list json :=
  flat_map (fun ev => match ev with
                      | Yielded _ reply => [reply]
                      | _ => []
                      end) tr.

Definition readable (reply : json) : bool := (on_reply reply).1.

End Delivery.

(** ** The tool list of a tagged client ([server_middleware.py])

    [FastMCPMiddleware.on_list_tools] filters the tools by the tags of the
    request, read from the context variable [tags_ctx], whose default is
    [None]. A tool carries a set of tags. *)

Module Middleware.

Record Tool : Type := mkTool {
  name : string;
  tags : gset string
}.

(** [set(tags_var) & tool.tags] is not empty. *)
Definition overlaps (tags_var : list string) (tool : Tool) : bool :=
  bool_decide (list_to_set tags_var ∩ tags tool ≠ (∅ : gset string)).

(** [not tool.tags]. *)
Definition untagged (tool : Tool) : bool :=
  bool_decide (tags tool = ∅).

Definition on_list_tools (tags_var : option (list string))
    (tools : list Tool) : list Tool :=
  match tags_var with
  | None => tools
  | Some [] => tools
  | Some tags_var =>
      let filtered_tools := List.filter (overlaps tags_var) tools in
      filtered_tools ++ List.filter untagged tools
  end.

End Middleware.

(** ** The parser of tool results ([client/test_client.py])

    [code_execution_parser] turns the structured content of a tool result
    into the text given to the language model. *)

Module Agent.
Import Py Translator.

Section Parser.

Variable repr : json -> string.

(** [sub in v]: a substring of a string, an item of a list, a key of a
    dictionary. *)
Definition contains (sub : string) (v : json) : res bool :=
  match v with
  | JStr s => Ok (str_in sub s)
  | JArr l => Ok (existsb (fun x => eq_str (Some x) sub) l)
  | JObj d => Ok (list_in sub (keys d))
  | _ => Raise TypeError
  end.

(** The loop over [kernel_outputs]. *)
Fixpoint parse_outputs (output_str : string) (kernel_outputs : list json)
  : res string :=
  match kernel_outputs with
  | [] => Ok output_str
  | kernel_output :: rest =>
      mime_type ← getitem kernel_output "mime_type";
      image ← contains "image" mime_type;
      if (image : bool) then
        parse_outputs
          (output_str +:+ "Image generated but redacted from response" +:+
           newline) rest
      else
        mime_type ← getitem kernel_output "mime_type";
        content ← getitem kernel_output "content";
        parse_outputs
          (output_str +:+ Relay.py_str repr mime_type +:+ ":" +:+ newline +:+
           Relay.py_str repr content +:+ newline) rest
  end.

Definition code_execution_parser (structured_content : json) : res string :=
  result ← getitem structured_content "result";
  kernel_outputs ← iter result;
  parse_outputs "" kernel_outputs.

End Parser.

(** The structured content of the result of the tool [execute_code]: the
    list of outputs under the key [result], every output with the fields
    of [KernelOutput]. *)
Definition dump (o : KernelOutput) : json :=
  JObj [("mime_type", JStr (mime_type o)); ("content", JStr (content o));
        ("is_error", JBool (is_error o))].

Definition structured (outs : list KernelOutput) : json :=
  JObj [("result", JArr (map dump outs))].

(** An output without what the parser has no use for: the content of an
    image and the error flag. *)
Definition blind (o : KernelOutput) : KernelOutput :=
  if str_in "image" (mime_type o)
  then mkOutput (mime_type o) "" false
  else mkOutput (mime_type o) (content o) false.

End Agent.

(** ** Concurrent callers of [get_kernel], whatever the kernels do

    The invariant of the runs when kernels may fail to start, fail the
    import or never answer: the calls for one identifier use one lock, one
    call at a time is between taking and leaving it, a call that returned
    holds the kernel that is registered, and no kernel is registered
    while a call makes one. *)

Module Guard.
Import Py Service Loop Pool.

Definition making (p : pc) : bool :=
  match p with
  | Starting _ _ | Importing _ _ => true
  | _ => false
  end.

Definition failed (p : pc) : bool :=
  match p with
  | Failed _ => true
  | _ => false
  end.

Definition is_new (e : effect) : bool :=
  match e with
  | NewKernel _ => true
  | _ => false
  end.

Definition is_end (e : effect) : bool :=
  match e with
  | StopChannels _ | ShutdownKernel _ => true
  | _ => false
  end.

Section Safety.

Variable kernel_id : string.
Variable w0 : world.

Definition task_safe (w : world) (p : pc) : Prop :=
  match p with
  | AtIdLock l | InIdLock l => l = the_lock w0 kernel_id
  | Starting l _ | Importing l _ =>
      l = the_lock w0 kernel_id /\
      kernels (kernel_manager w) !! kernel_id = None
  | Returned k => kernels (kernel_manager w) !! kernel_id = Some k
  | _ => True
  end.

Record safe (s : state) (pool_owner owner : option nat) : Prop := mkSafe {
  safe_tasks : forall i p, tasks s !! i = Some p -> task_safe (wld s) p;
  safe_pool_lock : _lock s = bool_decide (is_Some pool_owner);
  safe_pool_owner : owns in_pool (tasks s) pool_owner;
  safe_held :
    held s = match owner with
             | Some _ => {[the_lock w0 kernel_id]}
             | None => ∅
             end;
  safe_owner : owns crit (tasks s) owner;
  safe_locks : locks_ok kernel_id w0 s;
  safe_others :
    forall other, other <> kernel_id ->
      kernels (kernel_manager (wld s)) !! other =
      kernels (kernel_manager w0) !! other;
  safe_kept :
    forall k, kernels (kernel_manager w0) !! kernel_id = Some k ->
      kernels (kernel_manager (wld s)) !! kernel_id = Some k;
  safe_made :
    length (List.filter is_new (log (wld s))) =
    length (List.filter is_new (log w0)) +
    length (List.filter failed (tasks s)) +
    length (List.filter making (tasks s)) +
    match kernels (kernel_manager w0) !! kernel_id,
          kernels (kernel_manager (wld s)) !! kernel_id with
    | None, Some _ => 1
    | _, _ => 0
    end;
  safe_ends :
    List.filter is_end (log (wld s)) = List.filter is_end (log w0)
}.

End Safety.

End Guard.

(** ** The tool [execute_code] ([server.py]) and the way to the service

    The tool passes the identifier of the context, the code and the value
    of the [Language] member to the client. The service sends its
    response model as a JSON object with the three fields of
    [ExecuteResponse]. *)

Module Tool.
Import Py Translator Service.

(** [code_sandbox_types.Language]. *)
Inductive Language : Type :=
  | PYTHON
  | BASH.

Definition value (language : Language) : string :=
  match language with
  | PYTHON => "python"
  | BASH => "bash"
  end.

Section Call.

Variable repr : json -> string.

(** The tool function: [ctx.context_id] is the kernel identifier. *)
Definition execute_code (base_url : string)
    (post : string -> json -> Relay.post_result)
    (language : Language) (code : string) (context_id : string)
  : res (list KernelOutput) :=
  let kernel_id := context_id in
  Relay.execute_code repr base_url post kernel_id code (value language).

End Call.

Definition to_json (r : ExecuteResponse) : json :=
  JObj [("success", JBool (success r));
        ("messages", JArr (messages r));
        ("error", match error r with
                  | Some e => JStr e
                  | None => JNull
                  end)].

Definition is_http (e : exn) : bool :=
  match e with
  | HTTPException _ _ => true
  | _ => false
  end.

End Tool.

(** ** How the translator fails

    The exceptions of a translation: a value of the wrong kind
    ([AttributeError], [TypeError]), a content that is not a string
    ([ValidationError]), or one of the keys that the translator reads
    without a test missing. *)

Module Failures.
Import Py.

Definition unguarded : list string :=
  ["content"; "text"; "data"; "traceback"; "text/plain"].

Definition translator_error (e : exn) : bool :=
  match e with
  | AttributeError | TypeError | ValidationError => true
  | KeyError k => list_in k unguarded
  | _ => false
  end.

End Failures.

(** ** The HTTP session of the client ([ContainerKernelClient])

    The client keeps one [aiohttp.ClientSession] in [self.session].
    Sessions are known by a number; the client's state holds the current
    session, the sessions made so far and those that were closed. *)

Module Http.

Record client : Type := mkClient {
  session : option nat;
  made : list nat;          (* every [aiohttp.ClientSession()] so far *)
  closed : gset nat         (* the sessions whose [closed] is true *)
}.

Definition is_closed (c : client) (s : nat) : bool :=
  bool_decide (s ∈ closed c).

(** [__init__]. *)
Definition ContainerKernelClient_new : client := mkClient None [] ∅.

(** [_get_session]: a new session when there is none or the current one
    is closed. *)
Definition _get_session (c : client) : nat * client :=
  match session c with
  | Some s =>
      if is_closed c s
      then let s' := length (made c) in
           (s', mkClient (Some s') (made c ++ [s']) (closed c))
      else (s, c)
  | None =>
      let s' := length (made c) in
      (s', mkClient (Some s') (made c ++ [s']) (closed c))
  end.

(** [close]. *)
Definition close (c : client) : client :=
  match session c with
  | Some s =>
      if negb (is_closed c s)
      then mkClient (session c) (made c) ({[s]} ∪ closed c)
      else c
  | None => c
  end.

(** The methods of the client as far as the session goes:
    [execute_code], [shutdown_kernel] and [health_check] begin with
    [_get_session] and use the session it returns. *)
Inductive call : Type :=
  | Request
  | Close.

Definition perform (op : call) (c : client) : client :=
  match op with
  | Request => (_get_session c).2
  | Close => close c
  end.

Definition perform_all (ops : list call) (c : client) : client :=
  fold_left (fun c op => perform op c) ops c.

(** The invariant of the client: the sessions are numbered in the order
    of their making, and a session that is not closed is the current
    one. *)
Definition tidy (c : client) : Prop :=
  made c = seq 0 (length (made c)) /\
  (forall s, s ∈ closed c -> s < length (made c)) /\
  (forall s, session c = Some s -> s < length (made c)) /\
  (forall s, s < length (made c) -> s ∉ closed c -> session c = Some s).

End Http.

(** ** The table of result parsers ([SimpleAgent.get_tool_parsers])

    A dictionary is a list of its items in the order of insertion, the
    keys without repetition. The inner loop runs over the items of the
    dictionary that its body assigns to: the iterator raises
    [RuntimeError] at the step that finds the size of the dictionary
    changed, and an assignment to a key that is there keeps size and
    order. *)

Module Parsers.

Section Table.

Variable parser : Type.

Definition table : Type := list (string * parser).

(** [d[k] = v]. *)
Fixpoint setitem (d : table) (k : string) (v : parser) : table :=
  match d with
  | [] => [(k, v)]
  | (k', v') :: d' =>
      if String.eqb k' k then (k', v) :: d' else (k', v') :: setitem d' k v
  end.

Inductive result : Type :=
  | Returns (tool_parsers : table)
  | RuntimeError.

(** [for tool_name, parser in tool_parsers.items()], from the step at
    position [pos] on; [size] is the size of the dictionary when the
    loop began, [todo] the items still to come. *)
Fixpoint tools_loop (many : bool) (server_name : string) (size todo pos : nat)
    (tool_parsers : table) : result :=
  if negb (Nat.eqb (length tool_parsers) size) then RuntimeError
  else
    match todo with
    | O => Returns tool_parsers
    | S todo' =>
        match tool_parsers !! pos with
        | None => Returns tool_parsers
        | Some (tool_name, p) =>
            let key := if many then server_name +:+ "_" +:+ tool_name
                       else tool_name in
            tools_loop many server_name size todo' (S pos)
                       (setitem tool_parsers key p)
        end
    end.

(** [for server_name, tool_parsers in parsers_dict.items()]: the loop
    variable takes the place of the dictionary made before the loop. *)
Fixpoint servers_loop (many : bool) (tool_parsers : table)
    (items : list (string * table)) : result :=
  match items with
  | [] => Returns tool_parsers
  | (server_name, tool_parsers') :: rest =>
      match tools_loop many server_name (length tool_parsers')
                       (length tool_parsers') 0 tool_parsers' with
      | Returns tool_parsers'' => servers_loop many tool_parsers'' rest
      | RuntimeError => RuntimeError
      end
  end.

Definition get_tool_parsers (parsers_dict : list (string * table)) : result :=
  servers_loop (Nat.ltb 1 (length parsers_dict)) [] parsers_dict.

End Table.

Arguments Returns {parser} tool_parsers.
Arguments RuntimeError {parser}.

End Parsers.

(** * Properties *)

Module PyFacts.
Import Py.

Lemma app_cons (c : ascii) (s t : string) :
  String c s +:+ t = String c (s +:+ t).
Proof. reflexivity. Qed.

Lemma app_nil (t : string) : "" +:+ t = t.
Proof. reflexivity. Qed.

Lemma app_empty_r (s : string) : s +:+ "" = s.
Proof.
  induction s as [|c s IH]; [reflexivity|]. rewrite app_cons, IH. reflexivity.
Qed.

Lemma prefix_refl_app (s t : string) : String.prefix s (s +:+ t) = true.
Proof.
  induction s as [|c s IH].
  - rewrite app_nil. destruct t; reflexivity.
  - rewrite app_cons. simpl.
    destruct (Ascii.ascii_dec c c) as [_|N]; [exact IH | contradiction].
Qed.

Lemma prefix_app_l (sub pre post : string) :
  String.prefix sub pre = true -> String.prefix sub (pre +:+ post) = true.
Proof.
  revert sub. induction pre as [|c pre IH]; intros sub H.
  - destruct sub; [|discriminate]. rewrite app_nil. destruct post; reflexivity.
  - rewrite app_cons. destruct sub as [|a sub]; [reflexivity|]. simpl in *.
    destruct (Ascii.ascii_dec a c); [auto | discriminate].
Qed.

Lemma str_in_prefix (sub s : string) :
  String.prefix sub s = true -> str_in sub s = true.
Proof. destruct s; simpl; intros ->; reflexivity. Qed.

Lemma str_in_app_r (sub pre : string) : str_in sub (pre +:+ sub) = true.
Proof.
  induction pre as [|c pre IH].
  - rewrite app_nil. apply str_in_prefix. rewrite <- (app_empty_r sub) at 2.
    apply prefix_refl_app.
  - rewrite app_cons. simpl. rewrite IH. apply orb_true_r.
Qed.

Lemma str_in_app_l (sub pre post : string) :
  str_in sub pre = true -> str_in sub (pre +:+ post) = true.
Proof.
  induction pre as [|c pre IH]; intros H.
  - apply str_in_prefix, prefix_app_l. simpl in H.
    rewrite orb_false_r in H. exact H.
  - simpl in H. apply orb_true_iff in H. destruct H as [H|H].
    + apply str_in_prefix, prefix_app_l, H.
    + rewrite app_cons. simpl. rewrite (IH H). apply orb_true_r.
Qed.

Lemma all_str_map (l : list string) : all_str (map JStr l) = Ok l.
Proof.
  induction l as [|x l IH]; simpl; [reflexivity|]. rewrite IH. reflexivity.
Qed.

Lemma all_str_inv (l : list json) (lines : list string) :
  all_str l = Ok lines -> l = map JStr lines.
Proof.
  revert lines. induction l as [|x l IH]; intros lines; simpl.
  - intros [= <-]. reflexivity.
  - destruct x; try discriminate. destruct (all_str l) as [r|e]; simpl.
    + intros [= <-]. rewrite (IH r eq_refl). reflexivity.
    + discriminate.
Qed.

Lemma dict_get_find (P : string -> bool) (d : pydict) k v :
  find (fun kv => P kv.1) d = Some (k, v) -> dict_get d k = Some v.
Proof.
  induction d as [|[k' v'] d IH]; simpl; [discriminate|].
  destruct (P k') eqn:E.
  - intros [= -> ->]. rewrite String.eqb_refl. reflexivity.
  - intros H. destruct (String.eqb_spec k' k) as [->|_]; [|auto].
    apply find_some in H. simpl in H. destruct H as [_ H]. congruence.
Qed.

End PyFacts.

(** ** The message translator *)

Module TranslatorFacts.
Import Py PyFacts Translator.

Lemma list_in_keys (d : pydict) (k : string) :
  list_in k (keys d) = match dict_get d k with Some _ => true | None => false end.
Proof.
  induction d as [|[k' v] d IH]; simpl; [reflexivity|].
  rewrite (String.eqb_sym k k').
  destruct (String.eqb k' k); simpl; [reflexivity | exact IH].
Qed.

Lemma find_filter_keys (P : string -> bool) (d : pydict) :
  match find (fun kv => P kv.1) d with
  | Some (k, _) => exists tl, List.filter P (keys d) = k :: tl
  | None => existsb P (keys d) = false
  end.
Proof.
  induction d as [|[k v] d IH]; simpl; [reflexivity|].
  destruct (P k) eqn:E; simpl; [eauto|].
  destruct (find _ d) as [[k' v']|]; exact IH.
Qed.

Lemma existsb_find_keys (P : string -> bool) (d : pydict) :
  existsb P (keys d) =
  match find (fun kv => P kv.1) d with Some _ => true | None => false end.
Proof.
  induction d as [|[k v] d IH]; simpl; [reflexivity|].
  destruct (P k); simpl; [reflexivity | exact IH].
Qed.

(** The nested conditional on a dictionary of representations computes
    the priority choice. *)
Lemma select_refines (results : list KernelOutput) (data : pydict) :
  (mime_types ← dict_keys (JObj data);
   if existsb (str_in "image") mime_types then
     match List.filter (str_in "image") mime_types with
     | mt :: _ =>
         v ← getitem (JObj data) mt;
         o ← KernelOutput_new mt v false;
         Ok (results ++ [o])
     | [] => Raise IndexError
     end
   else if list_in "text/markdown" mime_types then
     v ← getitem (JObj data) "text/markdown";
     o ← KernelOutput_new "text/markdown" v false;
     Ok (results ++ [o])
   else if list_in "text/html" mime_types then
     v ← getitem (JObj data) "text/html";
     o ← KernelOutput_new "text/html" v false;
     Ok (results ++ [o])
   else if list_in "application/json" mime_types then
     v ← getitem (JObj data) "application/json";
     o ← KernelOutput_new "application/json" (JStr (json_dumps v)) false;
     Ok (results ++ [o])
   else
     v ← getitem (JObj data) "text/plain";
     o ← KernelOutput_new "text/plain" v false;
     Ok (results ++ [o]))
  = emit results (spec_choice data).
Proof.
  unfold spec_choice, dict_keys. cbn [mbind res_bind].
  rewrite existsb_find_keys.
  pose proof (find_filter_keys (str_in "image") data) as Hf.
  destruct (find _ data) as [[k v]|] eqn:Efind.
  - destruct Hf as [tl ->]. unfold getitem.
    rewrite (dict_get_find _ _ _ _ Efind). reflexivity.
  - rewrite !list_in_keys. unfold getitem.
    destruct (dict_get data "text/markdown"); [reflexivity|].
    destruct (dict_get data "text/html"); [reflexivity|].
    destruct (dict_get data "application/json"); [reflexivity|].
    destruct (dict_get data "text/plain"); reflexivity.
Qed.

Lemma display_shape (message : json) (data : pydict) :
  is_display message = true -> data_of message = Some data ->
  exists m c,
    message = JObj m /\
    eq_str (dict_get m "msg_type") "stream" = false /\
    (eq_str (dict_get m "msg_type") "display_data" ||
     eq_str (dict_get m "msg_type") "execute_result") = true /\
    dict_get m "content" = Some (JObj c) /\
    dict_get c "data" = Some (JObj data).
Proof.
  destruct message as [| | | | |l|m]; try discriminate. simpl.
  intros Hd Hdata.
  destruct (dict_get m "content") as [[| | | | | |c]|] eqn:Ec;
    try discriminate.
  destruct (dict_get c "data") as [[| | | | | |d]|] eqn:Ed; try discriminate.
  injection Hdata as ->. exists m, c.
  assert (eq_str (dict_get m "msg_type") "stream" = false) as Hs.
  { destruct (dict_get m "msg_type") as [[| | | |s| |]|]; try reflexivity.
    simpl in *. apply orb_true_iff in Hd.
    destruct Hd as [H|H]; apply String.eqb_eq in H; subst; reflexivity. }
  repeat split; assumption.
Qed.

Lemma process_display (results : list KernelOutput) (message : json)
    (data : pydict) :
  is_display message = true -> data_of message = Some data ->
  process_message results message = emit results (spec_choice data).
Proof.
  intros Hd Hdata.
  destruct (display_shape _ _ Hd Hdata) as (m & c & -> & Hs & Hde & Hc & Hdat).
  rewrite <- select_refines.
  unfold process_message. cbn [get mbind res_bind].
  rewrite Hs, Hde. cbn [getitem]. rewrite Hc. cbn [getitem mbind res_bind].
  rewrite Hdat. reflexivity.
Qed.

Lemma offers_listed_eq (data : pydict) :
  offers_listed data =
  match find (fun kv => str_in "image" kv.1) data with
  | Some _ => true
  | None => false
  end
  || list_in "text/markdown" (keys data) || list_in "text/html" (keys data)
  || list_in "application/json" (keys data) || list_in "text/plain" (keys data).
Proof.
  unfold offers_listed, list_in. rewrite <- existsb_find_keys.
  induction data as [|[k v] d IH]; [reflexivity|].
  unfold keys in *. cbn [map fst existsb]. rewrite IH. unfold listed.
  rewrite !(String.eqb_sym k).
  repeat match goal with
         | |- context [String.eqb ?a k] => generalize (String.eqb a k); intro
         end.
  repeat match goal with
         | |- context [existsb ?a ?b] => generalize (existsb a b); intro
         end.
  generalize (str_in "image" k). intro. btauto.
Qed.

Lemma spec_choice_none (data : pydict) :
  offers_listed data = false <-> spec_choice data = None.
Proof.
  rewrite offers_listed_eq. unfold spec_choice. rewrite !list_in_keys.
  destruct (find _ data) as [[k' v']|]; [simpl; split; discriminate|].
  destruct (dict_get data "text/markdown"); [simpl; split; discriminate|].
  destruct (dict_get data "text/html"); [simpl; split; discriminate|].
  destruct (dict_get data "application/json"); [simpl; split; discriminate|].
  destruct (dict_get data "text/plain"); [simpl; split; discriminate|].
  simpl. tauto.
Qed.

(** The loop only ever appends to [results]. *)
Lemma process_message_acc (results : list KernelOutput) (message : json) :
  process_message results message =
  (r ← process_message [] message; Ok (results ++ r)).
Proof.
  unfold process_message.
  repeat
    (lazymatch goal with
     | |- (?x ≫= _) = _ => destruct x; [|reflexivity]
     | |- (if ?b then _ else _) = _ => destruct b
     | |- match ?x with _ => _ end = _ => destruct x
     end; cbn [mbind res_bind app]);
    rewrite ?app_nil_r; reflexivity.
Qed.

Lemma process_loop_acc (results : list KernelOutput) (messages : list json) :
  process_loop results messages =
  (r ← process_loop [] messages; Ok (results ++ r)).
Proof.
  revert results. induction messages as [|m ms IH]; intros results; simpl.
  - rewrite app_nil_r. reflexivity.
  - rewrite (process_message_acc results m).
    destruct (process_message [] m) as [r|e]; cbn [mbind res_bind];
      [|reflexivity].
    rewrite (IH (results ++ r)), (IH r).
    destruct (process_loop [] ms) as [r'|e]; cbn [mbind res_bind];
      [|reflexivity].
    rewrite app_assoc. reflexivity.
Qed.

Lemma process_loop_app (results : list KernelOutput) (l1 l2 : list json) :
  process_loop results (l1 ++ l2) =
  (r ← process_loop results l1; process_loop r l2).
Proof.
  revert results. induction l1 as [|m l1 IH]; intros results; simpl;
    [reflexivity|].
  destruct (process_message results m) as [r|e]; cbn [mbind res_bind];
    [apply IH | reflexivity].
Qed.

(** C3. For a [display_data] or [execute_result] event the translator
    picks one representation by the priority of the design: the first mime
    type containing [image], else [text/markdown], else [text/html], else
    [application/json] (dumped to text), else [text/plain]; the event
    offering [text/plain] and [image/png] gives the single output
    [image/png] with the image's content. *)
Theorem display_selects_by_priority :
  (forall (results : list KernelOutput) (message : json) (data : pydict),
     is_display message = true -> data_of message = Some data ->
     process_message results message = emit results (spec_choice data)) /\
  _process_messages
    (JArr [JObj [("msg_type", JStr "display_data");
                 ("content",
                  JObj [("data", JObj [("text/plain", JStr "x");
                                       ("image/png", JStr "y")])])]])
  = Ok [mkOutput "image/png" "y" false].
Proof.
  split; [exact process_display | reflexivity].
Qed.

Lemma display_selects_by_priority_witness :
  let message :=
    JObj [("msg_type", JStr "execute_result");
          ("content",
           JObj [("data", JObj [("text/plain", JStr "<b>2</b>");
                                ("text/html", JStr "<b>2</b>");
                                ("text/markdown", JStr "**2**")])])] in
  is_display message = true /\
  process_message [] message = Ok [mkOutput "text/markdown" "**2**" false].
Proof.
  intros message. split; [reflexivity|].
  exact (proj1 display_selects_by_priority [] message _ eq_refl eq_refl).
Defined.

(** C4, as amended. A [display_data] or [execute_result] event whose data
    offers one of the listed mime types, the chosen representation being a
    string, gives exactly one output and no failure; data that offers none
    of the listed types makes the lookup of [text/plain] raise a
    [KeyError]. *)
Theorem display_one_output_when_listed
    (results : list KernelOutput) (message : json) (data : pydict) :
  is_display message = true -> data_of message = Some data ->
  (offers_listed data = true ->
   exists mt v, spec_choice data = Some (mt, v) /\
     forall s, v = JStr s ->
       process_message results message = Ok (results ++ [mkOutput mt s false]))
  /\
  (offers_listed data = false ->
   process_message results message = Raise (KeyError "text/plain")).
Proof.
  intros Hd Hdata. rewrite (process_display results message data Hd Hdata).
  split; intros Ho.
  - destruct (spec_choice data) as [[mt v]|] eqn:E.
    + exists mt, v. split; [reflexivity|]. intros s ->. reflexivity.
    + apply spec_choice_none in E. congruence.
  - apply spec_choice_none in Ho. rewrite Ho. reflexivity.
Qed.

Lemma display_one_output_when_listed_witness :
  let message :=
    JObj [("msg_type", JStr "display_data");
          ("content",
           JObj [("data", JObj [("application/json", JObj [("a", JInt 1)]);
                                ("text/plain", JStr "{'a': 1}")])])] in
  exists mt v,
    spec_choice [("application/json", JObj [("a", JInt 1)]);
                 ("text/plain", JStr "{'a': 1}")] = Some (mt, v) /\
    forall s, v = JStr s ->
      process_message [] message = Ok ([] ++ [mkOutput mt s false]).
Proof.
  intros message.
  exact (proj1 (display_one_output_when_listed [] message _ eq_refl eq_refl)
               eq_refl).
Defined.

Lemma display_unlisted_raises :
  let message :=
    JObj [("msg_type", JStr "display_data");
          ("content",
           JObj [("data", JObj [("application/pdf", JStr "JVBERi0=")])])] in
  is_display message = true /\
  data_of message = Some [("application/pdf", JStr "JVBERi0=")] /\
  _process_messages (JArr [message]) = Raise (KeyError "text/plain") /\
  ~ (exists o, process_message [] message = Ok [o]).
Proof.
  intros message. repeat split. intros [o H]. discriminate H.
Qed.

End TranslatorFacts.

(** ** The relay client *)

Module RelayFacts.
Import Py PyFacts Translator TranslatorFacts Relay.

(** A response with status 200 whose body parses: the three ways
    [execute_code] can go on. *)
Lemma execute_code_200 repr base_url post kernel_id code language text result :
  post (base_url +:+ "/execute") (payload_of kernel_id code language)
    = PostResponse 200 text (Ok result) ->
  execute_code repr base_url post kernel_id code language =
  except_ClientError
    (success ← getitem result "success";
     if negb (truthy success) then
       e ← get_default result "error" (JStr "Unknown error");
       Raise (Exception ("Execution failed: " +:+ py_str repr e))
     else
       messages ← getitem result "messages";
       _process_messages messages).
Proof.
  intros H. unfold execute_code. cbv zeta. rewrite H. reflexivity.
Qed.

Lemma error_shape (message : json) (lines : list string) :
  is_error_event message = true -> traceback_of message = Some lines ->
  exists m c,
    message = JObj m /\
    eq_str (dict_get m "msg_type") "stream" = false /\
    (eq_str (dict_get m "msg_type") "display_data" ||
     eq_str (dict_get m "msg_type") "execute_result") = false /\
    eq_str (dict_get m "msg_type") "error" = true /\
    dict_get m "content" = Some (JObj c) /\
    dict_get c "traceback" = Some (JArr (map JStr lines)).
Proof.
  destruct message as [| | | | |l|m]; try discriminate. simpl.
  intros He Htb.
  destruct (dict_get m "content") as [[| | | | | |c]|] eqn:Ec;
    try discriminate.
  destruct (dict_get c "traceback") as [[| | | | |l|]|] eqn:Et;
    try discriminate.
  destruct (all_str l) as [r|e] eqn:El; [|discriminate].
  injection Htb as ->. apply all_str_inv in El. subst l.
  exists m, c.
  destruct (dict_get m "msg_type") as [[| | | |s| |]|]; try discriminate.
  simpl in He. apply String.eqb_eq in He. subst s.
  repeat split; first [assumption | reflexivity].
Qed.

Lemma process_error (results : list KernelOutput) (message : json)
    (lines : list string) :
  is_error_event message = true -> traceback_of message = Some lines ->
  process_message results message =
  Ok (results ++ [mkOutput "text/plain" (str_join newline lines) true]).
Proof.
  intros He Htb.
  destruct (error_shape _ _ He Htb) as (m & c & -> & Hs & Hd & Hty & Hc & Ht).
  unfold process_message. cbn [get mbind res_bind].
  rewrite Hs, Hd, Hty. cbn [getitem]. rewrite Hc.
  cbn [getitem mbind res_bind]. rewrite Ht. cbn [mbind res_bind].
  unfold join. cbn [iter mbind res_bind]. rewrite all_str_map. reflexivity.
Qed.

Lemma except_ClientError_Ok {A : Type} (r : res A) (a : A) :
  except_ClientError r = Ok a <-> r = Ok a.
Proof.
  destruct r as [x|e]; simpl; [tauto|].
  destruct e; split; discriminate.
Qed.

Lemma getitem_get_default (result : json) (k : string) (v dflt : json) :
  getitem result k = Ok v -> get_default result k dflt = Ok v.
Proof.
  destruct result; try discriminate. unfold get_default. simpl.
  destruct (dict_get d k); [|discriminate]. intros [= ->]. reflexivity.
Qed.

(** C5. An [error] event gives exactly one output: [text/plain], the
    traceback lines joined by newlines in their order, [is_error] set.
    It is an output like any other: the translation of the whole message
    list goes on around it, and the relay call that carried it returns
    normally. *)
Theorem error_event_is_one_output (message : json) (lines : list string) :
  is_error_event message = true -> traceback_of message = Some lines ->
  let out := mkOutput "text/plain" (str_join newline lines) true in
  (forall results, process_message results message = Ok (results ++ [out])) /\
  (forall before after a b,
     process_loop [] before = Ok a -> process_loop [] after = Ok b ->
     _process_messages (JArr (before ++ message :: after)) =
       Ok (a ++ out :: b)) /\
  (forall repr base_url post kernel_id code language text result success
          before after a b,
     post (base_url +:+ "/execute") (payload_of kernel_id code language)
       = PostResponse 200 text (Ok result) ->
     getitem result "success" = Ok success -> truthy success = true ->
     getitem result "messages" = Ok (JArr (before ++ message :: after)) ->
     process_loop [] before = Ok a -> process_loop [] after = Ok b ->
     execute_code repr base_url post kernel_id code language =
       Ok (a ++ out :: b)).
Proof.
  intros He Htb out.
  assert (forall results, process_message results message = Ok (results ++ [out]))
    as Hone by (intros; apply process_error; assumption).
  assert (forall before after a b,
     process_loop [] before = Ok a -> process_loop [] after = Ok b ->
     _process_messages (JArr (before ++ message :: after)) =
       Ok (a ++ out :: b)) as Hseq.
  { intros before after a b Ha Hb. unfold _process_messages.
    cbn [iter mbind res_bind]. rewrite process_loop_app, Ha.
    cbn [mbind res_bind process_loop]. rewrite Hone. cbn [mbind res_bind].
    rewrite process_loop_acc, Hb. cbn [mbind res_bind].
    rewrite <- app_assoc. reflexivity. }
  split; [exact Hone|]. split; [exact Hseq|].
  intros repr base_url post kernel_id code language text result success
         before after a b Hpost Hsucc Htruthy Hmsgs Ha Hb.
  rewrite (execute_code_200 _ _ _ _ _ _ _ _ Hpost), Hsucc.
  cbn [mbind res_bind]. rewrite Htruthy. cbn [negb]. rewrite Hmsgs.
  cbn [mbind res_bind]. rewrite (Hseq _ _ _ _ Ha Hb). reflexivity.
Qed.

Lemma error_event_is_one_output_witness :
  let message :=
    JObj [("msg_type", JStr "error");
          ("content", JObj [("ename", JStr "ZeroDivisionError");
                            ("traceback", JArr [JStr "a"; JStr "b"])])] in
  is_error_event message = true /\
  traceback_of message = Some ["a"; "b"] /\
  process_message [] message =
    Ok [mkOutput "text/plain" ("a" +:+ newline +:+ "b") true].
Proof.
  intros message. split; [reflexivity|]. split; [reflexivity|].
  exact (proj1 (error_event_is_one_output message ["a"; "b"] eq_refl eq_refl)
               []).
Defined.

(** C6. When the container service answers [success = false], the call
    raises an exception whose message contains the reported error text
    as it is; a response with another status than 200 raises with the
    response text; and the call returns a value exactly when the response
    is a success, the value then being the translation of its messages. *)
Theorem execute_code_raises_or_translates
    (repr : json -> string) (base_url : string)
    (post : string -> json -> post_result)
    (kernel_id code language : string) :
  let call := execute_code repr base_url post kernel_id code language in
  let answer :=
    post (base_url +:+ "/execute") (payload_of kernel_id code language) in
  (forall text result success e,
     answer = PostResponse 200 text (Ok result) ->
     getitem result "success" = Ok success -> truthy success = false ->
     getitem result "error" = Ok (JStr e) ->
     call = Raise (Exception ("Execution failed: " +:+ e)) /\
     str_in e ("Execution failed: " +:+ e) = true) /\
  (forall status text body,
     answer = PostResponse status (Ok text) body -> status <> 200%Z ->
     call = Raise (Exception ("Container service error: " +:+ text)) /\
     str_in text ("Container service error: " +:+ text) = true) /\
  (forall outs,
     call = Ok outs <->
     exists text result success messages,
       answer = PostResponse 200 text (Ok result) /\
       getitem result "success" = Ok success /\ truthy success = true /\
       getitem result "messages" = Ok messages /\
       _process_messages messages = Ok outs).
Proof.
  intros call answer. subst call answer. split; [|split].
  - intros text result success e Hpost Hsucc Hfalsy Herr.
    split; [|apply str_in_app_r].
    rewrite (execute_code_200 _ _ _ _ _ _ _ _ Hpost), Hsucc.
    cbn [mbind res_bind]. rewrite Hfalsy. cbn [negb].
    rewrite (getitem_get_default _ _ _ _ Herr). reflexivity.
  - intros status text body Hpost Hne.
    split; [|apply str_in_app_r].
    unfold execute_code. cbv zeta. rewrite Hpost.
    destruct (Z.eqb_spec status 200) as [->|_]; [contradiction|].
    reflexivity.
  - intros outs. split.
    + intros H. unfold execute_code in H. cbv zeta in H.
      apply (proj1 (except_ClientError_Ok _ _)) in H.
      destruct (post _ _) as [e|status text body] eqn:Hpost; [discriminate|].
      destruct (Z.eqb_spec status 200) as [->|_]; cbn [negb] in H.
      2:{ destruct text; cbn [mbind res_bind] in H; discriminate. }
      destruct body as [result|e]; [|discriminate]. cbn [mbind res_bind] in H.
      destruct (getitem result "success") as [success|e] eqn:Hs;
        [|discriminate]. cbn [mbind res_bind] in H.
      destruct (truthy success) eqn:Ht; cbn [negb] in H.
      2:{ destruct (get_default result "error" (JStr "Unknown error"));
          cbn [mbind res_bind] in H; discriminate. }
      destruct (getitem result "messages") as [messages|e] eqn:Hm;
        [|discriminate]. cbn [mbind res_bind] in H.
      exists text, result, success, messages. auto.
    + intros (text & result & success & messages & Hpost & Hs & Ht & Hm & Hp).
      rewrite (execute_code_200 _ _ _ _ _ _ _ _ Hpost), Hs.
      cbn [mbind res_bind]. rewrite Ht. cbn [negb]. rewrite Hm.
      cbn [mbind res_bind]. rewrite Hp. reflexivity.
Qed.

Lemma execute_code_raises_or_translates_witness :
  let post := fun (_ : string) (_ : json) =>
    PostResponse 200 (Ok "")
      (Ok (JObj [("success", JBool false); ("messages", JArr []);
                 ("error", JStr "boom")])) in
  execute_code json_dumps "http://localhost:8060" post "s1" "1+1" "python"
    = Raise (Exception "Execution failed: boom") /\
  str_in "boom" "Execution failed: boom" = true.
Proof.
  intros post.
  exact (proj1 (execute_code_raises_or_translates json_dumps
                  "http://localhost:8060" post "s1" "1+1" "python")
               _ _ _ "boom" eq_refl eq_refl eq_refl eq_refl).
Defined.

Section HealthFacts.

Variable hz : positive.
Variable base_url : string.
Variable env : nat -> attempt.
Variable start_time : Z.
Variable first : Z.
Variable timeout : Z.

Local Abbreviation ps := (probe_start hz env first).
Local Abbreviation run := (poll hz base_url env start_time timeout).

Lemma probe_start_step (j k : nat) :
  j <= k -> (ps j + Z.of_nat (k - j) * Z.pos hz <= ps k)%Z.
Proof.
  induction 1 as [|k Hle IH].
  - rewrite Nat.sub_diag. lia.
  - replace (S k - j) with (S (k - j)) by lia. cbn [probe_start]. nia.
Qed.

Lemma probe_start_mono (j k : nat) : j <= k -> (ps j <= ps k)%Z.
Proof. intros H. pose proof (probe_start_step j k H). nia. Qed.

Lemma poll_unfold (fuel n : nat) :
  run (S fuel) n (ps n) (rounds base_url n) =
  if (ps n - start_time <? timeout * Z.pos hz)%Z then
    if is_200 (outcome (env n)) then
      Some (true, (ps n + Z.of_N (took (env n)))%Z,
            rounds base_url n ++ [Get (base_url +:+ "/health") 5])
    else run fuel (S n) (ps (S n)) (rounds base_url (S n))
  else Some (false, ps n, rounds base_url n).
Proof.
  cbn [poll probe_start rounds].
  rewrite <- (app_assoc (rounds base_url n)
                [Get (base_url +:+ "/health") 5] [Sleep 1]).
  reflexivity.
Qed.

(** Fuel that covers the seconds left is enough. *)
Lemma poll_total (fuel n : nat) :
  (timeout * Z.pos hz - (ps n - start_time) <= Z.of_nat fuel * Z.pos hz)%Z ->
  exists r, run (S fuel) n (ps n) (rounds base_url n) = Some r.
Proof.
  revert n. induction fuel as [|fuel IH]; intros n Hfuel;
    rewrite poll_unfold.
  - destruct (Z.ltb_spec (ps n - start_time) (timeout * Z.pos hz));
      [lia | eauto].
  - destruct (Z.ltb_spec (ps n - start_time) (timeout * Z.pos hz));
      [|eauto].
    destruct (is_200 (outcome (env n))); [eauto|].
    apply IH. cbn [probe_start]. nia.
Qed.

(** What a result says about the run that produced it: request [k] is the
    one that ended the loop, every earlier one was started within the
    bound and failed. *)
Lemma poll_inv (fuel n : nat) (b : bool) (t_end : Z) (log : list effect) :
  run fuel n (ps n) (rounds base_url n) = Some (b, t_end, log) ->
  exists k, n <= k /\
    (forall j, n <= j < k ->
       (ps j - start_time < timeout * Z.pos hz)%Z /\
       is_200 (outcome (env j)) = false) /\
    if b then
      (ps k - start_time < timeout * Z.pos hz)%Z /\
      is_200 (outcome (env k)) = true /\
      t_end = (ps k + Z.of_N (took (env k)))%Z /\
      log = rounds base_url k ++ [Get (base_url +:+ "/health") 5]
    else
      (timeout * Z.pos hz <= ps k - start_time)%Z /\
      t_end = ps k /\ log = rounds base_url k.
Proof.
  revert n. induction fuel as [|fuel IH]; intros n; [discriminate|].
  rewrite poll_unfold.
  destruct (Z.ltb_spec (ps n - start_time) (timeout * Z.pos hz)) as [Hlt|Hge].
  - destruct (is_200 (outcome (env n))) eqn:E200.
    + intros [= <- <- <-]. exists n. split; [lia|]. split; [intros; lia|].
      auto.
    + intros H. destruct (IH _ H) as (k & Hk & Hbefore & Hend).
      exists k. split; [lia|]. split; [|exact Hend].
      intros j Hj. destruct (Nat.eq_dec j n) as [->|Hne]; [auto|].
      apply Hbefore. lia.
  - intros [= <- <- <-]. exists n. split; [lia|]. split; [intros; lia|].
    auto.
Qed.

End HealthFacts.

Lemma health_check_fuel (hz : positive) (setup : N) (t : Z) :
  (t * Z.pos hz - Z.of_N setup <= Z.of_nat (Z.to_nat t) * Z.pos hz)%Z.
Proof.
  assert (Z.of_nat (Z.to_nat t) = Z.max 0 t) as -> by lia.
  nia.
Qed.

(** C7. Health polling always returns a boolean. It returns [False] only
    when the clock reads the timeout or more past [start_time], after
    rounds of one request and one [sleep(1)] each, at most one round per
    second of the timeout; against a probe that never succeeds it does
    return [False]; a request that is started within the bound and
    answers 200 makes it return [True]; the timeout defaults to 60. *)
Theorem health_check_bounded
    (hz : positive) (base_url : string) (env : nat -> attempt)
    (start_time : Z) (setup : N) (timeout : option Z) :
  let t := default 60%Z timeout in
  let first := (start_time + Z.of_N setup)%Z in
  let call := health_check hz base_url env start_time setup timeout in
  (exists r, call = Some r) /\
  (forall t_end log,
     call = Some (false, t_end, log) ->
     (t * Z.pos hz <= t_end - start_time)%Z /\
     exists k, k <= Z.to_nat t /\ log = rounds base_url k /\
               t_end = probe_start hz env first k) /\
  ((forall i, is_200 (outcome (env i)) = false) ->
   exists t_end log,
     call = Some (false, t_end, log) /\
     (t * Z.pos hz <= t_end - start_time)%Z) /\
  (forall k,
     is_200 (outcome (env k)) = true ->
     (forall j, j < k -> is_200 (outcome (env j)) = false) ->
     (probe_start hz env first k - start_time < t * Z.pos hz)%Z ->
     call = Some (true,
                  (probe_start hz env first k + Z.of_N (took (env k)))%Z,
                  rounds base_url k ++ [Get (base_url +:+ "/health") 5])) /\
  health_check hz base_url env start_time setup None =
  health_check hz base_url env start_time setup (Some 60%Z).
Proof.
  intros t first call.
  assert (exists r, call = Some r) as Htotal.
  { apply (poll_total hz base_url env start_time first t (Z.to_nat t) 0).
    cbn [probe_start]. subst first.
    pose proof (health_check_fuel hz setup t). lia. }
  assert (forall b t_end log, call = Some (b, t_end, log) ->
          exists k,
            (forall j, j < k ->
               (probe_start hz env first j - start_time < t * Z.pos hz)%Z /\
               is_200 (outcome (env j)) = false) /\
            if b then
              (probe_start hz env first k - start_time < t * Z.pos hz)%Z /\
              is_200 (outcome (env k)) = true /\
              t_end = (probe_start hz env first k + Z.of_N (took (env k)))%Z /\
              log = rounds base_url k ++ [Get (base_url +:+ "/health") 5]
            else
              (t * Z.pos hz <= probe_start hz env first k - start_time)%Z /\
              t_end = probe_start hz env first k /\ log = rounds base_url k)
    as Hinv.
  { intros b t_end log H.
    destruct (poll_inv hz base_url env start_time first t _ 0 b t_end log H)
      as (k & _ & Hbefore & Hend).
    exists k. split; [|exact Hend]. intros j Hj. apply Hbefore. lia. }
  split; [exact Htotal|]. split; [|split; [|split; [|reflexivity]]].
  - intros t_end log H.
    destruct (Hinv _ _ _ H) as (k & Hbefore & Hge & -> & ->).
    split; [exact Hge|]. exists k. split; [|auto].
    destruct k as [|k]; [lia|].
    destruct (Hbefore k (Nat.lt_succ_diag_r k)) as [Hlt _].
    pose proof (probe_start_step hz env first 0 k (Nat.le_0_l k)) as Hstep.
    cbn [probe_start] in Hstep. rewrite Nat.sub_0_r in Hstep.
    subst first. nia.
  - intros Hnever. destruct Htotal as [[[b t_end] log] H].
    destruct (Hinv _ _ _ H) as (k & Hbefore & Hend). destruct b.
    + destruct Hend as (_ & H200 & _). rewrite Hnever in H200. discriminate.
    + exists t_end, log. split; [exact H|].
      destruct Hend as (Hge & -> & _). exact Hge.
  - intros k H200 Hfail Hlt. destruct Htotal as [[[b t_end] log] H].
    rewrite H. destruct (Hinv _ _ _ H) as (k' & Hbefore & Hend).
    assert (k' = k) as Hk.
    { destruct (Nat.lt_trichotomy k' k) as [Hc|[Hc|Hc]]; [|exact Hc|].
      - destruct b.
        + destruct Hend as (_ & H200' & _).
          rewrite (Hfail k' Hc) in H200'. discriminate.
        + destruct Hend as (Hge & _).
          pose proof (probe_start_mono hz env first k' k) as Hm. lia.
      - destruct (Hbefore k Hc) as [_ Hf]. rewrite H200 in Hf. discriminate. }
    subst k'. destruct b.
    + destruct Hend as (_ & _ & -> & ->). reflexivity.
    + destruct Hend as (Hge & _). lia.
Qed.

Lemma health_check_bounded_witness :
  let env := fun _ : nat => mkAttempt ProbeTimeout 5000 2 in
  (forall i, is_200 (outcome (env i)) = false) /\
  exists t_end log,
    health_check 1000 "http://localhost:8060" env 0 0 (Some 2%Z)
      = Some (false, t_end, log) /\
    (2 * 1000 <= t_end - 0)%Z.
Proof.
  intros env. split; [intros i; reflexivity|].
  exact (proj1 (proj2 (proj2
           (health_check_bounded 1000 "http://localhost:8060" env 0 0
                                 (Some 2%Z))))
         (fun i => eq_refl)).
Defined.

End RelayFacts.

(** ** The container service *)

Module ServiceFacts.
Import Py PyFacts Service.

Lemma shutdown_run (kernel : JupyterKernel) (w : world) :
  shutdown kernel w =
  Done tt (mkWorld (kernel_manager w) (fresh w) (boots w) (iopub w)
                   (log w ++ shutdown_effects kernel)).
Proof.
  unfold shutdown, shutdown_effects, bind, emit, ret.
  destruct (kc kernel); cbn.
  - rewrite <- app_assoc. reflexivity.
  - reflexivity.
Qed.

(** C8. Shutting down an identifier that has no session changes nothing:
    the call returns, the session map, the lock map and the rest of the
    world are as before. For an identifier with a session the session is
    shut down, and it and its lock are removed from the two maps; a second
    shutdown is then the no-op of the first case. *)
Theorem shutdown_kernel_frame (kernel_id : string) (w : world) :
  (kernels (kernel_manager w) !! kernel_id = None ->
   shutdown_kernel kernel_id w = Done tt w) /\
  (forall kernel,
     kernels (kernel_manager w) !! kernel_id = Some kernel ->
     exists w',
       shutdown_kernel kernel_id w = Done tt w' /\
       kernels (kernel_manager w') =
         delete kernel_id (kernels (kernel_manager w)) /\
       _kernel_locks (kernel_manager w') =
         delete kernel_id (_kernel_locks (kernel_manager w)) /\
       log w' = log w ++ shutdown_effects kernel /\
       shutdown_kernel kernel_id w' = Done tt w').
Proof.
  split.
  - intros H. unfold shutdown_kernel. rewrite H. reflexivity.
  - intros kernel H. unfold shutdown_kernel at 1. rewrite H.
    unfold bind. rewrite shutdown_run. cbn.
    eexists. split; [reflexivity|]. cbn.
    split; [reflexivity|]. split; [|split; [reflexivity|]].
    + destruct (_kernel_locks (kernel_manager w) !! kernel_id) eqn:E;
        [reflexivity|]. symmetry. apply delete_id. exact E.
    + unfold shutdown_kernel. cbn. rewrite lookup_delete_eq. reflexivity.
Qed.

Lemma shutdown_kernel_frame_witness :
  let w := mkWorld (mkManager {[ "s1" := mkKernel 1 (Some 1) false ]}
                              {[ "s1" := 0 ]})
                   2 (fun _ => true) (fun _ => []) [] in
  kernels (kernel_manager w) !! "s2" = None /\
  shutdown_kernel "s2" w = Done tt w.
Proof.
  intros w. split; [reflexivity|].
  exact (proj1 (shutdown_kernel_frame "s2" w) eq_refl).
Defined.

(** C9. A request whose language is neither [python] nor [bash] is
    answered with status 200: the [HTTPException] with status 400 is
    caught by the handler of the route function itself, which returns
    [success = False], no messages and the formatted traceback of that
    exception, a string that is not empty; no kernel is touched. *)
Theorem unsupported_language_is_answered_200
    (traceback_body : exn -> string) (request : ExecuteRequest) (w : world) :
  language request <> "python" -> language request <> "bash" ->
  let e := HTTPException 400 ("Unsupported language: " +:+ language request) in
  let text := format_exc traceback_body e in
  execute_code traceback_body request w =
    Done (mkResponse false [] (Some text)) w /\
  post_execute traceback_body request w =
    Reply 200 (Model (mkResponse false [] (Some text))) /\
  text <> "" /\
  str_in "Traceback (most recent call last):" text = true.
Proof.
  intros Hpy Hsh e text.
  assert (execute_code traceback_body request w =
          Done (mkResponse false [] (Some text)) w) as Hrun.
  { unfold execute_code.
    destruct (String.eqb_spec (language request) "python"); [contradiction|].
    destruct (String.eqb_spec (language request) "bash"); [contradiction|].
    reflexivity. }
  split; [exact Hrun|]. split.
  - unfold post_execute. rewrite Hrun. reflexivity.
  - split.
    + subst text. unfold format_exc. discriminate.
    + subst text. unfold format_exc. apply str_in_prefix, prefix_refl_app.
Qed.

Lemma unsupported_language_is_answered_200_witness :
  let w := mkWorld (mkManager ∅ ∅) 0 (fun _ => true) (fun _ => []) [] in
  let request := mkRequest "s1" "puts 1" "ruby" in
  language request <> "python" /\ language request <> "bash" /\
  post_execute (fun _ => "") request w =
    Reply 200
      (Model (mkResponse false []
                (Some (format_exc (fun _ => "")
                         (HTTPException 400 "Unsupported language: ruby"))))).
Proof.
  intros w request.
  assert (language request <> "python") as H1 by discriminate.
  assert (language request <> "bash") as H2 by discriminate.
  split; [exact H1|]. split; [exact H2|].
  exact (proj1 (proj2 (unsupported_language_is_answered_200
                         (fun _ => "") request w H1 H2))).
Defined.

Lemma lstrip_spec (s : string) :
  exists pre, s = pre +:+ lstrip s /\ all_space pre = true /\
              starts_space (lstrip s) = false.
Proof.
  induction s as [|c s (pre & Hs & Hpre & Hst)].
  - exists "". auto.
  - simpl. destruct (is_space c) eqn:E.
    + exists (String c pre). rewrite app_cons, <- Hs. simpl.
      rewrite E, Hpre. auto.
    + exists "". simpl. auto.
Qed.

Lemma rstrip_spec (s : string) :
  exists post, s = rstrip s +:+ post /\ all_space post = true /\
               ends_space (rstrip s) = false /\
               (starts_space s = false -> starts_space (rstrip s) = false).
Proof.
  induction s as [|c s (post & Hs & Hpost & Hend & _)].
  - exists "". auto.
  - simpl. destruct (rstrip s) as [|d t] eqn:E.
    + rewrite app_nil in Hs. subst post. destruct (is_space c) eqn:Ec.
      * exists (String c s). rewrite app_nil. simpl. rewrite Ec, Hpost. auto.
      * exists s. simpl. rewrite Ec. auto.
    + exists post. rewrite app_cons, <- Hs. auto.
Qed.

Lemma strip_spec (s : string) :
  exists pre post,
    s = pre +:+ strip s +:+ post /\
    all_space pre = true /\ all_space post = true /\
    starts_space (strip s) = false /\ ends_space (strip s) = false.
Proof.
  destruct (lstrip_spec s) as (pre & Hs & Hpre & Hst).
  destruct (rstrip_spec (lstrip s)) as (post & Hl & Hpost & Hend & Hkeep).
  exists pre, post. unfold strip. repeat split.
  - rewrite <- Hl. exact Hs.
  - exact Hpre.
  - exact Hpost.
  - exact (Hkeep Hst).
  - exact Hend.
Qed.

(** C10. A [bash] request runs on the kernel as python code would, after
    a rewrite of its code: white space is stripped at both ends, then the
    code gets the prefix [%%bash] and a newline when it still contains a
    newline, the prefix [!] otherwise. The messages are collected and
    returned with [success = True] as for python. *)
Theorem execute_shell_code_is_python_on_magic
    (traceback_body : exn -> string) (request : ExecuteRequest) (w : world) :
  let code' := strip (code request) in
  let magic :=
    mkRequest (kernel_id request) (jupyter_code (code request)) "python" in
  execute_shell_code request w = execute_python_code magic w /\
  (language request = "bash" ->
   execute_code traceback_body request w =
   execute_code traceback_body magic w) /\
  jupyter_code (code request) =
    (if str_in newline code'
     then "%%bash" +:+ newline +:+ code' else "!" +:+ code') /\
  (exists pre post,
     code request = pre +:+ code' +:+ post /\
     all_space pre = true /\ all_space post = true /\
     starts_space code' = false /\ ends_space code' = false) /\
  (forall response w',
     execute_shell_code request w = Done response w' ->
     success response = true /\ error response = None).
Proof.
  intros code' magic.
  assert (execute_shell_code request w = execute_python_code magic w) as Heq
    by reflexivity.
  split; [exact Heq|]. split; [|split; [reflexivity|split]].
  - intros Hl. unfold execute_code. rewrite Hl. cbn. rewrite Heq.
    reflexivity.
  - apply strip_spec.
  - intros response w'. unfold execute_shell_code, bind, ret.
    destruct (get_kernel (kernel_id request) w) as [k w1|e w1|w1];
      [|discriminate..].
    destruct (execute_raw k _ w1) as [ms w2|e w2|w2]; [|discriminate..].
    intros [= <- _]. auto.
Qed.

Lemma execute_shell_code_is_python_on_magic_witness :
  let status := fun st : string =>
    JObj [("msg_type", JStr "status");
          ("content", JObj [("execution_state", JStr st)])] in
  let out := JObj [("msg_type", JStr "stream");
                   ("content", JObj [("text", JStr "total 0")])] in
  let w := mkWorld (mkManager ∅ ∅) 0 (fun _ => true)
                   (fun _ => [status "idle"; out; status "idle"]) [] in
  let request := mkRequest "s1" " ls -l " "bash" in
  let answer := fun r : outcome ExecuteResponse =>
    match r with
    | Done response _ => Some response
    | _ => None
    end in
  let sent := fun r : outcome ExecuteResponse =>
    match r with
    | Done _ w' => List.last (log w') (NewKernel 0)
    | _ => NewKernel 0
    end in
  language request = "bash" /\
  execute_code (fun _ => "") request w =
  execute_code (fun _ => "") (mkRequest "s1" "!ls -l" "python") w /\
  answer (execute_code (fun _ => "") request w) =
    Some (mkResponse true [out; status "idle"] None) /\
  sent (execute_code (fun _ => "") request w) = Execute 1 "!ls -l" /\
  sent (execute_code (fun _ => "") (mkRequest "s1" " ls -l " "python") w) =
    Execute 1 " ls -l " /\
  jupyter_code ("cd /tmp" +:+ newline +:+ "ls" +:+ newline) =
    "%%bash" +:+ newline +:+ "cd /tmp" +:+ newline +:+ "ls".
Proof.
  intros status out w request answer sent. split; [reflexivity|].
  split.
  - exact (proj1 (proj2 (execute_shell_code_is_python_on_magic
                           (fun _ => "") request w)) eq_refl).
  - split; [reflexivity|]. split; [reflexivity|].
    split; reflexivity.
Defined.

End ServiceFacts.

(** ** Tasks and locks *)

Module LoopFacts.
Import Loop.

Lemma owns_update {A : Type} (P : A -> bool) (ts : list A) (i : nat) (p p' : A)
    (owner : option nat) :
  ts !! i = Some p -> owns P ts owner ->
  (P p' = true -> P p = false -> owner = None) ->
  owns P (<[i := p']> ts) (next_owner P i p p' owner).
Proof.
  intros Hi Hown Hfree j. unfold next_owner.
  assert (i < length ts) as Hlen by (eapply lookup_lt_Some; eauto).
  destruct (decide (j = i)) as [->|Hne].
  - rewrite list_lookup_insert_eq by exact Hlen.
    destruct (P p') eqn:Ep'.
    + split; [reflexivity|]. intros _. eauto.
    + split.
      * intros (q & [= <-] & Hq). congruence.
      * intros Ho. exfalso. destruct (P p) eqn:Ep; [discriminate|].
        apply Hown in Ho. destruct Ho as (q & Hq & HP). congruence.
  - rewrite list_lookup_insert_ne by congruence.
    rewrite (Hown j). destruct (P p') eqn:Ep'.
    + split; [|congruence]. intros Ho. exfalso.
      destruct (P p) eqn:Ep.
      * assert (owner = Some i) as Hoi by (apply Hown; eauto). congruence.
      * rewrite (Hfree eq_refl eq_refl) in Ho. discriminate.
    + destruct (P p) eqn:Ep; [|reflexivity].
      assert (owner = Some i) as Hoi by (apply Hown; eauto).
      rewrite Hoi. split; congruence.
Qed.

Lemma owns_other {A : Type} (P : A -> bool) (ts : list A) (i j : nat) (p q : A)
    (owner : option nat) :
  owns P ts owner -> ts !! i = Some p -> P p = true ->
  ts !! j = Some q -> j <> i -> P q = false.
Proof.
  intros Hown Hi Hp Hj Hne. destruct (P q) eqn:Eq; [|reflexivity].
  assert (owner = Some i) as H1 by (apply Hown; eauto).
  assert (owner = Some j) as H2 by (apply Hown; eauto).
  congruence.
Qed.

End LoopFacts.

(** ** Concurrent callers of [get_kernel] *)

Module PoolFacts.
Import Py Service Loop LoopFacts Pool.

Lemma list_sum_insert (f : pc -> nat) (ts : list pc) (i : nat) (p p' : pc) :
  ts !! i = Some p ->
  list_sum (map f (<[i := p']> ts)) + f p = list_sum (map f ts) + f p'.
Proof.
  revert i. induction ts as [|q ts IH]; intros [|i]; simpl; try discriminate.
  - intros [= ->]. lia.
  - intros H. specialize (IH i H). lia.
Qed.

Lemma task_ok_phase kernel_id w0 (ph ph' : phase) (p : pc) :
  task_ok kernel_id w0 ph p -> crit p = false ->
  (ph = Stored -> ph' = Stored) -> task_ok kernel_id w0 ph' p.
Proof.
  destruct p; simpl; try tauto; discriminate.
Qed.

Lemma new_run (w : world) :
  JupyterKernel_new w =
  Done (mkKernel (fresh w) None false)
       (mkWorld (kernel_manager w) (S (fresh w)) (boots w) (iopub w)
                (log w ++ [NewKernel (fresh w)])).
Proof. reflexivity. Qed.

Lemma start_run (h : nat) (cwd : string) (w : world) :
  boots w h = true ->
  start (mkKernel h None false) cwd w =
  Done (mkKernel h (Some h) false)
       (mkWorld (kernel_manager w) (fresh w) (boots w) (iopub w)
                (log w ++ [StartKernel h cwd; StartChannels h; WaitForReady h])).
Proof.
  intros H. unfold start. cbn [km]. rewrite H.
  unfold bind, emit, ret. cbn. rewrite <- !app_assoc. reflexivity.
Qed.

Lemma import_code_run : import_code "" KERNEL_LIBRARIES = Ok the_import.
Proof. reflexivity. Qed.

Lemma import_run (h : nat) (w : world) :
  (read_replies (iopub w h) []).2 = Idle ->
  exists rest,
  import_libraries (mkKernel h (Some h) false) KERNEL_LIBRARIES w =
  Done tt (mkWorld (kernel_manager w) (fresh w) (boots w)
                   (<[h := rest]> (iopub w))
                   (log w ++ [Execute h the_import])).
Proof.
  intros H. unfold import_libraries. rewrite import_code_run.
  unfold bind, lift, ret, execute_raw. cbn [_execution_lock kc].
  destruct (read_replies (iopub w h) []) as [[yielded rest] ending].
  simpl in H. subst ending. exists rest. reflexivity.
Qed.

Lemma tasks_update_ok kernel_id w0 (ph' : phase) (ts : list pc) (i : nat)
    (p' : pc) :
  task_ok kernel_id w0 ph' p' ->
  (forall j q, j <> i -> ts !! j = Some q -> task_ok kernel_id w0 ph' q) ->
  forall j q, <[i := p']> ts !! j = Some q -> task_ok kernel_id w0 ph' q.
Proof.
  intros Hp' Hothers j q H. apply list_lookup_insert_Some in H.
  destruct H as [(-> & <- & _)|(Hne & H)]; [exact Hp'|].
  apply (Hothers j q); [congruence | exact H].
Qed.

Lemma locks_ok_update kernel_id w0 (w : world) lk hd lk' hd' (ts : list pc) (i : nat) (p' : pc) :
  locks_ok kernel_id w0 (mkState w lk hd ts) ->
  (_kernel_locks (kernel_manager w) !! kernel_id = None ->
   p' = AtPoolLock \/ p' = InPoolLock) ->
  locks_ok kernel_id w0 (mkState w lk' hd' (<[i := p']> ts)).
Proof.
  unfold locks_ok. cbn [wld tasks].
  destruct (_kernel_locks (kernel_manager w) !! kernel_id); [auto|].
  intros (H0 & Hf & Hall) Hp'. split; [exact H0|]. split; [exact Hf|].
  intros j q H. apply list_lookup_insert_Some in H.
  destruct H as [(-> & <- & _)|(Hne & H)]; eauto.
Qed.

Lemma locks_ok_made kernel_id w0 (w w' : world) lk hd lk' hd' (ts ts' : list pc)
    (i : nat) (p : pc) :
  locks_ok kernel_id w0 (mkState w lk hd ts) ->
  ts !! i = Some p -> p <> AtPoolLock -> p <> InPoolLock ->
  _kernel_locks (kernel_manager w') = _kernel_locks (kernel_manager w) ->
  locks_ok kernel_id w0 (mkState w' lk' hd' ts') /\
  is_Some (_kernel_locks (kernel_manager w) !! kernel_id).
Proof.
  unfold locks_ok. cbn [wld tasks]. intros H Hi H1 H2 ->.
  destruct (_kernel_locks (kernel_manager w) !! kernel_id); [eauto|].
  destruct H as (_ & _ & Hall). destruct (Hall i p Hi); contradiction.
Qed.

Lemma phase_ok_keep kernel_id w0 ph w lk hd ts w' lk' hd' i p p' :
  phase_ok kernel_id w0 ph (mkState w lk hd ts) ->
  ts !! i = Some p -> phase_task ph p = false ->
  kernels (kernel_manager w') = kernels (kernel_manager w) ->
  log w' = log w -> iopub w' = iopub w ->
  (is_Some (_kernel_locks (kernel_manager w') !! kernel_id) ->
   fresh w' = the_handle w0 kernel_id \/ ph <> Fresh) ->
  phase_ok kernel_id w0 ph (mkState w' lk' hd' (<[i := p']> ts)).
Proof.
  intros H Hi Hp Hk Hlog Hio Hfr.
  assert (forall ph', ph' = ph ->
          (exists j q, ts !! j = Some q /\ phase_task ph' q = true) ->
          exists j q, <[i := p']> ts !! j = Some q /\ phase_task ph' q = true)
    as Hwit.
  { intros ph' -> (j & q & Hj & Hq). exists j, q. split; [|exact Hq].
    rewrite list_lookup_insert_ne; [exact Hj|]. intros ->. congruence. }
  destruct ph; unfold phase_ok in *; cbn [wld tasks] in *;
    rewrite ?Hk, ?Hlog, ?Hio.
  - destruct H as (H1 & H2 & H3 & H4). repeat split; auto.
    intros Hs. destruct (Hfr Hs); [assumption | contradiction].
  - destruct H as (H1 & H2 & H3 & H4). repeat split; auto.
  - destruct H as (H1 & H2 & H3 & H4). repeat split; auto.
  - exact H.
Qed.

Lemma phase_task_crit (ph : phase) (p : pc) :
  phase_task ph p = true -> crit p = true.
Proof. destruct ph, p; simpl; congruence. Qed.

Lemma witness_is_owner (ph : phase) (ts : list pc) (i : nat) (p : pc)
    (o : option nat) :
  owns crit ts o -> ts !! i = Some p -> crit p = true ->
  (exists j q, ts !! j = Some q /\ phase_task ph q = true) ->
  phase_task ph p = true.
Proof.
  intros Ho Hi Hp (j & q & Hj & Hq).
  assert (o = Some i) as H1 by (apply Ho; eauto).
  assert (o = Some j) as H2 by (apply Ho; eauto using phase_task_crit).
  assert (j = i) as -> by congruence. congruence.
Qed.

Lemma step_inv kernel_id w0 s po o ph i s' :
  responsive w0 -> inv kernel_id w0 s po o ph ->
  step kernel_id i s = Some s' ->
  exists po' o' ph', inv kernel_id w0 s' po' o' ph'.
Proof.
  intros Hresp [Ht Hpl Hpo Hh Ho Hb Hl Hph] Hstep.
  unfold step in Hstep.
  destruct (tasks s !! i) as [p|] eqn:Hi; [|discriminate].
  cbn [mbind option_bind] in Hstep.
  destruct (step_task kernel_id p s) as [[p' s1]|] eqn:Hst; [|discriminate].
  cbn [mbind option_bind] in Hstep. injection Hstep as <-.
  pose proof (Ht i p Hi) as Hp.
  destruct s as [w lk hd ts]. cbn [wld _lock held tasks] in *.
  exists (next_owner in_pool i p p' po), (next_owner crit i p p' o).
  destruct p; cbn [step_task wld _lock held tasks] in Hst.
  - (* AtPoolLock *)
    destruct lk; [discriminate|]. injection Hst as <- <-.
    cbn [wld _lock held tasks].
    assert (po = None) as ->.
    { destruct po; [|reflexivity]. rewrite bool_decide_true in Hpl by eauto.
      discriminate. }
    exists ph. split; cbn [wld _lock held tasks].
    + apply tasks_update_ok; [exact I|]. intros j q _ Hj. eauto.
    + reflexivity.
    + apply owns_update; auto; discriminate.
    + exact Hh.
    + apply owns_update; auto. discriminate.
    + exact Hb.
    + eapply locks_ok_update; [exact Hl|]. auto.
    + eapply phase_ok_keep; eauto.
      * destruct ph; reflexivity.
      * intros Hs. destruct ph; auto; try (right; discriminate).
        left. apply Hph. exact Hs.
  - (* InPoolLock *)
    destruct (_kernel_locks (kernel_manager w) !! kernel_id) as [l|] eqn:El;
      injection Hst as <- <-; cbn [wld _lock held tasks].
    + exists ph. unfold locks_ok in Hl. cbn [wld] in Hl. rewrite El in Hl.
      split; cbn [wld _lock held tasks].
      * apply tasks_update_ok; [exact Hl|]. intros j q _ Hj. eauto.
      * reflexivity.
      * apply owns_update; auto. discriminate.
      * exact Hh.
      * apply owns_update; auto. discriminate.
      * exact Hb.
      * unfold locks_ok. cbn [wld]. rewrite El. exact Hl.
      * eapply phase_ok_keep; eauto.
        -- destruct ph; reflexivity.
        -- intros Hs. destruct ph; auto; try (right; discriminate).
           left. apply Hph. exact Hs.
    + exists ph. unfold locks_ok in Hl. cbn [wld tasks] in Hl.
      rewrite El in Hl. destruct Hl as (Hl0 & Hfr & Hall).
      assert (fresh w = the_lock w0 kernel_id) as HL.
      { unfold the_lock. rewrite Hl0. exact Hfr. }
      split; cbn [wld _lock held tasks kernel_manager _kernel_locks kernels
                  boots].
      * apply tasks_update_ok; [exact HL|]. intros j q _ Hj. eauto.
      * reflexivity.
      * apply owns_update; auto. discriminate.
      * exact Hh.
      * apply owns_update; auto. discriminate.
      * exact Hb.
      * unfold locks_ok. cbn [wld kernel_manager _kernel_locks].
        rewrite lookup_insert_eq. exact HL.
      * eapply phase_ok_keep; eauto.
        -- destruct ph; reflexivity.
        -- intros _. left. cbn [fresh]. unfold the_handle. rewrite Hl0.
           rewrite Hfr. reflexivity.
  - (* AtIdLock *)
    destruct (decide (lock ∈ hd)) as [|Hfree]; [discriminate|].
    injection Hst as <- <-. cbn [wld _lock held tasks]. cbn [task_ok] in Hp.
    subst lock.
    assert (o = None) as ->.
    { destruct o; [|reflexivity]. exfalso. apply Hfree. rewrite Hh.
      apply elem_of_singleton_2. reflexivity. }
    subst hd. exists ph. split; cbn [wld _lock held tasks].
    + apply tasks_update_ok; [reflexivity|]. intros j q _ Hj. eauto.
    + exact Hpl.
    + apply owns_update; auto. discriminate.
    + apply union_empty_r_L.
    + apply owns_update; auto.
    + exact Hb.
    + eapply locks_ok_made; eauto; discriminate.
    + eapply phase_ok_keep; eauto.
      * destruct ph; reflexivity.
      * intros Hs. destruct ph; auto; try (right; discriminate).
        left. apply Hph. exact Hs.
  - (* InIdLock *)
    cbn [task_ok] in Hp. subst lock.
    assert (o = Some i) as -> by (apply Ho; eauto).
    subst hd.
    destruct (locks_ok_made kernel_id w0 w w lk {[the_lock w0 kernel_id]}
                lk {[the_lock w0 kernel_id]} ts ts i _ Hl Hi)
      as [_ Hsome]; [discriminate..|reflexivity|].
    destruct (kernels (kernel_manager w) !! kernel_id) as [k|] eqn:Ek.
    + injection Hst as <- <-. cbn [wld _lock held tasks].
      assert (ph = Stored /\ k = the_kernel w0 kernel_id) as [-> ->].
      { destruct ph; unfold phase_ok in Hph; cbn [wld] in Hph;
          rewrite Ek in Hph; destruct Hph as [Hm _]; try discriminate.
        injection Hm as ->. auto. }
      exists Stored. split; cbn [wld _lock held tasks].
      * apply tasks_update_ok; [split; reflexivity|]. intros j q _ Hj. eauto.
      * exact Hpl.
      * apply owns_update; auto. discriminate.
      * apply difference_diag_L.
      * apply owns_update; auto. discriminate.
      * exact Hb.
      * eapply locks_ok_made; eauto; discriminate.
      * exact Hph.
    + rewrite new_run in Hst. injection Hst as <- <-.
      cbn [wld _lock held tasks].
      assert (ph = Fresh) as ->.
      { destruct ph; [reflexivity| | |].
        - destruct Hph as (_ & _ & _ & Hw).
          pose proof (witness_is_owner _ _ _ _ _ Ho Hi eq_refl Hw). discriminate.
        - destruct Hph as (_ & _ & _ & Hw).
          pose proof (witness_is_owner _ _ _ _ _ Ho Hi eq_refl Hw). discriminate.
        - destruct Hph as [Hm _]. cbn [wld] in Hm. congruence. }
      destruct Hph as (Hm & Hlog & Hio & Hfr). cbn [wld] in *.
      specialize (Hfr Hsome).
      exists Built. split;
        cbn [wld _lock held tasks kernel_manager kernels _kernel_locks boots
             iopub log].
      * apply tasks_update_ok; [rewrite Hfr; repeat split|].
        intros j q Hne Hj. apply (task_ok_phase _ _ Fresh);
          [eauto
          |eapply (owns_other crit _ i j _ q);
             [exact Ho | exact Hi | reflexivity | exact Hj | exact Hne]
          |first [discriminate | reflexivity]].
      * exact Hpl.
      * apply owns_update; auto. discriminate.
      * reflexivity.
      * apply owns_update; auto; discriminate.
      * exact Hb.
      * eapply locks_ok_made; eauto; discriminate.
      * unfold phase_ok.
        cbn [wld tasks kernel_manager kernels iopub log].
        split; [exact Hm|]. split; [exact Hio|]. split.
        -- rewrite Hlog, Hfr. reflexivity.
        -- exists i, (Starting (the_lock w0 kernel_id)
                         (mkKernel (fresh w) None false)).
           split; [|reflexivity]. apply list_lookup_insert_eq.
           eapply lookup_lt_Some; eauto.
  - (* Starting *)
    cbn [task_ok] in Hp. destruct Hp as (-> & -> & ->).
    assert (o = Some i) as -> by (apply Ho; eauto).
    subst hd.
    rewrite start_run in Hst by (rewrite Hb; apply Hresp).
    injection Hst as <- <-. cbn [wld _lock held tasks].
    destruct Hph as (Hm & Hio & Hlog & Hw). cbn [wld] in *.
    exists Booted. split;
      cbn [wld _lock held tasks kernel_manager kernels _kernel_locks boots
           iopub log].
    + apply tasks_update_ok; [repeat split|].
      intros j q Hne Hj. apply (task_ok_phase _ _ Built);
        [eauto
        |eapply (owns_other crit _ i j _ q);
           [exact Ho | exact Hi | reflexivity | exact Hj | exact Hne]
        |first [discriminate | reflexivity]].
    + exact Hpl.
    + apply owns_update; auto. discriminate.
    + reflexivity.
    + apply owns_update; auto; discriminate.
    + exact Hb.
    + eapply locks_ok_made; eauto; discriminate.
    + unfold phase_ok. cbn [wld tasks kernel_manager kernels iopub log].
      split; [exact Hm|]. split; [exact Hio|]. split.
      * rewrite Hlog, <- app_assoc. reflexivity.
      * exists i, (Importing (the_lock w0 kernel_id)
                     (mkKernel (the_handle w0 kernel_id)
                               (Some (the_handle w0 kernel_id)) false)).
        split; [|reflexivity].
        apply list_lookup_insert_eq. eapply lookup_lt_Some; eauto.
  - (* Importing *)
    cbn [task_ok] in Hp. destruct Hp as (-> & -> & ->).
    assert (o = Some i) as -> by (apply Ho; eauto).
    subst hd.
    destruct Hph as (Hm & Hio & Hlog & Hw). cbn [wld] in *.
    destruct (import_run (the_handle w0 kernel_id) w) as [rest Hrun].
    { rewrite Hio. apply Hresp. }
    unfold the_kernel in Hst. rewrite Hrun in Hst.
    injection Hst as <- <-. cbn [wld _lock held tasks].
    exists Stored. split;
      cbn [wld _lock held tasks kernel_manager kernels _kernel_locks boots
           iopub log with_manager].
    + apply tasks_update_ok; [repeat split|].
      intros j q Hne Hj. apply (task_ok_phase _ _ Booted);
        [eauto
        |eapply (owns_other crit _ i j _ q);
           [exact Ho | exact Hi | reflexivity | exact Hj | exact Hne]
        |first [discriminate | reflexivity]].
    + exact Hpl.
    + apply owns_update; auto. discriminate.
    + apply difference_diag_L.
    + apply owns_update; auto. discriminate.
    + exact Hb.
    + eapply locks_ok_made; eauto; discriminate.
    + unfold phase_ok.
      cbn [wld tasks kernel_manager kernels iopub log with_manager].
      split; [apply lookup_insert_eq|].
      rewrite Hlog, <- app_assoc. reflexivity.
  - discriminate.
  - discriminate.
Qed.

Lemma init_inv kernel_id w0 n :
  kernels (kernel_manager w0) !! kernel_id = None ->
  inv kernel_id w0 (init w0 n) None None Fresh.
Proof.
  intros Hnone. unfold init. split; cbn [wld _lock held tasks].
  - intros i p H. apply lookup_replicate in H. destruct H as [-> _]. exact I.
  - reflexivity.
  - intros i. split; [|discriminate].
    intros (p & H & Hp). apply lookup_replicate in H. destruct H as [-> _].
    discriminate.
  - reflexivity.
  - intros i. split; [|discriminate].
    intros (p & H & Hp). apply lookup_replicate in H. destruct H as [-> _].
    discriminate.
  - reflexivity.
  - unfold locks_ok, the_lock. cbn [wld tasks].
    destruct (_kernel_locks (kernel_manager w0) !! kernel_id);
      cbn [default]; [reflexivity|].
    split; [reflexivity|]. split; [reflexivity|].
    intros i p H. apply lookup_replicate in H. destruct H as [-> _]. auto.
  - unfold phase_ok, the_handle. cbn [wld].
    split; [exact Hnone|]. split; [reflexivity|]. split; [reflexivity|].
    destruct (_kernel_locks (kernel_manager w0) !! kernel_id);
      [reflexivity|]. intros [x Hx]. discriminate.
Qed.

Lemma run_inv kernel_id w0 schedule s :
  responsive w0 ->
  (exists po o ph, inv kernel_id w0 s po o ph) ->
  exists po o ph, inv kernel_id w0 (run kernel_id schedule s) po o ph.
Proof.
  intros Hresp. revert s.
  induction schedule as [|i rest IH]; intros s Hinv; [exact Hinv|].
  cbn [run]. destruct (step kernel_id i s) as [s'|] eqn:E; apply IH;
    [|exact Hinv].
  destruct Hinv as (po & o & ph & Hinv).
  exact (step_inv _ _ _ _ _ _ _ _ Hresp Hinv E).
Qed.

Lemma step_task_rank kernel_id p s p' s' :
  step_task kernel_id p s = Some (p', s') ->
  rank p' < rank p /\ tasks s' = tasks s.
Proof.
  destruct p; cbn [step_task]; intros H;
    repeat match type of H with
           | context [match ?x with _ => _ end] => destruct x
           | context [if ?x then _ else _] => destruct x
           end;
    simplify_eq; cbn; split; (lia || reflexivity).
Qed.

Lemma step_remaining kernel_id i s s' :
  step kernel_id i s = Some s' ->
  remaining s' < remaining s /\ length (tasks s') = length (tasks s).
Proof.
  unfold step. destruct (tasks s !! i) as [p|] eqn:Hi; [|discriminate].
  cbn [mbind option_bind].
  destruct (step_task kernel_id p s) as [[p' s1]|] eqn:Hst; [|discriminate].
  cbn [mbind option_bind]. intros [= <-].
  destruct (step_task_rank _ _ _ _ _ Hst) as [Hr Hts].
  unfold remaining. cbn [tasks]. rewrite Hts. split.
  - pose proof (list_sum_insert rank (tasks s) i p p' Hi). lia.
  - apply length_insert.
Qed.

Lemma run_turns kernel_id schedule s :
  turns kernel_id schedule s + remaining (run kernel_id schedule s)
    <= remaining s /\
  length (tasks (run kernel_id schedule s)) = length (tasks s).
Proof.
  revert s. induction schedule as [|i rest IH]; intros s; cbn [turns run].
  - split; [lia | reflexivity].
  - destruct (step kernel_id i s) as [s'|] eqn:E.
    + destruct (step_remaining _ _ _ _ E) as [Hr Hlen].
      destruct (IH s') as [H1 H2]. split; [lia | congruence].
    + apply IH.
Qed.

Lemma remaining_init w0 n : remaining (init w0 n) = 6 * n.
Proof.
  unfold remaining. cbn [init tasks].
  induction n as [|n IH]; [reflexivity|].
  change (6 + list_sum (map rank (replicate n AtPoolLock)) = 6 * S n).
  rewrite IH. lia.
Qed.

Lemma step_of_task kernel_id j s q q' s1 :
  tasks s !! j = Some q -> step_task kernel_id q s = Some (q', s1) ->
  exists s', step kernel_id j s = Some s'.
Proof.
  intros Hj Hq. unfold step. rewrite Hj. cbn [mbind option_bind].
  rewrite Hq. cbn [mbind option_bind]. eauto.
Qed.

Lemma progress kernel_id w0 s po o ph i p :
  responsive w0 -> inv kernel_id w0 s po o ph ->
  tasks s !! i = Some p -> (forall k, p <> Returned k) ->
  exists j s', step kernel_id j s = Some s'.
Proof.
  intros Hresp [Ht Hpl Hpo Hh Ho Hb Hl Hph] Hi Hp.
  destruct po as [j|].
  { exists j. destruct (proj2 (Hpo j) eq_refl) as (q & Hj & Hq).
    destruct q; try discriminate.
    destruct (_kernel_locks (kernel_manager (wld s)) !! kernel_id) eqn:E;
      eapply step_of_task; eauto; cbn [step_task]; rewrite E; reflexivity. }
  destruct o as [j|].
  { exists j. destruct (proj2 (Ho j) eq_refl) as (q & Hj & Hq).
    pose proof (Ht j q Hj) as Hok.
    destruct q; try discriminate; cbn [task_ok] in Hok.
    - destruct (kernels (kernel_manager (wld s)) !! kernel_id) eqn:E;
        eapply step_of_task; eauto; cbn [step_task]; rewrite E;
        [reflexivity | rewrite new_run; reflexivity].
    - destruct Hok as (-> & -> & ->).
      eapply step_of_task; eauto. cbn [step_task].
      rewrite start_run by (rewrite Hb; apply Hresp). reflexivity.
    - destruct Hok as (-> & -> & ->).
      destruct Hph as (_ & Hio & _).
      destruct (import_run (the_handle w0 kernel_id) (wld s)) as [rest Hrun].
      { rewrite Hio. apply Hresp. }
      eapply step_of_task; eauto. cbn [step_task]. unfold the_kernel.
      rewrite Hrun. reflexivity. }
  exists i. pose proof (Ht i p Hi) as Hok.
  destruct p; cbn [task_ok] in Hok.
  - eapply step_of_task; eauto. cbn [step_task]. rewrite Hpl. reflexivity.
  - assert (None = Some i) by (apply Hpo; eauto). discriminate.
  - subst lock. eapply step_of_task; eauto. cbn [step_task]. rewrite Hh.
    destruct (decide (the_lock w0 kernel_id ∈ (∅ : gset nat))) as [Hin|];
      [|reflexivity].
    apply not_elem_of_empty in Hin. contradiction.
  - assert (None = Some i) by (apply Ho; eauto). discriminate.
  - assert (None = Some i) by (apply Ho; eauto). discriminate.
  - assert (None = Some i) by (apply Ho; eauto). discriminate.
  - exfalso. exact (Hp kernel eq_refl).
  - contradiction.
Qed.

Lemma held_cycle (l : nat) : ({[l]} ∪ (∅ : gset nat)) ∖ {[l]} = ∅.
Proof. rewrite union_empty_r_L. apply difference_diag_L. Qed.

Lemma solo_step kernel_id w lk hd p p' s1 :
  step_task kernel_id p (mkState w lk hd [p]) = Some (p', s1) ->
  tasks s1 = [p] ->
  step kernel_id 0 (mkState w lk hd [p]) =
  Some (mkState (wld s1) (_lock s1) (held s1) [p']).
Proof.
  intros H Ht. unfold step. cbn [tasks].
  change ([p] !! 0) with (Some p). cbn [mbind option_bind]. rewrite H.
  cbn [mbind option_bind]. rewrite Ht. reflexivity.
Qed.

Lemma solo_stuck kernel_id w lk hd p :
  step_task kernel_id p (mkState w lk hd [p]) = None ->
  step kernel_id 0 (mkState w lk hd [p]) = None.
Proof.
  intros H. unfold step. cbn [tasks].
  change ([p] !! 0) with (Some p). cbn [mbind option_bind]. rewrite H.
  reflexivity.
Qed.

(** The turns of a call that runs alone, from the per-identifier lock on. *)
Lemma solo_from_lock (kernel_id : string) (w : world) (l : nat) :
  let s := run kernel_id (replicate 4 0) (mkState w false ∅ [AtIdLock l]) in
  match
    (match kernels (kernel_manager w) !! kernel_id with
     | Some kernel => ret kernel
     | None =>
         let* kernel := JupyterKernel_new in
         let* kernel := start kernel "/workspace" in
         import_libraries kernel KERNEL_LIBRARIES;;
         fun w' =>
           let mgr' := kernel_manager w' in
           (set_manager (mkManager (<[kernel_id := kernel]> (kernels mgr'))
                                   (_kernel_locks mgr'));;
            ret kernel) w'
     end) w
  with
  | Done k w' => s = mkState w' false ∅ [Returned k]
  | Raised e w' => s = mkState w' false ∅ [Failed e]
  | Blocked _ => forall k, tasks s <> [Returned k]
  end.
Proof.
  cbn [replicate run].
  erewrite solo_step; [|cbn [step_task held]; rewrite decide_False by
    apply not_elem_of_empty; reflexivity|reflexivity].
  cbn [wld _lock held].
  destruct (kernels (kernel_manager w) !! kernel_id) as [k|] eqn:Ek.
  - erewrite solo_step;
      [|cbn [step_task wld]; rewrite Ek; reflexivity|reflexivity].
    cbn [wld _lock held]. rewrite held_cycle.
    rewrite !solo_stuck by reflexivity. reflexivity.
  - unfold bind at 1. rewrite new_run.
    erewrite solo_step;
      [|cbn [step_task wld]; rewrite Ek, new_run; reflexivity|reflexivity].
    cbn [wld _lock held]. unfold bind at 1.
    destruct (start _ "/workspace" _) as [k1 w3|e w3|w3] eqn:Es.
    + erewrite solo_step;
        [|cbn [step_task wld]; rewrite Es; reflexivity|reflexivity].
      cbn [wld _lock held]. unfold bind at 1.
      destruct (import_libraries k1 KERNEL_LIBRARIES w3) as [u w4|e w4|w4]
        eqn:Ei.
      * erewrite solo_step;
          [|cbn [step_task wld]; rewrite Ei; reflexivity|reflexivity].
        cbn [wld _lock held]. rewrite held_cycle. reflexivity.
      * erewrite solo_step;
          [|cbn [step_task wld]; rewrite Ei; reflexivity|reflexivity].
        cbn [wld _lock held]. rewrite held_cycle. reflexivity.
      * rewrite solo_stuck by (cbn [step_task wld]; rewrite Ei; reflexivity).
        intros k. discriminate.
    + erewrite solo_step;
        [|cbn [step_task wld]; rewrite Es; reflexivity|reflexivity].
      cbn [wld _lock held]. rewrite held_cycle.
      rewrite solo_stuck by reflexivity. reflexivity.
    + rewrite !solo_stuck by (cbn [step_task wld]; rewrite Es; reflexivity).
      intros k. discriminate.
Qed.

(** A call that runs alone does what [Service.get_kernel] does. *)
Lemma solo_get_kernel (kernel_id : string) (w : world) :
  let s := run kernel_id (replicate 6 0) (init w 1) in
  match get_kernel kernel_id w with
  | Done k w' => s = mkState w' false ∅ [Returned k]
  | Raised e w' => s = mkState w' false ∅ [Failed e]
  | Blocked _ => forall k, tasks s <> [Returned k]
  end.
Proof.
  unfold init. cbn [replicate run].
  erewrite solo_step; [|reflexivity|reflexivity]. cbn [wld _lock held].
  unfold get_kernel.
  destruct (_kernel_locks (kernel_manager w) !! kernel_id) as [l|] eqn:El.
  - erewrite solo_step;
      [|cbn [step_task wld]; rewrite El; reflexivity|reflexivity].
    cbn [wld _lock held]. unfold bind at 1, ret at 1.
    apply (solo_from_lock kernel_id w l).
  - erewrite solo_step;
      [|cbn [step_task wld]; rewrite El; reflexivity|reflexivity].
    cbn [wld _lock held]. unfold bind at 1 2, new_object, set_manager, ret at 1.
    cbn [kernel_manager kernels fresh boots iopub log].
    apply (solo_from_lock kernel_id
             (mkWorld (mkManager (kernels (kernel_manager w))
                        (<[kernel_id := fresh w]>
                           (_kernel_locks (kernel_manager w))))
                      (S (fresh w)) (boots w) (iopub w) (log w))
             (fresh w)).
Qed.

(** C1. [n] calls of [get_kernel] made together for an identifier that
    has no kernel, on a service whose kernels come up and answer: whatever
    the order in which the event loop runs them, the log only ever holds a
    prefix of the effects of making one kernel, so that a second kernel is
    never constructed or started; every call that has returned has
    returned that one kernel, which is then stored under the identifier;
    no call fails; as long as a call has not returned some call can run,
    and all the calls together run at most [6 n] turns; when no call can
    run any more each of the [n] calls has returned the same kernel and
    the log holds the effects of making it exactly once. *)
Theorem get_kernel_once
    (kernel_id : string) (w0 : world) (n : nat) (schedule : list nat) :
  kernels (kernel_manager w0) !! kernel_id = None -> responsive w0 ->
  let s := run kernel_id schedule (init w0 n) in
  let k := the_kernel w0 kernel_id in
  (exists m, log (wld s) = log w0 ++ firstn m (the_log w0 kernel_id)) /\
  (forall i k',
     tasks s !! i = Some (Returned k') ->
     k' = k /\
     kernels (kernel_manager (wld s)) !! kernel_id = Some k /\
     log (wld s) = log w0 ++ the_log w0 kernel_id) /\
  (length (tasks s) = n /\ forall i e, tasks s !! i <> Some (Failed e)) /\
  (forall i p,
     tasks s !! i = Some p -> (forall k', p <> Returned k') ->
     exists j s', step kernel_id j s = Some s') /\
  turns kernel_id schedule (init w0 n) + remaining s <= 6 * n /\
  ((forall j, step kernel_id j s = None) ->
   tasks s = replicate n (Returned k) /\
   (0 < n -> log (wld s) = log w0 ++ the_log w0 kernel_id)).
Proof.
  intros Hnone Hresp s k.
  destruct (run_inv kernel_id w0 schedule (init w0 n) Hresp)
    as (po & o & ph & Hinv).
  { exists None, None, Fresh. apply init_inv. exact Hnone. }
  fold s in Hinv.
  destruct (run_turns kernel_id schedule (init w0 n)) as [Hturns Hlen].
  fold s in Hturns, Hlen. rewrite remaining_init in Hturns.
  assert (length (tasks s) = n) as Hn.
  { rewrite Hlen. unfold init. cbn [tasks]. apply length_replicate. }
  assert (forall i k', tasks s !! i = Some (Returned k') ->
          k' = k /\
          kernels (kernel_manager (wld s)) !! kernel_id = Some k /\
          log (wld s) = log w0 ++ the_log w0 kernel_id) as Hret.
  { intros i k' Hi. destruct (inv_tasks _ _ _ _ _ _ Hinv i _ Hi) as [-> ->].
    destruct (inv_phase _ _ _ _ _ _ Hinv) as [Hm Hlog]. auto. }
  assert (forall i p, tasks s !! i = Some p -> (forall k', p <> Returned k') ->
          exists j s', step kernel_id j s = Some s') as Hprog.
  { intros i p Hi Hp. eapply progress; eauto. }
  split; [|split; [exact Hret|split; [|split; [exact Hprog|split]]]].
  - pose proof (inv_phase _ _ _ _ _ _ Hinv) as Hph. destruct ph.
    + exists 0. destruct Hph as (_ & -> & _). cbn. rewrite app_nil_r.
      reflexivity.
    + exists 1. destruct Hph as (_ & _ & -> & _). reflexivity.
    + exists 4. destruct Hph as (_ & _ & -> & _). reflexivity.
    + exists 5. destruct Hph as (_ & ->). reflexivity.
  - split; [exact Hn|]. intros i e Hi.
    exact (inv_tasks _ _ _ _ _ _ Hinv i _ Hi).
  - exact Hturns.
  - intros Hrest.
    assert (forall i, i < n -> tasks s !! i = Some (Returned k)) as Hall.
    { intros i Hi. destruct (lookup_lt_is_Some_2 (tasks s) i) as [p Hp];
        [lia|].
      destruct p; try (destruct (Hprog i _ Hp) as (j & s' & Hj);
                       [discriminate | rewrite Hrest in Hj; discriminate]).
      destruct (Hret i _ Hp) as [-> _]. exact Hp. }
    split.
    + apply list_eq. intros i. destruct (decide (i < n)) as [Hi|Hi].
      * rewrite (Hall i Hi). symmetry. apply lookup_replicate. auto.
      * rewrite lookup_ge_None_2 by lia.
        symmetry. apply lookup_replicate_None. lia.
    + intros Hpos. destruct (Hret 0 k (Hall 0 Hpos)) as (_ & _ & Hlog).
      exact Hlog.
Qed.

Lemma get_kernel_once_witness :
  let idle := JObj [("msg_type", JStr "status");
                    ("content", JObj [("execution_state", JStr "idle")])] in
  let w0 := mkWorld (mkManager ∅ ∅) 0 (fun _ => true) (fun _ => [idle]) [] in
  let s := run "s1" [0; 1; 2; 0; 1; 2; 2; 1; 0; 0; 0; 0] (init w0 3) in
  kernels (kernel_manager w0) !! "s1" = None /\
  responsive w0 /\
  forall i k',
    tasks s !! i = Some (Returned k') ->
    k' = the_kernel w0 "s1" /\
    kernels (kernel_manager (wld s)) !! "s1" = Some (the_kernel w0 "s1") /\
    log (wld s) = log w0 ++ the_log w0 "s1".
Proof.
  intros idle w0 s.
  assert (kernels (kernel_manager w0) !! "s1" = None) as Hnone
    by reflexivity.
  assert (responsive w0) as Hresp by (intros h; split; reflexivity).
  split; [exact Hnone|]. split; [exact Hresp|].
  exact (proj1 (proj2 (get_kernel_once "s1" w0 3
                         [0; 1; 2; 0; 1; 2; 2; 1; 0; 0; 0; 0] Hnone Hresp))).
Defined.

(** Without kernels that come up the calls do not share one kernel: with
    a kernel that never starts, the first call makes a kernel, fails and
    leaves the lock with nothing stored, and the second call makes
    another. *)
Lemma get_kernel_twice_when_start_fails :
  let w0 := mkWorld (mkManager ∅ ∅) 0 (fun _ => false) (fun _ => []) [] in
  let s := run "s1" [0; 1; 0; 1; 0; 1; 0; 0; 1; 1; 1; 1] (init w0 2) in
  kernels (kernel_manager w0) !! "s1" = None /\
  tasks s = [Failed StartupError; Failed StartupError] /\
  log (wld s) = [NewKernel 1; NewKernel 2] /\
  kernels (kernel_manager (wld s)) !! "s1" = None /\
  (forall j, step "s1" j s = None).
Proof.
  intros w0 s. split; [reflexivity|]. split; [reflexivity|].
  split; [reflexivity|]. split; [reflexivity|].
  intros [|[|j]]; reflexivity.
Qed.

End PoolFacts.

(** ** Concurrent callers of [execute_raw] *)

Module SessionFacts.
Import Py Service Loop LoopFacts Session.

Lemma follow_app (cur : option nat) (t1 t2 : list event) :
  follow cur (t1 ++ t2) =
  match follow cur t1 with
  | Some cur' => follow cur' t2
  | None => None
  end.
Proof.
  revert cur. induction t1 as [|ev t1 IH]; intros cur; simpl; [reflexivity|].
  destruct (observe cur ev); [apply IH | reflexivity].
Qed.

Lemma follow_ends (i : nat) (tr : list event) :
  follow (Some i) tr = Some None -> existsb (ends i) tr = true.
Proof.
  induction tr as [|ev tr IH]; simpl; [discriminate|].
  destruct ev as [j c|j reply|j|j e]; simpl; [discriminate| | |].
  - destruct (Nat.eqb_spec j i) as [->|_]; [|discriminate]. simpl.
    destruct (idle reply); [reflexivity|]. exact IH.
  - destruct (Nat.eqb_spec j i); [reflexivity | discriminate].
  - destruct (Nat.eqb_spec j i); [reflexivity | discriminate].
Qed.

Lemma follow_between (cur : option nat) (t1 t2 t3 : list event)
    (i j : nat) (c c' : string) :
  is_Some (follow cur (t1 ++ Sent i c :: t2 ++ Sent j c' :: t3)) ->
  existsb (ends i) t2 = true.
Proof.
  intros [x H]. rewrite follow_app in H.
  destruct (follow cur t1) as [c1|]; [|discriminate].
  cbn [follow] in H. destruct c1; [discriminate|]. cbn [observe] in H.
  rewrite follow_app in H.
  destruct (follow (Some i) t2) as [c2|] eqn:E2; [|discriminate].
  cbn [follow] in H. destruct c2; [discriminate|].
  apply follow_ends. exact E2.
Qed.

Lemma on_reply_break (reply : json) (handed : bool) :
  on_reply reply = (handed, Break) -> handed = true.
Proof.
  unfold on_reply. destruct (get reply "msg_type"); [|discriminate].
  destruct (eq_str a "status"); [|discriminate].
  destruct (c ← getitem reply "content"; getitem c "execution_state");
    [|discriminate].
  destruct (eq_str (Some a0) "idle"); intros [= <-]; reflexivity.
Qed.

Lemma serial_step_inv (t : turn) (s s' : state) (cur : option nat) :
  inv s cur -> step t s = Some s' -> exists cur', inv s' cur'.
Proof.
  intros [Htr Ho Hl] Hstep. unfold step in Hstep.
  destruct (tasks s !! call_of t) as [p|] eqn:Hi; [|discriminate].
  cbn [mbind option_bind] in Hstep.
  destruct (step_task t p s) as [[p' s1]|] eqn:Hst; [|discriminate].
  cbn [mbind option_bind] in Hstep. injection Hstep as <-.
  destruct s as [lk ch tr ts]. cbn [_execution_lock channel trace tasks] in *.
  exists (next_owner reading (call_of t) p p' cur).
  destruct t as [i|i], p as [code| | | |e];
    cbn [step_task call_of _execution_lock channel trace tasks] in *;
    try discriminate.
  - (* Run, AtLock *)
    destruct lk; [discriminate|]. injection Hst as <- <-.
    assert (cur = None) as ->.
    { destruct cur; [|reflexivity]. rewrite bool_decide_true in Hl by eauto.
      discriminate. }
    split; cbn [_execution_lock channel trace tasks].
    + rewrite follow_app, Htr. reflexivity.
    + apply owns_update; auto; discriminate.
    + reflexivity.
  - (* Run, Reading *)
    assert (cur = Some i) as -> by (apply Ho; eauto).
    destruct ch as [|reply rest]; [discriminate|].
    destruct (on_reply reply) as [handed next] eqn:Er.
    assert (idle reply = match next with Break => true | _ => false end)
      as Hidle by (unfold idle; rewrite Er; reflexivity).
    destruct next as [| |e].
    + injection Hst as <- <-.
      split; cbn [_execution_lock channel trace tasks].
      * rewrite follow_app, Htr. destruct handed; [|reflexivity].
        cbn [follow observe]. rewrite Nat.eqb_refl, Hidle. reflexivity.
      * apply owns_update; auto; discriminate.
      * reflexivity.
    + injection Hst as <- <-. rewrite (on_reply_break _ _ Er).
      split; cbn [_execution_lock channel trace tasks].
      * rewrite follow_app, Htr.
        cbn [follow observe]. rewrite Nat.eqb_refl, Hidle. reflexivity.
      * apply owns_update; auto; discriminate.
      * reflexivity.
    + injection Hst as <- <-.
      split; cbn [_execution_lock channel trace tasks].
      * rewrite !follow_app, Htr. destruct handed.
        -- cbn [follow observe]. rewrite Nat.eqb_refl, Hidle.
           cbn [follow observe]. rewrite Nat.eqb_refl. reflexivity.
        -- cbn [follow observe]. rewrite Nat.eqb_refl. reflexivity.
      * apply owns_update; auto; discriminate.
      * reflexivity.
  - (* Cancel, AtLock *)
    injection Hst as <- <-.
    split; cbn [_execution_lock channel trace tasks].
    + exact Htr.
    + apply owns_update; auto; discriminate.
    + exact Hl.
  - (* Cancel, Reading *)
    assert (cur = Some i) as -> by (apply Ho; eauto).
    injection Hst as <- <-.
    split; cbn [_execution_lock channel trace tasks].
    + rewrite follow_app, Htr. cbn [follow observe]. rewrite Nat.eqb_refl.
      reflexivity.
    + apply owns_update; auto; discriminate.
    + reflexivity.
Qed.

Lemma serial_init_inv (pending : list json) (codes : list string) :
  inv (init pending codes) None.
Proof.
  split; cbn [init _execution_lock trace tasks]; [reflexivity| |reflexivity].
  intros i. split; [|discriminate].
  intros (p & H & Hp). apply list_lookup_fmap_Some in H.
  destruct H as (c & -> & _). discriminate.
Qed.

Lemma serial_run_inv (schedule : list turn) (s : state) :
  (exists cur, inv s cur) -> exists cur, inv (run schedule s) cur.
Proof.
  revert s. induction schedule as [|t rest IH]; intros s Hinv; [exact Hinv|].
  cbn [run]. destruct (step t s) as [s'|] eqn:E; apply IH; [|exact Hinv].
  destruct Hinv as [cur Hinv]. exact (serial_step_inv _ _ _ _ Hinv E).
Qed.

(** Sound replies raise nothing. *)
Lemma step_sound (t : turn) (s s' : state) :
  forallb sound (channel s) = true -> existsb is_raised (trace s) = false ->
  step t s = Some s' ->
  forallb sound (channel s') = true /\ existsb is_raised (trace s') = false.
Proof.
  intros Hch Htr Hstep. unfold step in Hstep.
  destruct (tasks s !! call_of t) as [p|]; [|discriminate].
  cbn [mbind option_bind] in Hstep.
  destruct (step_task t p s) as [[p' s1]|] eqn:Hst; [|discriminate].
  cbn [mbind option_bind] in Hstep. injection Hstep as <-.
  cbn [channel trace].
  destruct t as [i|i], p as [code| | | |e]; cbn [step_task] in Hst;
    try discriminate.
  - destruct (_execution_lock s); [discriminate|]. injection Hst as <- <-.
    cbn [channel trace]. rewrite existsb_app, Htr. auto.
  - destruct (channel s) as [|reply rest]; [discriminate|].
    cbn [forallb] in Hch. apply andb_true_iff in Hch. destruct Hch as [Hs Hch].
    unfold sound in Hs.
    destruct (on_reply reply) as [handed next]. cbn [snd] in Hs.
    destruct next; [| |discriminate]; injection Hst as <- <-;
      cbn [channel trace]; rewrite existsb_app, Htr;
      destruct handed; auto.
  - injection Hst as <- <-. auto.
  - injection Hst as <- <-. cbn [channel trace].
    rewrite existsb_app, Htr. auto.
Qed.

Lemma run_sound (schedule : list turn) (s : state) :
  forallb sound (channel s) = true -> existsb is_raised (trace s) = false ->
  existsb is_raised (trace (run schedule s)) = false.
Proof.
  revert s. induction schedule as [|t rest IH]; intros s Hch Htr; [exact Htr|].
  cbn [run]. destruct (step t s) as [s'|] eqn:E; [|auto].
  destruct (step_sound _ _ _ Hch Htr E). auto.
Qed.

(** C2. Calls of [execute_raw] made together on one kernel, under every
    order of turns and cancellations: the trace reads as a sequence of
    executions one after the other, so that code is sent only when no
    execution is in flight and every reply is handed over by the one call
    in flight; at most one call is in the loop, and the lock is held
    exactly while one is; between the sending of one call and any later
    sending lies the end of the first, which is its idle reply, its
    cancellation or an exception of its loop body; and no exception occurs
    when the replies are sound, the end then being the idle reply or the
    cancellation. *)
Theorem execute_raw_serialized
    (pending : list json) (codes : list string) (schedule : list turn) :
  let s := run schedule (init pending codes) in
  (exists cur,
     follow None (trace s) = Some cur /\
     (forall i, tasks s !! i = Some Reading <-> cur = Some i) /\
     _execution_lock s = bool_decide (is_Some cur)) /\
  (forall i j,
     tasks s !! i = Some Reading -> tasks s !! j = Some Reading -> i = j) /\
  (forall t1 i c t2 j c' t3,
     trace s = t1 ++ Sent i c :: t2 ++ Sent j c' :: t3 ->
     existsb (ends i) t2 = true) /\
  (forallb sound pending = true -> existsb is_raised (trace s) = false).
Proof.
  intros s.
  destruct (serial_run_inv schedule (init pending codes)) as [cur [Htr Ho Hl]].
  { exists None. apply serial_init_inv. }
  fold s in Htr, Ho, Hl.
  assert (forall i, tasks s !! i = Some Reading <-> cur = Some i) as Hone.
  { intros i. rewrite <- (Ho i). split.
    - intros H. exists Reading. auto.
    - intros (p & Hp & Hr). destruct p; try discriminate. exact Hp. }
  split; [|split; [|split]].
  - exists cur. auto.
  - intros i j Hi Hj. apply Hone in Hi, Hj. congruence.
  - intros t1 i c t2 j c' t3 Heq.
    apply (follow_between None t1 t2 t3 i j c c').
    rewrite <- Heq, Htr. eauto.
  - intros Hsound. apply run_sound; [exact Hsound | reflexivity].
Qed.

Lemma execute_raw_serialized_witness :
  let status := fun st : string =>
    JObj [("msg_type", JStr "status");
          ("content", JObj [("execution_state", JStr st)])] in
  let out := JObj [("msg_type", JStr "stream");
                   ("content", JObj [("text", JStr "2")])] in
  let pending := [status "busy"; out; status "idle";
                  status "busy"; status "idle"] in
  let schedule := [Run 0; Run 1; Run 0; Run 1; Run 0; Run 0; Run 1; Run 1;
                   Run 1] in
  let s := run schedule (init pending ["1+1"; "pass"]) in
  forallb sound pending = true /\
  existsb is_raised (trace s) = false /\
  trace s = [Sent 0 "1+1"; Yielded 0 (status "busy"); Yielded 0 out;
             Yielded 0 (status "idle");
             Sent 1 "pass"; Yielded 1 (status "busy");
             Yielded 1 (status "idle")].
Proof.
  intros status out pending schedule s.
  split; [reflexivity|]. split; [|reflexivity].
  exact (proj2 (proj2 (proj2
           (execute_raw_serialized pending ["1+1"; "pass"] schedule)))
         eq_refl).
Defined.

End SessionFacts.

(** ** What the translator keeps *)

Module OutputsFacts.
Import Py PyFacts Translator TranslatorFacts Outputs.

Lemma eq_str_excl (ty : option json) (a b : string) :
  eq_str ty a = true -> eq_str ty b = true -> a = b.
Proof.
  destruct ty as [[| | | |s| |]|]; simpl; try discriminate.
  intros Ha Hb. apply String.eqb_eq in Ha, Hb. congruence.
Qed.

(** X1. Translation goes message by message and in order: the outputs of
    a message list cut in two are the outputs of the first part followed
    by those of the second, and the first exception met is the result. *)
Theorem translate_app (l1 l2 : list json) :
  _process_messages (JArr (l1 ++ l2)) =
  (a ← _process_messages (JArr l1);
   b ← _process_messages (JArr l2);
   Ok (a ++ b)).
Proof.
  unfold _process_messages. cbn [iter mbind res_bind].
  rewrite process_loop_app.
  destruct (process_loop [] l1) as [a|e]; cbn [mbind res_bind];
    [|reflexivity].
  apply process_loop_acc.
Qed.

Lemma KernelOutput_new_flag mt v e o :
  KernelOutput_new mt v e = Ok o -> is_error o = e.
Proof. destruct v; try discriminate. intros [= <-]. reflexivity. Qed.

Lemma one_output_shape (o : KernelOutput) (e keep : bool) :
  is_error o = e -> keep = true ->
  (keep = false -> [o] = []) /\
  length [o] <= 1 /\
  length (List.filter is_error [o]) = (if e then 1 else 0).
Proof.
  intros He ->. split; [discriminate|]. split; [reflexivity|].
  cbn. rewrite He. destruct e; reflexivity.
Qed.

Lemma process_message_shape (message : json) (r : list KernelOutput) :
  process_message [] message = Ok r ->
  (produces message = false -> r = []) /\
  length r <= 1 /\
  length (List.filter is_error r) = (if is_error_event message then 1 else 0).
Proof.
  unfold process_message, produces, is_error_event.
  destruct message as [| | | | | |m]; try discriminate.
  cbn [get mbind res_bind]. unfold is_output_type.
  destruct (eq_str (dict_get m "msg_type") "stream") eqn:Es.
  { assert (eq_str (dict_get m "msg_type") "error" = false) as ->.
    { destruct (eq_str (dict_get m "msg_type") "error") eqn:Ee; [|reflexivity].
      discriminate (eq_str_excl _ _ _ Es Ee). }
    destruct (getitem (JObj m) "content") as [c|]; [|discriminate].
    cbn [mbind res_bind].
    destruct (getitem c "text") as [t|]; [|discriminate].
    cbn [mbind res_bind].
    destruct (KernelOutput_new "text/plain" t false) as [o|] eqn:Ek;
      [|discriminate].
    cbn [mbind res_bind app]. intros [= <-].
    apply (one_output_shape o false); [eapply KernelOutput_new_flag; eauto|reflexivity]. }
  destruct (eq_str (dict_get m "msg_type") "display_data" ||
            eq_str (dict_get m "msg_type") "execute_result") eqn:Ed.
  { assert (eq_str (dict_get m "msg_type") "error" = false) as ->.
    { destruct (eq_str (dict_get m "msg_type") "error") eqn:Ee; [|reflexivity].
      apply orb_true_iff in Ed. destruct Ed as [Ed|Ed];
        discriminate (eq_str_excl _ _ _ Ed Ee). }
    destruct (getitem (JObj m) "content") as [c|]; [|discriminate].
    cbn [mbind res_bind].
    destruct (getitem c "data") as [d|]; [|discriminate].
    cbn [mbind res_bind].
    destruct d as [| | | | | |data]; try discriminate.
    pose proof (select_refines [] data) as Hsel.
    rewrite Hsel. unfold emit.
    destruct (spec_choice data) as [[mt v]|]; [|discriminate].
    destruct (KernelOutput_new mt v false) as [o|] eqn:Ek; [|discriminate].
    cbn [mbind res_bind app]. intros [= <-].
    apply (one_output_shape o false); [eapply KernelOutput_new_flag; eauto|].
    cbn [orb]. rewrite Ed. reflexivity. }
  destruct (eq_str (dict_get m "msg_type") "error") eqn:Ee.
  { destruct (getitem (JObj m) "content") as [c|]; [|discriminate].
    cbn [mbind res_bind].
    destruct (getitem c "traceback") as [t|]; [|discriminate].
    cbn [mbind res_bind].
    destruct (join newline t) as [text|]; [|discriminate].
    cbn [mbind res_bind KernelOutput_new app]. intros [= <-].
    apply (one_output_shape _ true); [reflexivity|]. apply orb_true_r. }
  intros [= <-]. cbn. repeat split; auto.
Qed.

Lemma process_loop_shape (messages : list json) (outs : list KernelOutput) :
  process_loop [] messages = Ok outs ->
  process_loop [] (List.filter produces messages) = Ok outs /\
  length outs <= length messages /\
  length (List.filter is_error outs) =
  length (List.filter is_error_event messages).
Proof.
  revert outs. induction messages as [|m ms IH]; intros outs.
  - intros [= <-]. cbn. auto.
  - cbn [process_loop]. destruct (process_message [] m) as [r|] eqn:Em;
      [|discriminate]. cbn [mbind res_bind].
    rewrite process_loop_acc.
    destruct (process_loop [] ms) as [rest|] eqn:Er; [|discriminate].
    cbn [mbind res_bind]. intros [= <-].
    destruct (IH rest eq_refl) as (Hf & Hlen & Herr).
    destruct (process_message_shape m r Em) as (Hnone & Hone & Hflag).
    split; [|split].
    + cbn [List.filter]. destruct (produces m) eqn:Ep.
      * cbn [process_loop]. rewrite Em. cbn [mbind res_bind].
        rewrite process_loop_acc, Hf. reflexivity.
      * rewrite (Hnone eq_refl). exact Hf.
    + rewrite length_app. cbn [length]. lia.
    + rewrite List.filter_app, length_app, Hflag, Herr. cbn [List.filter].
      destruct (is_error_event m); reflexivity.
Qed.
Lemma skip_message (results : list KernelOutput) (message : json) :
  produces message = false -> process_message results message = Ok results.
Proof.
  unfold produces, is_output_type, process_message.
  destruct message as [| | | | | |m]; try discriminate.
  cbn [get mbind res_bind]. intros H.
  apply orb_false_iff in H. destruct H as [H ->].
  apply orb_false_iff in H. destruct H as [H He].
  apply orb_false_iff in H. destruct H as [-> Hd].
  rewrite Hd, He. reflexivity.
Qed.

(** X2. Messages of any other type than [stream], [display_data],
    [execute_result] and [error], with those that carry no type, give no
    output and no failure: leaving them out of the list changes nothing,
    whether the translation succeeds or raises. *)
Theorem translate_skips_control (messages : list json) :
  _process_messages (JArr (List.filter produces messages)) =
  _process_messages (JArr messages).
Proof.
  unfold _process_messages. cbn [iter mbind res_bind].
  generalize (@nil KernelOutput) as results.
  induction messages as [|m ms IH]; intros results; [reflexivity|].
  cbn [List.filter process_loop]. destruct (produces m) eqn:Ep.
  - cbn [process_loop].
    destruct (process_message results m); cbn [mbind res_bind];
      [apply IH | reflexivity].
  - rewrite (skip_message results m Ep). cbn [mbind res_bind]. apply IH.
Qed.

(** X3. A translation that succeeds gives at most one output per message
    that can give one, and as many outputs flagged as errors as the list
    has [error] messages. *)
Theorem translate_counts (messages : list json) (outs : list KernelOutput) :
  _process_messages (JArr messages) = Ok outs ->
  length outs <= length (List.filter produces messages) /\
  length (List.filter produces messages) <= length messages /\
  length (List.filter is_error outs) =
  length (List.filter is_error_event messages).
Proof.
  unfold _process_messages. cbn [iter mbind res_bind]. intros H.
  destruct (process_loop_shape messages outs H) as (Hf & _ & Herr).
  destruct (process_loop_shape _ outs Hf) as (_ & Hlen & _).
  split; [exact Hlen|]. split; [apply List.filter_length_le | exact Herr].
Qed.

Lemma translate_counts_witness :
  let status := JObj [("msg_type", JStr "status");
                      ("content", JObj [("execution_state", JStr "idle")])] in
  let err := JObj [("msg_type", JStr "error");
                   ("content", JObj [("traceback", JArr [JStr "boom"])])] in
  let out := JObj [("msg_type", JStr "stream");
                   ("content", JObj [("text", JStr "1")])] in
  _process_messages (JArr [out; err; status]) =
    Ok [mkOutput "text/plain" "1" false; mkOutput "text/plain" "boom" true] /\
  length [mkOutput "text/plain" "1" false; mkOutput "text/plain" "boom" true]
    <= length (List.filter produces [out; err; status]).
Proof.
  intros status err out. split; [reflexivity|].
  exact (proj1 (translate_counts [out; err; status] _ eq_refl)).
Defined.

End OutputsFacts.

(** ** The life of a kernel *)

Module LifecycleFacts.
Import Py PyFacts Service Pool Lifecycle ServiceFacts PoolFacts.

Ltac run_world :=
  cbn [world_of kernel_manager kernels _kernel_locks fresh boots iopub log
       km kc Service._execution_lock].

Lemma get_kernel_spec (kernel_id : string) (w : world) :
  let r := get_kernel kernel_id w in
  let mgr := kernel_manager w in
  let mgr' := kernel_manager (world_of r) in
  _kernel_locks mgr' = <[kernel_id := the_lock w kernel_id]> (_kernel_locks mgr) /\
  (exists n, log (world_of r) = log w ++ take n (the_log w kernel_id)) /\
  match r with
  | Done k w' =>
      kernels mgr' = <[kernel_id := k]> (kernels mgr) /\
      (kernels mgr !! kernel_id = Some k /\ log w' = log w \/
       kernels mgr !! kernel_id = None /\ k = the_kernel w kernel_id /\
       log w' = log w ++ the_log w kernel_id)
  | _ => kernels mgr' = kernels mgr /\ kernels mgr !! kernel_id = None
  end.
Proof.
  intros r mgr mgr'. subst r mgr mgr'.
  unfold get_kernel, the_lock, the_log, the_kernel, the_handle.
  unfold import_libraries. rewrite import_code_run.
  cbv [bind ret lift new_object set_manager JupyterKernel_new emit start
       execute_raw].
  destruct (_kernel_locks (kernel_manager w) !! kernel_id) as [l|] eqn:El;
    cbn [default]; run_world;
    (destruct (kernels (kernel_manager w) !! kernel_id) as [k|] eqn:Ek;
     [|run_world;
       match goal with
       | |- context [boots w ?h] => destruct (boots w h) eqn:Eb
       end;
       [run_world;
        match goal with
        | |- context [read_replies ?p ?a] =>
            destruct (read_replies p a) as [[yielded rest] []]
        end|]]); run_world.
  all: split; [first [symmetry; apply insert_id; exact El | reflexivity]|].
  all: split;
    [first [ exists 0; rewrite app_nil_r; reflexivity
           | exists 5; cbn [take]; rewrite <- ?app_assoc; reflexivity
           | exists 1; reflexivity ]|].
  all: try (split; [first [symmetry; apply insert_id; exact Ek | reflexivity]|]).
  all: try (left; split; reflexivity).
  all: try (right; split; [reflexivity|split; [reflexivity|]];
            rewrite <- ?app_assoc; reflexivity).
  all: try (split; reflexivity).
Qed.

Lemma get_kernel_hit (kernel_id : string) (w : world) (l : nat)
    (k : JupyterKernel) :
  _kernel_locks (kernel_manager w) !! kernel_id = Some l ->
  kernels (kernel_manager w) !! kernel_id = Some k ->
  get_kernel kernel_id w = Done k w.
Proof.
  intros El Ek. unfold get_kernel. rewrite El, Ek. reflexivity.
Qed.

Lemma get_kernel_stored (kernel_id : string) (w w' : world)
    (k : JupyterKernel) :
  get_kernel kernel_id w = Done k w' ->
  kernels (kernel_manager w') !! kernel_id = Some k /\
  is_Some (_kernel_locks (kernel_manager w') !! kernel_id).
Proof.
  intros H. pose proof (get_kernel_spec kernel_id w) as Hs.
  cbv zeta in Hs. rewrite H in Hs. cbn [world_of] in Hs.
  destruct Hs as (Hl & _ & Hk & _).
  rewrite Hk, Hl, !lookup_insert_eq. eauto.
Qed.

(** X4. A kernel that [get_kernel] returns is the one registered under
    the identifier, and asking again returns the same kernel and leaves
    the world as it is: nothing is made, started or executed again. *)
Theorem get_kernel_again (kernel_id : string) (w w' : world)
    (k : JupyterKernel) :
  get_kernel kernel_id w = Done k w' ->
  kernels (kernel_manager w') !! kernel_id = Some k /\
  get_kernel kernel_id w' = Done k w'.
Proof.
  intros H. pose proof (get_kernel_spec kernel_id w) as Hs.
  cbv zeta in Hs. rewrite H in Hs. cbn [world_of] in Hs.
  destruct Hs as (Hl & _ & Hk & _).
  assert (kernels (kernel_manager w') !! kernel_id = Some k) as Hk'
    by (rewrite Hk; apply lookup_insert_eq).
  split; [exact Hk'|].
  apply (get_kernel_hit kernel_id w' (the_lock w kernel_id)); [|exact Hk'].
  rewrite Hl. apply lookup_insert_eq.
Qed.

Lemma get_kernel_again_witness :
  let idle := JObj [("msg_type", JStr "status");
                    ("content", JObj [("execution_state", JStr "idle")])] in
  let w := mkWorld (mkManager ∅ ∅) 0 (fun _ => true) (fun _ => [idle]) [] in
  let w' := world_of (get_kernel "s1" w) in
  get_kernel "s1" w = Done (the_kernel w "s1") w' /\
  get_kernel "s1" w' = Done (the_kernel w "s1") w'.
Proof.
  intros idle w w'.
  assert (get_kernel "s1" w = Done (the_kernel w "s1") w') as H
    by reflexivity.
  split; [exact H|].
  exact (proj2 (get_kernel_again "s1" w w' _ H)).
Defined.

(** X5. Whatever the outcome of [get_kernel] for an identifier, the
    kernels and locks of the other identifiers are untouched, the
    identifier has a lock afterwards, and the log has grown by a prefix of
    the effects of making one kernel: nothing is stopped or shut down.
    Unless the call returns, the kernels are as before: a kernel whose
    start or import fails or hangs is never registered. *)
Theorem get_kernel_frame (kernel_id : string) (w : world) :
  let r := get_kernel kernel_id w in
  let mgr := kernel_manager w in
  let mgr' := kernel_manager (world_of r) in
  (forall other, other <> kernel_id ->
     kernels mgr' !! other = kernels mgr !! other /\
     _kernel_locks mgr' !! other = _kernel_locks mgr !! other) /\
  is_Some (_kernel_locks mgr' !! kernel_id) /\
  (exists n, log (world_of r) = log w ++ take n (the_log w kernel_id)) /\
  ((forall k w', r <> Done k w') -> kernels mgr' = kernels mgr).
Proof.
  intros r mgr mgr'. subst r mgr mgr'.
  destruct (get_kernel_spec kernel_id w) as (Hl & Hlog & Hk).
  assert (kernels (kernel_manager (world_of (get_kernel kernel_id w))) =
            kernels (kernel_manager w) \/
          exists k, kernels (kernel_manager (world_of (get_kernel kernel_id w)))
                    = <[kernel_id := k]> (kernels (kernel_manager w)) /\
                    get_kernel kernel_id w =
                    Done k (world_of (get_kernel kernel_id w))) as Hc.
  { destruct (get_kernel kernel_id w) as [k w1|e w1|w1];
      cbn [world_of] in *; [right; exists k|left|left]; tauto. }
  split; [|split; [|split; [exact Hlog|]]].
  - intros other Hne. rewrite Hl.
    rewrite lookup_insert_ne by congruence. split; [|reflexivity].
    destruct Hc as [->|(k & -> & _)]; [reflexivity|].
    apply lookup_insert_ne. congruence.
  - rewrite Hl, lookup_insert_eq. eauto.
  - intros Hnot. destruct Hc as [Hc|(k & _ & Hd)]; [exact Hc|].
    exfalso. exact (Hnot _ _ Hd).
Qed.


(** X6. Making a kernel for an identifier that has none and shutting the
    identifier down again gives back the kernels of before, leaves the
    identifier without a lock, and logs the making of the kernel followed
    by its shutdown. *)
Theorem create_then_shutdown (kernel_id : string) (w w1 : world)
    (k : JupyterKernel) :
  kernels (kernel_manager w) !! kernel_id = None ->
  get_kernel kernel_id w = Done k w1 ->
  exists w2,
    shutdown_kernel kernel_id w1 = Done tt w2 /\
    kernels (kernel_manager w2) = kernels (kernel_manager w) /\
    _kernel_locks (kernel_manager w2) =
      delete kernel_id (_kernel_locks (kernel_manager w)) /\
    log w2 = log w ++ the_log w kernel_id ++
             [StopChannels (the_handle w kernel_id);
              ShutdownKernel (the_handle w kernel_id)].
Proof.
  intros Hnone H. pose proof (get_kernel_spec kernel_id w) as Hs.
  cbv zeta in Hs. rewrite H in Hs. cbn [world_of] in Hs.
  destruct Hs as (Hl & _ & Hk & [[Hsome _]|(_ & -> & Hlog)]);
    [congruence|].
  unfold shutdown_kernel. rewrite Hk, lookup_insert_eq.
  unfold bind. rewrite shutdown_run. unfold set_manager.
  cbn [kernel_manager fresh boots iopub log]. eexists. split; [reflexivity|].
  cbn [kernel_manager kernels _kernel_locks log].
  rewrite Hk, Hl, lookup_insert_eq, Hlog.
  split; [apply delete_insert_id; exact Hnone|].
  split; [apply delete_insert_eq|].
  rewrite <- app_assoc. reflexivity.
Qed.

Lemma create_then_shutdown_witness :
  let idle := JObj [("msg_type", JStr "status");
                    ("content", JObj [("execution_state", JStr "idle")])] in
  let w := mkWorld (mkManager ∅ ∅) 0 (fun _ => true) (fun _ => [idle]) [] in
  let w1 := world_of (get_kernel "s1" w) in
  kernels (kernel_manager w) !! "s1" = None /\
  get_kernel "s1" w = Done (the_kernel w "s1") w1 /\
  exists w2,
    shutdown_kernel "s1" w1 = Done tt w2 /\
    kernels (kernel_manager w2) = kernels (kernel_manager w).
Proof.
  intros idle w w1.
  assert (kernels (kernel_manager w) !! "s1" = None) as Hnone by reflexivity.
  assert (get_kernel "s1" w = Done (the_kernel w "s1") w1) as H
    by reflexivity.
  split; [exact Hnone|]. split; [exact H|].
  destruct (create_then_shutdown "s1" w w1 _ Hnone H) as (w2 & H2 & Hk & _).
  exists w2. split; [exact H2 | exact Hk].
Defined.


Lemma shutdown_kernel_run (kernel_id : string) (w : world) :
  exists w',
    shutdown_kernel kernel_id w = Done tt w' /\
    kernels (kernel_manager w') = delete kernel_id (kernels (kernel_manager w)) /\
    (forall other,
       _kernel_locks (kernel_manager w') !! other =
       if decide (other = kernel_id)
       then match kernels (kernel_manager w) !! kernel_id with
            | Some _ => None
            | None => _kernel_locks (kernel_manager w) !! kernel_id
            end
       else _kernel_locks (kernel_manager w) !! other) /\
    log w' = log w ++ from_option shutdown_effects []
                        (kernels (kernel_manager w) !! kernel_id).
Proof.
  unfold shutdown_kernel.
  destruct (kernels (kernel_manager w) !! kernel_id) as [k|] eqn:Ek.
  - unfold bind. rewrite shutdown_run. unfold set_manager.
    cbn [kernel_manager fresh boots iopub log from_option].
    eexists. split; [reflexivity|].
    cbn [kernel_manager kernels _kernel_locks log].
    split; [reflexivity|]. split; [|reflexivity].
    intros other. destruct (decide (other = kernel_id)) as [->|Hne].
    + destruct (_kernel_locks (kernel_manager w) !! kernel_id) eqn:El;
        [apply lookup_delete_eq | exact El].
    + destruct (_kernel_locks (kernel_manager w) !! kernel_id);
        [apply lookup_delete_ne; congruence | reflexivity].
  - exists w. split; [reflexivity|]. split.
    + symmetry. apply delete_id. exact Ek.
    + split; [|cbn; rewrite app_nil_r; reflexivity].
      intros other. destruct (decide (other = kernel_id)) as [->|Hne];
        reflexivity.
Qed.

Lemma flat_map_agree {A B : Type} (f g : A -> list B) (l : list A) :
  (forall a, a ∈ l -> f a = g a) -> flat_map f l = flat_map g l.
Proof.
  induction l as [|a l IH]; intros H; [reflexivity|].
  cbn [flat_map]. rewrite (H a) by (apply elem_of_cons; left; reflexivity).
  rewrite IH; [reflexivity|]. intros b Hb. apply H. apply elem_of_cons. right. exact Hb.
Qed.

Lemma shutdown_all_run (keys : list string) :
  NoDup keys ->
  forall w, exists w',
    shutdown_all keys w = Done tt w' /\
    (forall id,
       kernels (kernel_manager w') !! id =
       if decide (id ∈ keys) then None else kernels (kernel_manager w) !! id) /\
    (forall id,
       _kernel_locks (kernel_manager w') !! id =
       if decide (id ∈ keys)
       then match kernels (kernel_manager w) !! id with
            | Some _ => None
            | None => _kernel_locks (kernel_manager w) !! id
            end
       else _kernel_locks (kernel_manager w) !! id) /\
    log w' = log w ++
             flat_map (fun id => from_option shutdown_effects []
                                   (kernels (kernel_manager w) !! id)) keys.
Proof.
  induction 1 as [|id0 rest Hnot Hnd IH]; intros w.
  - exists w. split; [reflexivity|]. cbn [flat_map]. rewrite app_nil_r.
    repeat split; intros id; rewrite decide_False by apply not_elem_of_nil;
      reflexivity.
  - destruct (shutdown_kernel_run id0 w) as (w1 & H1 & Hk1 & Hl1 & Hlog1).
    destruct (IH w1) as (w' & H' & Hk' & Hl' & Hlog').
    exists w'. cbn [shutdown_all]. unfold bind at 1. rewrite H1.
    split; [exact H'|]. split; [|split].
    + intros id. rewrite Hk', Hk1.
      destruct (decide (id = id0)) as [->|Hne].
      * rewrite lookup_delete_eq.
        destruct (decide (id0 ∈ rest)), (decide (id0 ∈ id0 :: rest)) as [|Hn];
          try reflexivity; exfalso; apply Hn, elem_of_cons; auto.
      * rewrite lookup_delete_ne by congruence.
        destruct (decide (id ∈ rest)) as [Hin|Hin],
                 (decide (id ∈ id0 :: rest)) as [Hc|Hc]; try reflexivity.
        -- exfalso. apply Hc, elem_of_cons. auto.
        -- apply elem_of_cons in Hc. destruct Hc; contradiction.
    + intros id. rewrite Hl', Hk1, !Hl1.
      destruct (decide (id = id0)) as [->|Hne].
      * destruct (decide (id0 ∈ rest)); [contradiction|].
        destruct (decide (id0 ∈ id0 :: rest)) as [|Hn]; [reflexivity|].
        exfalso. apply Hn, elem_of_cons. auto.
      * rewrite lookup_delete_ne by congruence.
        destruct (decide (id ∈ rest)) as [Hin|Hin],
                 (decide (id ∈ id0 :: rest)) as [Hc|Hc]; try reflexivity.
        -- exfalso. apply Hc, elem_of_cons. auto.
        -- apply elem_of_cons in Hc. destruct Hc; contradiction.
    + rewrite Hlog', Hlog1, <- app_assoc. cbn [flat_map]. do 2 f_equal.
      apply flat_map_agree. intros id Hin. rewrite Hk1.
      rewrite lookup_delete_ne; [reflexivity|]. intros ->. contradiction.
Qed.


(** X7. [shutdown_all], run over a snapshot that lists each identifier
    with a kernel once, returns with no kernel left: every kernel has
    been shut down exactly once, in the order of the snapshot, the locks
    of these identifiers are removed and the locks of identifiers without
    a kernel stay. *)
Theorem shutdown_all_clears (keys : list string) (w : world) :
  NoDup keys ->
  (forall id, id ∈ keys <-> is_Some (kernels (kernel_manager w) !! id)) ->
  exists w',
    shutdown_all keys w = Done tt w' /\
    kernels (kernel_manager w') = ∅ /\
    (forall id,
       _kernel_locks (kernel_manager w') !! id =
       match kernels (kernel_manager w) !! id with
       | Some _ => None
       | None => _kernel_locks (kernel_manager w) !! id
       end) /\
    log w' = log w ++
             flat_map (fun id => from_option shutdown_effects []
                                   (kernels (kernel_manager w) !! id)) keys.
Proof.
  intros Hnd Hkeys.
  destruct (shutdown_all_run keys Hnd w) as (w' & H & Hk & Hl & Hlog).
  exists w'. split; [exact H|]. split; [|split; [|exact Hlog]].
  - apply map_eq. intros id. rewrite Hk, lookup_empty.
    destruct (decide (id ∈ keys)) as [|Hn]; [reflexivity|].
    destruct (kernels (kernel_manager w) !! id) eqn:E; [|reflexivity].
    exfalso. apply Hn, Hkeys. eauto.
  - intros id. rewrite Hl. destruct (decide (id ∈ keys)) as [|Hn];
      [reflexivity|].
    destruct (kernels (kernel_manager w) !! id) eqn:E; [|reflexivity].
    exfalso. apply Hn, Hkeys. eauto.
Qed.

Lemma shutdown_all_clears_witness :
  let w := mkWorld (mkManager {[ "s1" := mkKernel 1 (Some 1) false ]}
                              {[ "s1" := 0; "s2" := 2 ]})
                   4 (fun _ => true) (fun _ => []) [] in
  NoDup ["s1"] /\
  exists w',
    shutdown_all ["s1"] w = Done tt w' /\
    kernels (kernel_manager w') = ∅ /\
    log w' = [StopChannels 1; ShutdownKernel 1].
Proof.
  intros w.
  assert (NoDup ["s1"]) as Hnd
    by (apply NoDup_singleton).
  assert (forall id, id ∈ ["s1"] <->
                     is_Some (kernels (kernel_manager w) !! id)) as Hkeys.
  { intros id. cbn [w kernel_manager kernels].
    rewrite list_elem_of_singleton. split.
    - intros ->. rewrite lookup_singleton_eq. eauto.
    - intros [k Hk]. apply lookup_singleton_Some in Hk. symmetry. tauto. }
  split; [exact Hnd|].
  destruct (shutdown_all_clears ["s1"] w Hnd Hkeys) as (w' & H & Hk & _ & Hlog).
  exists w'. split; [exact H|]. split; [exact Hk|]. exact Hlog.
Defined.


Lemma on_reply_continue (reply : json) (handed : bool) :
  on_reply reply = (handed, Continue) -> handed = true.
Proof.
  unfold on_reply. destruct (get reply "msg_type"); [|discriminate].
  destruct (eq_str a "status"); [|intros [= <-]; reflexivity].
  destruct (c ← getitem reply "content"; getitem c "execution_state");
    [|discriminate].
  destruct (eq_str (Some a0) "idle"); intros [= <-]; reflexivity.
Qed.

Lemma read_replies_idle (pending acc yielded rest : list json) :
  read_replies pending acc = (yielded, rest, Idle) ->
  exists front last,
    yielded = acc ++ front ++ [last] /\
    pending = front ++ last :: rest /\
    Session.idle last = true /\
    Forall (fun m => Session.idle m = false) front.
Proof.
  revert acc. induction pending as [|reply pending IH]; intros acc;
    [discriminate|].
  cbn [read_replies]. destruct (on_reply reply) as [handed next] eqn:E.
  destruct next as [| |e]; [| |discriminate].
  - rewrite (on_reply_continue _ _ E). intros H.
    destruct (IH _ H) as (front & last & -> & -> & Hlast & Hfront).
    exists (reply :: front), last. rewrite <- app_assoc.
    split; [reflexivity|]. split; [reflexivity|]. split; [exact Hlast|].
    constructor; [|exact Hfront]. unfold Session.idle. rewrite E. reflexivity.
  - rewrite (SessionFacts.on_reply_break _ _ E). intros [= <- <-].
    exists [], reply. split; [reflexivity|]. split; [reflexivity|].
    split; [|constructor]. unfold Session.idle. rewrite E. reflexivity.
Qed.

Lemma execute_raw_done (kernel : JupyterKernel) (code : string)
    (w w' : world) (msgs : list json) :
  execute_raw kernel code w = Done msgs w' ->
  exists h front last,
    kc kernel = Some h /\
    msgs = front ++ [last] /\
    Session.idle last = true /\
    Forall (fun m => Session.idle m = false) front /\
    iopub w h = msgs ++ iopub w' h /\
    (forall h', h' <> h -> iopub w' h' = iopub w h') /\
    log w' = log w ++ [Execute h code] /\
    kernel_manager w' = kernel_manager w.
Proof.
  unfold execute_raw. destruct (Service._execution_lock kernel);
    [discriminate|].
  destruct (kc kernel) as [h|]; [|discriminate].
  destruct (read_replies (iopub w h) []) as [[yielded rest] ending] eqn:E.
  destruct ending; [|discriminate..]. intros [= <- <-].
  destruct (read_replies_idle _ _ _ _ E) as (front & last & Hy & Hp & Hl & Hf).
  cbn [app] in Hy. exists h, front, last. cbn [iopub log kernel_manager].
  split; [reflexivity|]. split; [exact Hy|]. split; [exact Hl|].
  split; [exact Hf|]. split; [|split; [|split; reflexivity]].
  - rewrite fn_lookup_insert, Hp, Hy, <- app_assoc. reflexivity.
  - intros h' Hne. apply fn_lookup_insert_ne. congruence.
Qed.

(** X8. What [execute_raw] returns is what the channel of the kernel
    delivers up to and with the first [status] message whose
    [execution_state] is [idle]: the list ends with that message and has
    no other one like it, in the order of the channel. What follows
    stays on the channel, the other channels and the kernel manager are
    untouched, and one [execute] is logged. *)
Theorem execute_raw_until_idle (kernel : JupyterKernel) (code : string)
    (w w' : world) (msgs : list json) :
  execute_raw kernel code w = Done msgs w' ->
  exists h front last,
    kc kernel = Some h /\
    msgs = front ++ [last] /\
    Session.idle last = true /\
    Forall (fun m => Session.idle m = false) front /\
    iopub w h = msgs ++ iopub w' h /\
    (forall h', h' <> h -> iopub w' h' = iopub w h') /\
    log w' = log w ++ [Execute h code] /\
    kernel_manager w' = kernel_manager w.
Proof. apply execute_raw_done. Qed.

Lemma execute_raw_until_idle_witness :
  let busy := JObj [("msg_type", JStr "status");
                    ("content", JObj [("execution_state", JStr "busy")])] in
  let out := JObj [("msg_type", JStr "stream");
                   ("content", JObj [("text", JStr "1")])] in
  let idle := JObj [("msg_type", JStr "status");
                    ("content", JObj [("execution_state", JStr "idle")])] in
  let w := mkWorld (mkManager ∅ ∅) 1 (fun _ => true)
                   (fun _ => [busy; out; idle; busy]) [] in
  let kernel := mkKernel 0 (Some 0) false in
  let w' := world_of (execute_raw kernel "print(1)" w) in
  execute_raw kernel "print(1)" w = Done [busy; out; idle] w' /\
  iopub w' 0 = [busy].
Proof.
  intros busy out idle w kernel w'.
  assert (execute_raw kernel "print(1)" w = Done [busy; out; idle] w') as H
    by reflexivity.
  split; [exact H|].
  destruct (execute_raw_until_idle kernel "print(1)" w w' _ H)
    as (h & front & last & [= <-] & _ & _ & _ & Hio & _).
  exact (app_inv_head [busy; out; idle] _ _ (eq_sym Hio)).
Defined.


Lemma execute_python_code_done (request : ExecuteRequest) (w w' : world)
    (r : ExecuteResponse) :
  execute_python_code request w = Done r w' ->
  exists k w0,
    get_kernel (kernel_id request) w = Done k w0 /\
    execute_raw k (code request) w0 = Done (messages r) w' /\
    success r = true /\ error r = None.
Proof.
  unfold execute_python_code, bind, ret.
  destruct (get_kernel (kernel_id request) w) as [k w0|e w0|w0];
    [|discriminate..].
  destruct (execute_raw k (code request) w0) as [ms w1|e w1|w1] eqn:E;
    [|discriminate..].
  intros [= <- <-]. exists k, w0. auto.
Qed.

Lemma execute_raw_world (k : JupyterKernel) (h : nat) (code : string)
    (w : world) :
  Service._execution_lock k = false -> kc k = Some h ->
  let w' := world_of (execute_raw k code w) in
  kernel_manager w' = kernel_manager w /\ fresh w' = fresh w /\
  log w' = log w ++ [Execute h code].
Proof.
  intros Hl Hk. unfold execute_raw. rewrite Hl, Hk.
  destruct (read_replies (iopub w h) []) as [[yielded rest] []];
    cbn; auto.
Qed.

(** X9. After a python request that succeeded, a further python request
    for the same identifier runs on the kernel registered for it: however
    the request ends, the kernel manager is as before, no object has been
    made, and the log has grown by the one [execute] of the new code on
    that kernel. *)
Theorem kernel_is_reused (first next : ExecuteRequest) (w w1 : world)
    (r : ExecuteResponse) :
  execute_python_code first w = Done r w1 ->
  kernel_id next = kernel_id first ->
  exists k h,
    kernels (kernel_manager w1) !! kernel_id first = Some k /\
    kc k = Some h /\
    let w2 := world_of (execute_python_code next w1) in
    kernel_manager w2 = kernel_manager w1 /\
    fresh w2 = fresh w1 /\
    log w2 = log w1 ++ [Execute h (code next)].
Proof.
  intros H Hid.
  destruct (execute_python_code_done _ _ _ _ H) as (k & w0 & Hg & Hx & _).
  destruct (get_kernel_stored _ _ _ _ Hg) as [Hk [l Hl]].
  assert (Service._execution_lock k = false) as Hfree.
  { unfold execute_raw in Hx. destruct (Service._execution_lock k);
      [discriminate | reflexivity]. }
  destruct (execute_raw_done _ _ _ _ _ Hx)
    as (h & _ & _ & Hkc & _ & _ & _ & _ & _ & _ & Hm).
  exists k, h. rewrite Hm. split; [exact Hk|]. split; [exact Hkc|].
  assert (get_kernel (kernel_id first) w1 = Done k w1) as Hg1.
  { apply (get_kernel_hit _ _ l); rewrite Hm; assumption. }
  unfold execute_python_code, bind. rewrite Hid, Hg1.
  pose proof (execute_raw_world k h (code next) w1 Hfree Hkc) as Hw.
  cbv zeta in Hw. rewrite <- Hm.
  destruct (execute_raw k (code next) w1); exact Hw.
Qed.

Lemma kernel_is_reused_witness :
  let idle := JObj [("msg_type", JStr "status");
                    ("content", JObj [("execution_state", JStr "idle")])] in
  let w := mkWorld (mkManager ∅ ∅) 0 (fun _ => true)
                   (fun _ => [idle; idle]) [] in
  let first := mkRequest "s1" "x = 1" "python" in
  let next := mkRequest "s1" "print(x)" "python" in
  let w1 := world_of (execute_python_code first w) in
  execute_python_code first w = Done (mkResponse true [idle] None) w1 /\
  kernel_id next = kernel_id first /\
  log (world_of (execute_python_code next w1)) =
  log w1 ++ [Execute 1 "print(x)"].
Proof.
  intros idle w first next w1.
  assert (execute_python_code first w = Done (mkResponse true [idle] None) w1)
    as H by reflexivity.
  split; [exact H|]. split; [reflexivity|].
  destruct (kernel_is_reused first next w w1 _ H eq_refl)
    as (k & h & Hk & Hkc & _ & _ & Hlog).
  assert (k = mkKernel 1 (Some 1) false) as -> by (injection Hk; auto).
  injection Hkc as <-. exact Hlog.
Defined.


Lemma execute_python_code_ends (request : ExecuteRequest) (w w' : world)
    (r : ExecuteResponse) :
  execute_python_code request w = Done r w' ->
  success r = true /\ error r = None /\
  exists front last,
    messages r = front ++ [last] /\ Session.idle last = true /\
    Forall (fun m => Session.idle m = false) front.
Proof.
  intros H.
  destruct (execute_python_code_done _ _ _ _ H) as (k & w0 & _ & Hx & Hs & He).
  destruct (execute_raw_done _ _ _ _ _ Hx)
    as (h & front & last & _ & Hm & Hl & Hf & _).
  split; [exact Hs|]. split; [exact He|]. exists front, last. auto.
Qed.

(** X10. Whatever the request and the state of the service, [POST
    /execute] answers with status 200 and a response model, or the
    request never ends: no exception leaves the route function. The
    model either reports success, with no error text and with messages
    that end with the idle status message and hold no other one, or
    reports failure with no messages and the formatted traceback of the
    exception that was caught. *)
Theorem post_execute_never_fails (traceback_body : exn -> string)
    (request : ExecuteRequest) (w : world) :
  post_execute traceback_body request w = NoReply \/
  exists r,
    post_execute traceback_body request w = Reply 200 (Model r) /\
    (success r = true /\ error r = None /\
     (exists front last,
        messages r = front ++ [last] /\ Session.idle last = true /\
        Forall (fun m => Session.idle m = false) front)
     \/
     success r = false /\ messages r = [] /\
     exists e, error r = Some (format_exc traceback_body e)).
Proof.
  unfold post_execute, execute_code.
  set (body := if String.eqb (language request) "python" then _ else _).
  assert (forall r w', body w = Done r w' ->
            success r = true /\ error r = None /\
            exists front last,
              messages r = front ++ [last] /\ Session.idle last = true /\
              Forall (fun m => Session.idle m = false) front) as Hdone.
  { subst body. intros r w'.
    destruct (String.eqb (language request) "python");
      [apply execute_python_code_ends|].
    destruct (String.eqb (language request) "bash"); [|discriminate].
    apply (execute_python_code_ends
             (mkRequest (kernel_id request) (jupyter_code (code request))
                        "python")). }
  destruct (body w) as [r w'|e w'|w'] eqn:E; cbn [respond].
  - right. exists r. split; [reflexivity|]. left. exact (Hdone r w' eq_refl).
  - right. eexists. split; [reflexivity|]. right. cbn. eauto.
  - left. reflexivity.
Qed.

End LifecycleFacts.

(** ** What the callers of [execute_raw] receive *)

Module DeliveryFacts.
Import Py Service Session Delivery SessionFacts.

Lemma handed_over_app (t1 t2 : list event) :
  handed_over (t1 ++ t2) = handed_over t1 ++ handed_over t2.
Proof. apply flat_map_app. Qed.

Lemma step_delivery (t : turn) (s s' : state) (consumed : list json) :
  handed_over (trace s) = List.filter readable consumed ->
  step t s = Some s' ->
  exists more,
    channel s = more ++ channel s' /\
    handed_over (trace s') = List.filter readable (consumed ++ more).
Proof.
  intros Hh Hstep. unfold step in Hstep.
  destruct (tasks s !! call_of t) as [p|]; [|discriminate].
  cbn [mbind option_bind] in Hstep.
  destruct (step_task t p s) as [[p' s1]|] eqn:Hst; [|discriminate].
  cbn [mbind option_bind] in Hstep. injection Hstep as <-.
  cbn [channel trace].
  destruct t as [i|i], p as [code| | | |e]; cbn [step_task] in Hst;
    try discriminate.
  - destruct (_execution_lock s); [discriminate|]. injection Hst as <- <-.
    exists []. cbn [channel trace]. rewrite handed_over_app, app_nil_r, Hh.
    cbn. rewrite app_nil_r. auto.
  - destruct (channel s) as [|reply rest] eqn:Ech; [discriminate|].
    destruct (on_reply reply) as [handed next] eqn:Er.
    assert (readable reply = handed) as Hr by (unfold readable; rewrite Er; reflexivity).
    exists [reply].
    destruct next; injection Hst as <- <-; cbn [channel trace];
      rewrite ?handed_over_app, Hh, List.filter_app; cbn [List.filter];
      rewrite Hr; (split; [reflexivity|]); destruct handed; cbn;
      rewrite ?app_nil_r; reflexivity.
  - injection Hst as <- <-. exists []. rewrite app_nil_r. auto.
  - injection Hst as <- <-. exists []. cbn [channel trace].
    rewrite handed_over_app, app_nil_r, Hh. cbn. rewrite app_nil_r. auto.
Qed.

Lemma run_delivery (schedule : list turn) (s : state) (consumed : list json) :
  handed_over (trace s) = List.filter readable consumed ->
  exists more,
    channel s = more ++ channel (run schedule s) /\
    handed_over (trace (run schedule s)) =
    List.filter readable (consumed ++ more).
Proof.
  revert s consumed. induction schedule as [|t rest IH]; intros s consumed Hh.
  - exists []. rewrite app_nil_r. auto.
  - cbn [run]. destruct (step t s) as [s'|] eqn:E; [|apply IH; exact Hh].
    destruct (step_delivery _ _ _ _ Hh E) as (m1 & Hc1 & Hh1).
    destruct (IH _ _ Hh1) as (m2 & Hc2 & Hh2).
    exists (m1 ++ m2). rewrite Hc1, Hc2, <- !app_assoc.
    split; [reflexivity|]. rewrite Hh2, <- app_assoc. reflexivity.
Qed.

Lemma sound_readable (reply : json) : sound reply = true -> readable reply = true.
Proof.
  unfold sound, readable. destruct (on_reply reply) as [handed next] eqn:E.
  cbn. destruct next; [intros _|intros _|discriminate].
  - exact (LifecycleFacts.on_reply_continue _ _ E).
  - exact (on_reply_break _ _ E).
Qed.


(** X11. Calls of [execute_raw] made together on one kernel, under every
    order of turns and cancellations: the replies handed over, in the
    order of the trace and whichever call hands them over, are the
    replies taken from the channel, in the order of the channel, without
    those whose type cannot be read. Nothing is handed over twice,
    skipped or out of order, and what was not taken is still on the
    channel: the replies that a cancelled call left are read by the next
    one. With replies on which the loop body raises nothing, the replies
    handed over followed by the channel are the replies of the start. *)
Theorem replies_delivered_in_order
    (pending : list json) (codes : list string) (schedule : list turn) :
  let s := run schedule (init pending codes) in
  (exists taken,
     pending = taken ++ channel s /\
     handed_over (trace s) = List.filter readable taken) /\
  (forallb sound pending = true ->
   pending = handed_over (trace s) ++ channel s).
Proof.
  intros s.
  destruct (run_delivery schedule (init pending codes) [] eq_refl)
    as (taken & Hc & Hh).
  fold s in Hc, Hh. cbn [init channel app] in Hc, Hh.
  split; [exists taken; auto|].
  intros Hsound. rewrite Hh. rewrite Hc at 1. f_equal.
  rewrite Hc, forallb_app in Hsound. apply andb_true_iff in Hsound.
  destruct Hsound as [Hs _]. clear -Hs.
  induction taken as [|r taken IH]; [reflexivity|].
  cbn [forallb] in Hs. apply andb_true_iff in Hs. destruct Hs as [Hr Hs].
  cbn [List.filter]. rewrite (sound_readable r Hr), <- IH by exact Hs.
  reflexivity.
Qed.


Lemma replies_delivered_in_order_witness :
  let status := fun st : string =>
    JObj [("msg_type", JStr "status");
          ("content", JObj [("execution_state", JStr st)])] in
  let pending := [status "busy"; status "idle"; status "busy"; status "idle"] in
  let s := run [Run 0; Run 0; Cancel 0; Run 1; Run 1; Run 1]
               (init pending ["a"; "b"]) in
  forallb sound pending = true /\
  pending = handed_over (trace s) ++ channel s /\
  handed_over (trace s) = [status "busy"; status "idle"].
Proof.
  intros status pending s.
  assert (forallb sound pending = true) as H by reflexivity.
  split; [exact H|]. split; [|reflexivity].
  exact (proj2 (replies_delivered_in_order pending ["a"; "b"]
                  [Run 0; Run 0; Cancel 0; Run 1; Run 1; Run 1]) H).
Defined.

End DeliveryFacts.

(** ** The tool list of a tagged client *)

Module MiddlewareFacts.
Import Middleware.

Lemma overlaps_spec (tags_var : list string) (tool : Tool) :
  overlaps tags_var tool = true <->
  exists tag, tag ∈ tags_var /\ tag ∈ tags tool.
Proof.
  unfold overlaps. rewrite bool_decide_eq_true. split.
  - intros H. apply set_choose_L in H. destruct H as [tag H].
    apply elem_of_intersection in H. destruct H as [H1 H2].
    apply elem_of_list_to_set in H1. eauto.
  - intros (tag & H1 & H2) He.
    assert (tag ∈ (list_to_set tags_var ∩ tags tool : gset string)) as Hin.
    { apply elem_of_intersection. split; [|exact H2].
      apply elem_of_list_to_set. exact H1. }
    rewrite He in Hin. exact (not_elem_of_empty tag Hin).
Qed.

Lemma untagged_overlaps (tags_var : list string) (tool : Tool) :
  untagged tool = true -> overlaps tags_var tool = false.
Proof.
  intros Hu. apply bool_decide_eq_true in Hu.
  apply not_true_is_false. intros H. apply overlaps_spec in H.
  destruct H as (tag & _ & H). rewrite Hu in H.
  exact (not_elem_of_empty tag H).
Qed.

Lemma filter_all {A : Type} (f : A -> bool) (l : list A) :
  (forall a, In a l -> f a = true) -> List.filter f l = l.
Proof.
  induction l as [|a l IH]; intros H; [reflexivity|].
  cbn [List.filter]. rewrite (H a) by (left; reflexivity).
  rewrite IH; [reflexivity|]. intros b Hb. apply H. right. exact Hb.
Qed.

Lemma filter_none {A : Type} (f : A -> bool) (l : list A) :
  (forall a, In a l -> f a = false) -> List.filter f l = [].
Proof.
  induction l as [|a l IH]; intros H; [reflexivity|].
  cbn [List.filter]. rewrite (H a) by (left; reflexivity).
  apply IH. intros b Hb. apply H. right. exact Hb.
Qed.

Lemma filter_split (tags_var : list string) (tools : list Tool) :
  List.filter (overlaps tags_var) tools ++ List.filter untagged tools ≡ₚ
  List.filter (fun t => overlaps tags_var t || untagged t) tools.
Proof.
  induction tools as [|t tools IH]; [reflexivity|].
  cbn [List.filter]. destruct (untagged t) eqn:Eu.
  - rewrite (untagged_overlaps tags_var t Eu). cbn [orb].
    rewrite <- Permutation_middle. constructor. exact IH.
  - rewrite orb_false_r. destruct (overlaps tags_var t).
    + cbn [app]. constructor. exact IH.
    + exact IH.
Qed.


Lemma on_list_tools_some (tag : string) (rest : list string)
    (tools : list Tool) :
  on_list_tools (Some (tag :: rest)) tools =
  List.filter (overlaps (tag :: rest)) tools ++ List.filter untagged tools.
Proof. reflexivity. Qed.

Lemma filter_sublist {A : Type} (f : A -> bool) (l : list A) :
  List.filter f l `sublist_of` l.
Proof.
  induction l as [|a l IH]; [constructor|]. cbn [List.filter].
  destruct (f a); [apply sublist_skip | apply sublist_cons]; exact IH.
Qed.

Lemma filter_Forall {A : Type} (f : A -> bool) (P : A -> Prop) (l : list A) :
  (forall a, f a = true -> P a) -> Forall P (List.filter f l).
Proof.
  intros H. induction l as [|a l IH]; [constructor|]. cbn [List.filter].
  destruct (f a) eqn:E; [constructor; auto | exact IH].
Qed.

(** X12. With no tags asked ([None] or an empty list) the tool list is
    returned as it is. With tags, a tool is listed exactly when it has no
    tag or shares a tag with those asked; the result is a rearrangement
    of the tools that qualify, so that no tool is listed more often than
    before; and it lists the tagged tools first and the tools without
    tags after them, each group in the order of the tool list. *)
Theorem on_list_tools_shows (tags_var : option (list string))
    (tools : list Tool) :
  let shown := on_list_tools tags_var tools in
  (default [] tags_var = [] -> shown = tools) /\
  (default [] tags_var <> [] ->
   shown ≡ₚ List.filter (fun t => overlaps (default [] tags_var) t
                                   || untagged t) tools /\
   (forall t, In t shown <->
              In t tools /\
              (tags t = ∅ \/
               exists tag, tag ∈ default [] tags_var /\ tag ∈ tags t)) /\
   (NoDup tools -> NoDup shown) /\
   (exists tagged plain,
      shown = tagged ++ plain /\
      Forall (fun t => tags t <> ∅) tagged /\
      Forall (fun t => tags t = ∅) plain /\
      tagged `sublist_of` tools /\ plain `sublist_of` tools)).
Proof.
  intros shown. subst shown. split.
  - destruct tags_var as [[|tag rest]|]; cbn [default]; try discriminate;
      reflexivity.
  - destruct tags_var as [[|tag rest]|]; cbn [default]; try contradiction.
    intros _. rewrite on_list_tools_some.
    pose proof (filter_split (tag :: rest) tools) as Hp.
    split; [exact Hp|]. split; [|split].
    + intros t. rewrite in_app_iff, !filter_In, overlaps_spec.
      unfold untagged. rewrite bool_decide_eq_true. tauto.
    + intros Hnd. rewrite Hp. apply NoDup_ListNoDup, List.NoDup_filter,
        NoDup_ListNoDup. exact Hnd.
    + exists (List.filter (overlaps (tag :: rest)) tools),
             (List.filter untagged tools).
      split; [reflexivity|]. split; [|split; [|split; apply filter_sublist]].
      * apply filter_Forall. intros t Ho Hu.
        rewrite untagged_overlaps in Ho; [discriminate|].
        apply bool_decide_eq_true. exact Hu.
      * apply filter_Forall. intros t Hu.
        apply bool_decide_eq_true in Hu. exact Hu.
Qed.

Lemma on_list_tools_shows_witness :
  let plain := mkTool "help" ∅ in
  let py := mkTool "execute_code" {[ "python" ]} in
  let sh := mkTool "run_shell" {[ "bash" ]} in
  default [] (Some ["python"]) <> [] /\
  on_list_tools (Some ["python"]) [plain; py; sh] = [py; plain] /\
  NoDup (on_list_tools (Some ["python"]) [plain; py; sh]).
Proof.
  intros plain py sh.
  assert (default [] (Some ["python"]) <> []) as Hne by discriminate.
  split; [exact Hne|]. split; [reflexivity|].
  apply (proj1 (proj2 (proj2
           (proj2 (on_list_tools_shows (Some ["python"]) [plain; py; sh])
                  Hne)))).
  apply NoDup_cons_2; [|apply NoDup_cons_2; [|apply NoDup_singleton]].
  - intros H. apply elem_of_cons in H. destruct H as [H|H]; [discriminate|].
    apply list_elem_of_singleton in H. discriminate.
  - intros H. apply list_elem_of_singleton in H. discriminate.
Defined.

(** X13. Filtering a filtered tool list again with the same tags changes
    nothing. *)
Theorem on_list_tools_idempotent (tags_var : option (list string))
    (tools : list Tool) :
  on_list_tools tags_var (on_list_tools tags_var tools) =
  on_list_tools tags_var tools.
Proof.
  destruct tags_var as [[|tag rest]|]; try reflexivity.
  rewrite !on_list_tools_some. set (ts := tag :: rest).
  rewrite !List.filter_app. 
  rewrite (filter_all (overlaps ts) (List.filter (overlaps ts) tools))
    by (intros a Ha; apply filter_In in Ha; tauto).
  rewrite (filter_none (overlaps ts) (List.filter untagged tools))
    by (intros a Ha; apply filter_In in Ha; apply untagged_overlaps; tauto).
  rewrite (filter_all untagged (List.filter untagged tools))
    by (intros a Ha; apply filter_In in Ha; tauto).
  rewrite (filter_none untagged (List.filter (overlaps ts) tools)).
  - rewrite app_nil_r. reflexivity.
  - intros a Ha. apply filter_In in Ha. destruct Ha as [_ Ha].
    destruct (untagged a) eqn:E; [|reflexivity].
    rewrite (untagged_overlaps ts a E) in Ha. discriminate.
Qed.

End MiddlewareFacts.

(** ** The parser of tool results *)

Module AgentFacts.
Import Py PyFacts Translator Agent.

Lemma append_assoc (a b c : string) : (a +:+ b) +:+ c = a +:+ (b +:+ c).
Proof.
  induction a as [|x a IH]; [rewrite !app_nil; reflexivity|].
  rewrite !app_cons, IH. reflexivity.
Qed.

Section ParserFacts.

Variable repr : json -> string.

Lemma parse_outputs_acc (acc : string) (l : list json) :
  parse_outputs repr acc l = (s ← parse_outputs repr "" l; Ok (acc +:+ s)).
Proof.
  revert acc. induction l as [|o l IH]; intros acc.
  - cbn. rewrite app_empty_r. reflexivity.
  - cbn [parse_outputs].
    destruct (getitem o "mime_type") as [mt|e]; [|reflexivity].
    cbn [mbind res_bind].
    destruct (contains "image" mt) as [[|]|e]; cbn [mbind res_bind];
      [| |reflexivity].
    + rewrite IH. rewrite (IH ("" +:+ _)).
      destruct (parse_outputs repr "" l); cbn [mbind res_bind];
        [|reflexivity].
      rewrite app_nil, !append_assoc. reflexivity.
    + destruct (getitem o "content") as [c|e]; [|reflexivity].
      cbn [mbind res_bind]. rewrite IH. rewrite (IH ("" +:+ _)).
      destruct (parse_outputs repr "" l); cbn [mbind res_bind];
        [|reflexivity].
      rewrite app_nil, !append_assoc. reflexivity.
Qed.

Lemma parse_outputs_app (acc : string) (l1 l2 : list json) :
  parse_outputs repr acc (l1 ++ l2) =
  (s ← parse_outputs repr acc l1; parse_outputs repr s l2).
Proof.
  revert acc. induction l1 as [|o l1 IH]; intros acc; [reflexivity|].
  cbn [app parse_outputs].
  destruct (getitem o "mime_type") as [mt|e]; [|reflexivity].
  cbn [mbind res_bind].
  destruct (contains "image" mt) as [[|]|e]; cbn [mbind res_bind];
    [apply IH| |reflexivity].
  destruct (getitem o "content") as [c|e]; [|reflexivity].
  cbn [mbind res_bind]. apply IH.
Qed.

(** X14. The text of a list of outputs is the text of its first part
    followed by the text of the rest, whatever the outputs are; when the
    parser fails on an output, it fails with the first such failure. *)
Theorem code_execution_parser_app (l1 l2 : list json) :
  code_execution_parser repr (JObj [("result", JArr (l1 ++ l2))]) =
  (a ← code_execution_parser repr (JObj [("result", JArr l1)]);
   b ← code_execution_parser repr (JObj [("result", JArr l2)]);
   Ok (a +:+ b)).
Proof.
  unfold code_execution_parser.
  change (getitem (JObj [("result", JArr (l1 ++ l2))]) "result")
    with (Ok (JArr (l1 ++ l2))).
  change (getitem (JObj [("result", JArr l1)]) "result") with (Ok (JArr l1)).
  change (getitem (JObj [("result", JArr l2)]) "result") with (Ok (JArr l2)).
  cbn [mbind res_bind iter]. rewrite parse_outputs_app.
  destruct (parse_outputs repr "" l1) as [a|e]; cbn [mbind res_bind];
    [|reflexivity].
  apply parse_outputs_acc.
Qed.

Lemma getitem_dump_mime (o : KernelOutput) :
  getitem (dump o) "mime_type" = Ok (JStr (mime_type o)).
Proof. reflexivity. Qed.

Lemma getitem_dump_content (o : KernelOutput) :
  getitem (dump o) "content" = Ok (JStr (content o)).
Proof. reflexivity. Qed.

Lemma blind_mime (o : KernelOutput) : mime_type (blind o) = mime_type o.
Proof. unfold blind. destruct (str_in "image" (mime_type o)); reflexivity. Qed.

Lemma parse_outputs_blind (acc : string) (outs : list KernelOutput) :
  exists s,
    parse_outputs repr acc (map dump outs) = Ok s /\
    parse_outputs repr acc (map dump (map blind outs)) = Ok s.
Proof.
  revert acc. induction outs as [|o outs IH]; intros acc;
    [exists acc; split; reflexivity|].
  cbn [map parse_outputs].
  rewrite !getitem_dump_mime, !getitem_dump_content, blind_mime.
  cbn [mbind res_bind contains Relay.py_str].
  destruct (str_in "image" (mime_type o)) eqn:E; [apply IH|].
  assert (content (blind o) = content o) as ->
    by (unfold blind; rewrite E; reflexivity).
  apply IH.
Qed.

(** X15. On the structured content of a tool result the parser never
    fails, and its text does not depend on the content of the outputs
    whose mime type contains [image], nor on the error flags: an image
    never reaches the text, and an error reads like any other output. *)
Theorem code_execution_parser_redacts (outs : list KernelOutput) :
  exists s,
    code_execution_parser repr (structured outs) = Ok s /\
    code_execution_parser repr (structured (map blind outs)) = Ok s.
Proof.
  unfold code_execution_parser, structured.
  change (getitem (JObj [("result", JArr (map dump outs))]) "result")
    with (Ok (JArr (map dump outs))).
  change (getitem (JObj [("result", JArr (map dump (map blind outs)))])
            "result")
    with (Ok (JArr (map dump (map blind outs)))).
  cbn [mbind res_bind iter]. apply parse_outputs_blind.
Qed.

End ParserFacts.

End AgentFacts.

(** ** Concurrent callers of [get_kernel], whatever the kernels do *)

Module GuardFacts.
Import Py Service Loop LoopFacts Pool Lifecycle Guard PoolFacts.

Lemma count_insert (f : pc -> bool) (ts : list pc) (i : nat) (p p' : pc) :
  ts !! i = Some p ->
  length (List.filter f (<[i := p']> ts)) + (if f p then 1 else 0) =
  length (List.filter f ts) + (if f p' then 1 else 0).
Proof.
  revert i. induction ts as [|q ts IH]; intros [|i]; simpl;
    try discriminate.
  - intros [= ->]. destruct (f p), (f p'); simpl; lia.
  - intros H. specialize (IH i H). destruct (f q); simpl; lia.
Qed.

Lemma start_world (k : JupyterKernel) (cwd : string) (w : world) :
  match start k cwd w with
  | Done k' w' =>
      kernel_manager w' = kernel_manager w /\ fresh w' = fresh w /\
      log w' = log w ++ [StartKernel (km k) cwd; StartChannels (km k);
                         WaitForReady (km k)]
  | Raised e w' => w' = w
  | Blocked _ => False
  end.
Proof.
  unfold start. destruct (boots w (km k)); [|reflexivity].
  cbv [bind emit ret]. cbn [kernel_manager fresh boots iopub log].
  rewrite <- !app_assoc. auto.
Qed.

Lemma import_world (k : JupyterKernel) (w : world) :
  let w' := world_of (import_libraries k KERNEL_LIBRARIES w) in
  kernel_manager w' = kernel_manager w /\ fresh w' = fresh w /\
  exists added,
    log w' = log w ++ added /\
    List.filter is_new added = [] /\ List.filter is_end added = [].
Proof.
  unfold import_libraries. rewrite import_code_run.
  cbv [bind lift ret execute_raw].
  destruct (Service._execution_lock k);
    [cbn; repeat split; exists []; rewrite app_nil_r; auto|].
  destruct (kc k) as [h|];
    [|cbn; repeat split; exists []; rewrite app_nil_r; auto].
  destruct (read_replies (iopub w h) []) as [[yielded rest] []]; cbn;
    repeat split; eexists; split; try reflexivity; auto.
Qed.

Lemma tasks_update_safe kernel_id w0 (w w' : world) (ts : list pc) (i : nat)
    (p' : pc) :
  task_safe kernel_id w0 w' p' ->
  (forall j q, j <> i -> ts !! j = Some q ->
     task_safe kernel_id w0 w q -> task_safe kernel_id w0 w' q) ->
  (forall j q, ts !! j = Some q -> task_safe kernel_id w0 w q) ->
  forall j q, <[i := p']> ts !! j = Some q -> task_safe kernel_id w0 w' q.
Proof.
  intros Hp' Hmove Hold j q H. apply list_lookup_insert_Some in H.
  destruct H as [(-> & <- & _)|(Hne & H)]; [exact Hp'|].
  apply (Hmove j q); [congruence | exact H | eauto].
Qed.

Lemma task_safe_same kernel_id w0 (w w' : world) (q : pc) :
  kernels (kernel_manager w') = kernels (kernel_manager w) ->
  task_safe kernel_id w0 w q -> task_safe kernel_id w0 w' q.
Proof. intros H. destruct q; cbn [task_safe]; rewrite ?H; auto. Qed.

Ltac made_count Hm Hcf Hcm :=
  cbn [failed making] in Hcf, Hcm;
  rewrite ?List.filter_app, ?length_app; cbn [List.filter is_new length];
  lia.

Lemma step_safe kernel_id w0 s po o i s' :
  safe kernel_id w0 s po o -> step kernel_id i s = Some s' ->
  exists po' o', safe kernel_id w0 s' po' o'.
Proof.
  intros [Ht Hpl Hpo Hh Ho Hl Hot Hk Hm He] Hstep.
  unfold step in Hstep.
  destruct (tasks s !! i) as [p|] eqn:Hi; [|discriminate].
  cbn [mbind option_bind] in Hstep.
  destruct (step_task kernel_id p s) as [[p' s1]|] eqn:Hst; [|discriminate].
  cbn [mbind option_bind] in Hstep. injection Hstep as <-.
  pose proof (Ht i p Hi) as Hp.
  destruct s as [w lk hd ts]. cbn [wld _lock held tasks] in *.
  pose proof (count_insert failed ts i p p' Hi) as Hcf.
  pose proof (count_insert making ts i p p' Hi) as Hcm.
  exists (next_owner in_pool i p p' po), (next_owner crit i p p' o).
  destruct p; cbn [step_task wld _lock held tasks] in Hst.
  - (* AtPoolLock *)
    destruct lk; [discriminate|]. injection Hst as <- <-.
    assert (po = None) as ->.
    { destruct po; [|reflexivity]. rewrite bool_decide_true in Hpl by eauto.
      discriminate. }
    split; cbn [wld _lock held tasks].
    + eapply tasks_update_safe; [exact I| |exact Ht]. auto.
    + reflexivity.
    + apply owns_update; auto; discriminate.
    + exact Hh.
    + apply owns_update; auto. discriminate.
    + eapply locks_ok_update; [exact Hl|]. auto.
    + exact Hot.
    + exact Hk.
    + made_count Hm Hcf Hcm.
    + exact He.
  - (* InPoolLock *)
    destruct (_kernel_locks (kernel_manager w) !! kernel_id) as [l|] eqn:El;
      injection Hst as <- <-; cbn [wld _lock held tasks].
    + unfold locks_ok in Hl. cbn [wld] in Hl. rewrite El in Hl.
      split; cbn [wld _lock held tasks].
      * eapply tasks_update_safe; [exact Hl| |exact Ht]. auto.
      * reflexivity.
      * apply owns_update; auto. discriminate.
      * exact Hh.
      * apply owns_update; auto. discriminate.
      * unfold locks_ok. cbn [wld]. rewrite El. exact Hl.
      * exact Hot.
      * exact Hk.
      * made_count Hm Hcf Hcm.
      * exact He.
    + unfold locks_ok in Hl. cbn [wld tasks] in Hl.
      rewrite El in Hl. destruct Hl as (Hl0 & Hfr & Hall).
      assert (fresh w = the_lock w0 kernel_id) as HL.
      { unfold the_lock. rewrite Hl0. exact Hfr. }
      split; cbn [wld _lock held tasks kernel_manager _kernel_locks kernels
                  log].
      * eapply tasks_update_safe; [exact HL| |exact Ht].
        intros j q _ _. apply task_safe_same. reflexivity.
      * reflexivity.
      * apply owns_update; auto. discriminate.
      * exact Hh.
      * apply owns_update; auto. discriminate.
      * unfold locks_ok. cbn [wld kernel_manager _kernel_locks].
        rewrite lookup_insert_eq. exact HL.
      * exact Hot.
      * exact Hk.
      * made_count Hm Hcf Hcm.
      * exact He.
  - (* AtIdLock *)
    destruct (decide (lock ∈ hd)) as [|Hfree]; [discriminate|].
    injection Hst as <- <-. cbn [wld _lock held tasks]. cbn [task_safe] in Hp.
    subst lock.
    assert (o = None) as ->.
    { destruct o; [|reflexivity]. exfalso. apply Hfree. rewrite Hh.
      apply elem_of_singleton_2. reflexivity. }
    subst hd. split; cbn [wld _lock held tasks].
    + eapply tasks_update_safe; [reflexivity| |exact Ht]. auto.
    + exact Hpl.
    + apply owns_update; auto. discriminate.
    + apply union_empty_r_L.
    + apply owns_update; auto.
    + eapply locks_ok_made; eauto; discriminate.
    + exact Hot.
    + exact Hk.
    + made_count Hm Hcf Hcm.
    + exact He.
  - (* InIdLock *)
    cbn [task_safe] in Hp. subst lock.
    assert (o = Some i) as -> by (apply Ho; eauto).
    subst hd.
    case_eq (kernels (kernel_manager w) !! kernel_id); [intros k Ek|intros Ek];
      rewrite Ek in Hst.
    + injection Hst as <- <-. split; cbn [wld _lock held tasks].
      * eapply tasks_update_safe; [exact Ek| |exact Ht]. auto.
      * exact Hpl.
      * apply owns_update; auto. discriminate.
      * apply difference_diag_L.
      * apply owns_update; auto. discriminate.
      * eapply locks_ok_made; eauto; discriminate.
      * exact Hot.
      * exact Hk.
      * made_count Hm Hcf Hcm.
      * exact He.
    + rewrite new_run in Hst. injection Hst as <- <-.
      split; cbn [wld _lock held tasks kernel_manager kernels _kernel_locks
                  log].
      * eapply tasks_update_safe; [split; [reflexivity|exact Ek]| |exact Ht].
        intros j q _ _. apply task_safe_same. reflexivity.
      * exact Hpl.
      * apply owns_update; auto. discriminate.
      * reflexivity.
      * apply owns_update; auto; discriminate.
      * eapply locks_ok_made; eauto; discriminate.
      * exact Hot.
      * exact Hk.
      * made_count Hm Hcf Hcm.
      * rewrite List.filter_app. cbn. rewrite app_nil_r. exact He.
  - (* Starting *)
    cbn [task_safe] in Hp. destruct Hp as [-> Ek].
    assert (o = Some i) as -> by (apply Ho; eauto).
    subst hd. pose proof (start_world kernel "/workspace" w) as Hw.
    destruct (start kernel "/workspace" w) as [k' w'|e w'|w'];
      [|subst w'|discriminate]; injection Hst as <- <-.
    + destruct Hw as (Hkm & Hfr & Hlog).
      split; cbn [wld _lock held tasks]; rewrite ?Hkm.
      * eapply tasks_update_safe;
          [split; [reflexivity|rewrite Hkm; exact Ek]| |exact Ht].
        intros j q _ _. apply task_safe_same. rewrite Hkm. reflexivity.
      * exact Hpl.
      * apply owns_update; auto. discriminate.
      * reflexivity.
      * apply owns_update; auto; discriminate.
      * eapply locks_ok_made; eauto; try discriminate;
          try (rewrite Hkm; reflexivity).
      * exact Hot.
      * exact Hk.
      * rewrite Hlog. made_count Hm Hcf Hcm.
      * rewrite Hlog, List.filter_app. cbn. rewrite app_nil_r. exact He.
    + split; cbn [wld _lock held tasks].
      * eapply tasks_update_safe; [exact I| |exact Ht]. auto.
      * exact Hpl.
      * apply owns_update; auto. discriminate.
      * apply difference_diag_L.
      * apply owns_update; auto. discriminate.
      * eapply locks_ok_made; eauto; discriminate.
      * exact Hot.
      * exact Hk.
      * made_count Hm Hcf Hcm.
      * exact He.
  - (* Importing *)
    cbn [task_safe] in Hp. destruct Hp as [-> Ek].
    assert (o = Some i) as -> by (apply Ho; eauto).
    subst hd.
    destruct (import_world kernel w) as (Hkm & Hfr & added & Hlog & Hn & Hend).
    destruct (import_libraries kernel KERNEL_LIBRARIES w) as [[] w'|e w'|w'];
      [| |discriminate]; cbn [world_of] in *; injection Hst as <- <-.
    + split; cbn [wld _lock held tasks with_manager kernel_manager kernels
                  _kernel_locks log]; rewrite ?Hkm.
      * eapply tasks_update_safe; [apply lookup_insert_eq| |exact Ht].
        intros j q Hne Hj Hq.
        assert (crit q = false) as Hc
          by (eapply (owns_other crit _ i j _ q);
              [exact Ho | exact Hi | reflexivity | exact Hj | exact Hne]).
        destruct q; cbn [task_safe] in *; try discriminate; auto.
        congruence.
      * exact Hpl.
      * apply owns_update; auto. discriminate.
      * apply difference_diag_L.
      * apply owns_update; auto. discriminate.
      * eapply locks_ok_made; eauto; try discriminate;
          try (cbn [kernel_manager _kernel_locks]; rewrite Hkm; reflexivity).
      * intros other Hne. rewrite lookup_insert_ne by congruence.
        apply Hot. exact Hne.
      * intros k Hk0. specialize (Hk k Hk0). congruence.
      * rewrite lookup_insert_eq. rewrite Ek in Hm.
        destruct (kernels (kernel_manager w0) !! kernel_id) as [k0|] eqn:E0;
          [specialize (Hk k0 eq_refl); congruence|].
        rewrite Hlog, List.filter_app, Hn, app_nil_r.
        made_count Hm Hcf Hcm.
      * rewrite Hlog, List.filter_app, Hend, app_nil_r. exact He.
    + split; cbn [wld _lock held tasks]; rewrite ?Hkm.
      * eapply tasks_update_safe; [exact I| |exact Ht].
        intros j q _ _. apply task_safe_same. rewrite Hkm. reflexivity.
      * exact Hpl.
      * apply owns_update; auto. discriminate.
      * apply difference_diag_L.
      * apply owns_update; auto. discriminate.
      * eapply locks_ok_made; eauto; try discriminate;
          try (rewrite Hkm; reflexivity).
      * exact Hot.
      * exact Hk.
      * rewrite Hlog, List.filter_app, Hn, app_nil_r.
        made_count Hm Hcf Hcm.
      * rewrite Hlog, List.filter_app, Hend, app_nil_r. exact He.
  - discriminate.
  - discriminate.
Qed.


Lemma init_safe kernel_id (w0 : world) (n : nat) :
  safe kernel_id w0 (init w0 n) None None.
Proof.
  assert (forall i p, replicate n AtPoolLock !! i = Some p -> p = AtPoolLock)
    as Hall by (intros i p H; apply lookup_replicate in H; tauto).
  assert (forall f, f AtPoolLock = false ->
            List.filter f (replicate n AtPoolLock) = []) as Hnone.
  { intros f Hf. induction n as [|n IH]; [reflexivity|].
    cbn [replicate List.filter]. rewrite Hf. apply IH.
    intros i p H. apply (Hall (S i)). exact H. }
  split; unfold init; cbn [wld _lock held tasks].
  - intros i p H. rewrite (Hall i p H). exact I.
  - reflexivity.
  - intros i. split; [|discriminate].
    intros (p & H & Hp). rewrite (Hall i p H) in Hp. discriminate.
  - reflexivity.
  - intros i. split; [|discriminate].
    intros (p & H & Hp). rewrite (Hall i p H) in Hp. discriminate.
  - unfold locks_ok. cbn [wld tasks].
    destruct (_kernel_locks (kernel_manager w0) !! kernel_id) eqn:E.
    + unfold the_lock. rewrite E. reflexivity.
    + split; [reflexivity|]. split; [reflexivity|]. eauto.
  - reflexivity.
  - auto.
  - rewrite !Hnone by reflexivity.
    destruct (kernels (kernel_manager w0) !! kernel_id); cbn; lia.
  - reflexivity.
Qed.

Lemma run_safe kernel_id w0 (schedule : list nat) (s : state) :
  (exists po o, safe kernel_id w0 s po o) ->
  exists po o, safe kernel_id w0 (run kernel_id schedule s) po o.
Proof.
  revert s. induction schedule as [|i rest IH]; intros s H; [exact H|].
  cbn [run]. destruct (step kernel_id i s) as [s'|] eqn:E; apply IH;
    [|exact H].
  destruct H as (po & o & H). exact (step_safe _ _ _ _ _ _ _ H E).
Qed.


(** X16. Calls of [get_kernel] for one identifier made together, under
    every order of turns and whatever the kernels do (start or not,
    answer the import, fail on it or never answer): one call at a time is
    between taking and leaving the lock of the identifier; every call
    that has returned holds the kernel registered under the identifier,
    so that no two calls return different kernels; a kernel that was
    registered before stays, and the kernels of the other identifiers are
    untouched. *)
Theorem get_kernel_never_two
    (kernel_id : string) (w0 : world) (n : nat) (schedule : list nat) :
  let s := run kernel_id schedule (init w0 n) in
  (forall i j p q,
     tasks s !! i = Some p -> tasks s !! j = Some q ->
     crit p = true -> crit q = true -> i = j) /\
  (forall i k,
     tasks s !! i = Some (Returned k) ->
     kernels (kernel_manager (wld s)) !! kernel_id = Some k) /\
  (forall i j k k',
     tasks s !! i = Some (Returned k) -> tasks s !! j = Some (Returned k') ->
     k = k') /\
  (forall k, kernels (kernel_manager w0) !! kernel_id = Some k ->
     kernels (kernel_manager (wld s)) !! kernel_id = Some k) /\
  (forall other, other <> kernel_id ->
     kernels (kernel_manager (wld s)) !! other =
     kernels (kernel_manager w0) !! other).
Proof.
  intros s.
  destruct (run_safe kernel_id w0 schedule (init w0 n)) as (po & o & H).
  { exists None, None. apply init_safe. }
  fold s in H. destruct H as [Ht _ _ _ Ho _ Hot Hk _ _].
  assert (forall i k, tasks s !! i = Some (Returned k) ->
            kernels (kernel_manager (wld s)) !! kernel_id = Some k) as Hret
    by (intros i k Hi; exact (Ht i _ Hi)).
  split; [|split; [exact Hret|split; [|split; [exact Hk | exact Hot]]]].
  - intros i j p q Hi Hj Hp Hq.
    assert (o = Some i) as H1 by (apply Ho; eauto).
    assert (o = Some j) as H2 by (apply Ho; eauto).
    congruence.
  - intros i j k k' Hi Hj. apply Hret in Hi, Hj. congruence.
Qed.

(** X17. Under the same runs, [get_kernel] never stops or shuts down a
    kernel, and the kernels it has created are counted by the calls: one
    for every call that failed, one for the call that is making a kernel,
    and one if a kernel has been registered for an identifier that had
    none. A kernel whose start or import fails is thus left behind, and
    the next call creates another. *)
Theorem get_kernel_leaves_failed_kernels
    (kernel_id : string) (w0 : world) (n : nat) (schedule : list nat) :
  let s := run kernel_id schedule (init w0 n) in
  List.filter is_end (log (wld s)) = List.filter is_end (log w0) /\
  length (List.filter is_new (log (wld s))) =
  length (List.filter is_new (log w0)) +
  length (List.filter failed (tasks s)) +
  length (List.filter making (tasks s)) +
  match kernels (kernel_manager w0) !! kernel_id,
        kernels (kernel_manager (wld s)) !! kernel_id with
  | None, Some _ => 1
  | _, _ => 0
  end.
Proof.
  intros s.
  destruct (run_safe kernel_id w0 schedule (init w0 n)) as (po & o & H).
  { exists None, None. apply init_safe. }
  fold s in H. destruct H as [_ _ _ _ _ _ _ _ Hm He]. auto.
Qed.

End GuardFacts.

(** ** From the tool to the kernel and back *)

Module ToolFacts.
Import Py PyFacts Translator Service Lifecycle Tool ServiceFacts PoolFacts
       LifecycleFacts.

Lemma on_reply_throw (reply : json) (handed : bool) (e : exn) :
  on_reply reply = (handed, Throw e) -> is_http e = false.
Proof.
  unfold on_reply, get, getitem.
  destruct reply as [| | | | | |m]; try (intros [= _ <-]; reflexivity).
  destruct (eq_str (dict_get m "msg_type") "status"); [|discriminate].
  destruct (dict_get m "content") as [c|]; cbn [mbind res_bind];
    [|intros [= _ <-]; reflexivity].
  destruct c as [| | | | | |d]; try (intros [= _ <-]; reflexivity).
  destruct (dict_get d "execution_state") as [st|];
    [|intros [= _ <-]; reflexivity].
  destruct (eq_str (Some st) "idle"); discriminate.
Qed.

Lemma read_replies_fails (pending acc yielded rest : list json) (e : exn) :
  read_replies pending acc = (yielded, rest, Fails e) -> is_http e = false.
Proof.
  revert acc. induction pending as [|reply pending IH]; intros acc;
    [discriminate|].
  cbn [read_replies]. destruct (on_reply reply) as [handed next] eqn:E.
  destruct next as [| |e']; [apply IH|discriminate|].
  intros [= _ _ <-]. exact (on_reply_throw _ _ _ E).
Qed.

Lemma execute_raw_raises (k : JupyterKernel) (code : string) (w w' : world)
    (e : exn) :
  execute_raw k code w = Raised e w' -> is_http e = false.
Proof.
  unfold execute_raw. destruct (Service._execution_lock k); [discriminate|].
  destruct (kc k) as [h|]; [|intros [= <- _]; reflexivity].
  destruct (read_replies (iopub w h) []) as [[yielded rest] ending] eqn:E.
  destruct ending; try discriminate. intros [= <- _].
  exact (read_replies_fails _ _ _ _ _ E).
Qed.

Lemma get_kernel_raises (kernel_id : string) (w w' : world) (e : exn) :
  get_kernel kernel_id w = Raised e w' -> is_http e = false.
Proof.
  unfold get_kernel, import_libraries. rewrite import_code_run.
  cbv [bind ret lift new_object set_manager JupyterKernel_new emit start
       execute_raw].
  destruct (_kernel_locks (kernel_manager w) !! kernel_id) as [l|];
    run_world;
    (destruct (kernels (kernel_manager w) !! kernel_id) as [k|];
     [discriminate|]);
    run_world;
    match goal with
    | |- context [boots w ?h] => destruct (boots w h)
    end; try (intros [= <- _]; reflexivity);
    run_world;
    match goal with
    | |- context [read_replies ?p ?a] =>
        destruct (read_replies p a) as [[yielded rest] ending] eqn:E
    end;
    destruct ending; try discriminate; intros [= <- _];
    exact (read_replies_fails _ _ _ _ _ E).
Qed.

Lemma execute_python_code_raises (request : ExecuteRequest) (w w' : world)
    (e : exn) :
  execute_python_code request w = Raised e w' -> is_http e = false.
Proof.
  unfold execute_python_code, bind, ret.
  destruct (get_kernel (kernel_id request) w) as [k w0|e0 w0|w0] eqn:Eg;
    [|intros [= <- _]; exact (get_kernel_raises _ _ _ _ Eg)|discriminate].
  destruct (execute_raw k (code request) w0) as [ms w1|e1 w1|w1] eqn:Ex;
    [discriminate| |discriminate].
  intros [= <- _]. exact (execute_raw_raises _ _ _ _ _ Ex).
Qed.

Lemma to_json_success (r : ExecuteResponse) :
  getitem (to_json r) "success" = Ok (JBool (success r)).
Proof. reflexivity. Qed.

Lemma to_json_messages (r : ExecuteResponse) :
  getitem (to_json r) "messages" = Ok (JArr (messages r)).
Proof. reflexivity. Qed.

Lemma to_json_error (r : ExecuteResponse) (dflt : json) :
  Relay.get_default (to_json r) "error" dflt =
  Ok (match error r with Some e => JStr e | None => JNull end).
Proof. reflexivity. Qed.

Lemma listed_language_runs (traceback_body : exn -> string)
    (language : Language) (code : string) (context_id : string)
    (w w' : world) (r : ExecuteResponse) :
  Service.execute_code traceback_body
    (mkRequest context_id code (value language)) w = Done r w' ->
  success r = true \/
  success r = false /\
  exists e, is_http e = false /\
            error r = Some (format_exc traceback_body e).
Proof.
  unfold Service.execute_code. cbn [Service.language].
  assert (exists request,
            (if String.eqb (value language) "python"
             then execute_python_code
                    (mkRequest context_id code (value language))
             else if String.eqb (value language) "bash"
                  then execute_shell_code
                         (mkRequest context_id code (value language))
                  else raise (HTTPException 400
                                ("Unsupported language: " +:+ value language)))
            = execute_python_code request) as [request ->].
  { destruct language; cbn [value].
    - eexists. reflexivity.
    - exists (mkRequest context_id (jupyter_code code) "python").
      reflexivity. }
  destruct (execute_python_code request w) as [r0 w0|e w0|w0] eqn:E;
    [| |discriminate].
  - intros [= <- _]. left.
    destruct (execute_python_code_done _ _ _ _ E) as (_ & _ & _ & _ & H & _).
    exact H.
  - intros [= <- _]. right. split; [reflexivity|]. exists e.
    split; [exact (execute_python_code_raises _ _ _ _ E) | reflexivity].
Qed.

(** X18. A call of the tool [execute_code] that the service answers:
    the language sent is the value of a [Language] member, so the answer
    is never the one for an unsupported language. Either the kernel ran
    the code, and the tool returns exactly when the messages of the
    response can be translated, with their translation; or the service
    caught an exception of the kernel, and the tool raises [Execution
    failed:] followed by the traceback that the service formatted. *)
Theorem tool_call_outcome (traceback_body : exn -> string)
    (repr : json -> string) (base_url : string)
    (post : string -> json -> Relay.post_result)
    (language : Language) (code context_id : string) (w : world)
    (text : res string) (r : ExecuteResponse) :
  post_execute traceback_body (mkRequest context_id code (value language)) w
    = Reply 200 (Model r) ->
  post (base_url +:+ "/execute")
       (Relay.payload_of context_id code (value language))
    = Relay.PostResponse 200 text (Ok (to_json r)) ->
  let result :=
    Tool.execute_code repr base_url post language code context_id in
  success r = true /\
  (forall outs, result = Ok outs <->
                _process_messages (JArr (messages r)) = Ok outs)
  \/
  success r = false /\
  exists e,
    is_http e = false /\
    result = Raise (Exception ("Execution failed: " +:+
                               format_exc traceback_body e)).
Proof.
  intros Hserved Hpost result. subst result. unfold Tool.execute_code.
  rewrite (RelayFacts.execute_code_200 _ _ _ _ _ _ _ _ Hpost).
  rewrite to_json_success. cbn [mbind res_bind truthy].
  unfold post_execute in Hserved.
  destruct (Service.execute_code traceback_body
              (mkRequest context_id code (value language)) w)
    as [r0 w0|e w0|w0] eqn:E; cbn [respond] in Hserved;
    [|destruct e; discriminate|discriminate].
  injection Hserved as ->.
  destruct (listed_language_runs _ _ _ _ _ _ _ E)
    as [Hs|(Hs & e & He & Herr)]; rewrite Hs; cbn [negb].
  - left. split; [reflexivity|]. intros outs.
    rewrite to_json_messages. cbn [mbind res_bind].
    apply RelayFacts.except_ClientError_Ok.
  - right. split; [reflexivity|]. exists e. split; [exact He|].
    rewrite to_json_error, Herr. reflexivity.
Qed.

Lemma tool_call_outcome_witness :
  let idle := JObj [("msg_type", JStr "status");
                    ("content", JObj [("execution_state", JStr "idle")])] in
  let out := JObj [("msg_type", JStr "stream");
                   ("content", JObj [("text", JStr "2")])] in
  let w := mkWorld (mkManager ∅ ∅) 0 (fun _ => true)
                   (fun _ => [idle; out; idle]) [] in
  let r := mkResponse true [out; idle] None in
  let post := fun (_ : string) (_ : json) =>
    Relay.PostResponse 200 (Ok "") (Ok (to_json r)) in
  post_execute (fun _ => "") (mkRequest "s1" "print(2)" (value PYTHON)) w
    = Reply 200 (Model r) /\
  Tool.execute_code (fun _ => "") "http://localhost:8060" post PYTHON
    "print(2)" "s1" = Ok [mkOutput "text/plain" "2" false].
Proof.
  intros idle out w r post.
  assert (post_execute (fun _ => "")
            (mkRequest "s1" "print(2)" (value PYTHON)) w
          = Reply 200 (Model r)) as Hserved by reflexivity.
  split; [exact Hserved|].
  destruct (tool_call_outcome (fun _ => "") (fun _ => "")
              "http://localhost:8060" post PYTHON "print(2)" "s1" w
              (Ok "") r Hserved eq_refl) as [[_ H]|[H _]];
    [|discriminate].
  apply H. reflexivity.
Defined.

End ToolFacts.

(** ** White space around shell code *)

Module StripFacts.
Import Py PyFacts Service ServiceFacts.

Lemma lstrip_space (s : string) : all_space s = true -> lstrip s = "".
Proof.
  induction s as [|c s IH]; [reflexivity|]. cbn [all_space lstrip].
  intros H. apply andb_true_iff in H. destruct H as [-> H]. auto.
Qed.

Lemma rstrip_space (s : string) : all_space s = true -> rstrip s = "".
Proof.
  induction s as [|c s IH]; [reflexivity|]. cbn [all_space rstrip].
  intros H. apply andb_true_iff in H. destruct H as [-> H].
  rewrite (IH H). reflexivity.
Qed.

Lemma rstrip_app_space (s post : string) :
  all_space post = true -> rstrip (s +:+ post) = rstrip s.
Proof.
  intros H. induction s as [|c s IH].
  - rewrite app_nil. apply rstrip_space. exact H.
  - rewrite app_cons. cbn [rstrip]. rewrite IH. reflexivity.
Qed.

Lemma lstrip_app_space (pre s : string) :
  all_space pre = true -> lstrip (pre +:+ s) = lstrip s.
Proof.
  induction pre as [|c pre IH]; [rewrite app_nil; reflexivity|].
  cbn [all_space]. intros H. apply andb_true_iff in H. destruct H as [Hc H].
  rewrite app_cons. cbn [lstrip]. rewrite Hc. auto.
Qed.

Lemma strip_app_space (s post : string) :
  all_space post = true -> strip (s +:+ post) = strip s.
Proof.
  intros H. unfold strip. induction s as [|c s IH].
  - rewrite app_nil, (lstrip_space post H). reflexivity.
  - rewrite app_cons. cbn [lstrip]. destruct (is_space c); [exact IH|].
    rewrite <- app_cons. apply rstrip_app_space. exact H.
Qed.

Lemma lstrip_fix (t : string) : starts_space t = false -> lstrip t = t.
Proof. destruct t as [|c t]; [reflexivity|]. simpl. intros ->. reflexivity. Qed.

Lemma rstrip_fix (t : string) : ends_space t = false -> rstrip t = t.
Proof.
  induction t as [|c t IH]; [reflexivity|].
  destruct t as [|d t].
  - simpl. intros ->. reflexivity.
  - intros H. change (ends_space (String c (String d t)))
      with (ends_space (String d t)) in H.
    change (rstrip (String c (String d t)))
      with (match rstrip (String d t) with
            | EmptyString => if is_space c then "" else String c ""
            | x => String c x
            end).
    rewrite (IH H). reflexivity.
Qed.

(** X19. White space around the code of a [bash] request does not count:
    [strip] gives the same for the code with white space added before and
    after it, and stripping twice is stripping once, so that the cell
    sent to the kernel, and with it the whole request, is the same. A
    single command followed by newlines is thus still run with [!]. *)
Theorem shell_code_padding (pre code post : string) (kernel_id : string)
    (w : world) :
  all_space pre = true -> all_space post = true ->
  strip (pre +:+ code +:+ post) = strip code /\
  strip (strip code) = strip code /\
  jupyter_code (pre +:+ code +:+ post) = jupyter_code code /\
  execute_shell_code (mkRequest kernel_id (pre +:+ code +:+ post) "bash") w =
  execute_shell_code (mkRequest kernel_id code "bash") w.
Proof.
  intros Hpre Hpost.
  assert (strip (pre +:+ code +:+ post) = strip code) as H.
  { unfold strip. rewrite lstrip_app_space by exact Hpre.
    apply strip_app_space. exact Hpost. }
  split; [exact H|]. split; [|split].
  - destruct (strip_spec code) as (a & b & _ & _ & _ & Hst & Hen).
    unfold strip at 1. rewrite (lstrip_fix _ Hst). apply rstrip_fix, Hen.
  - unfold jupyter_code. rewrite H. reflexivity.
  - unfold execute_shell_code. cbn [Service.code Service.kernel_id].
    rewrite H. reflexivity.
Qed.

Lemma shell_code_padding_witness :
  let pre := " " in
  let post := newline +:+ newline in
  all_space pre = true /\ all_space post = true /\
  jupyter_code (pre +:+ "ls -l" +:+ post) = "!ls -l".
Proof.
  intros pre post.
  assert (all_space pre = true) as Hpre by reflexivity.
  assert (all_space post = true) as Hpost by reflexivity.
  split; [exact Hpre|]. split; [exact Hpost|].
  exact (proj1 (proj2 (proj2
           (shell_code_padding pre "ls -l" post "s1"
              (mkWorld (mkManager ∅ ∅) 0 (fun _ => true) (fun _ => []) [])
              Hpre Hpost)))).
Defined.

End StripFacts.

(** ** How the translator fails *)

Module FailuresFacts.
Import Py PyFacts Translator TranslatorFacts Failures.

Lemma getitem_raises (v : json) (k : string) (e : exn) :
  getitem v k = Raise e -> e = TypeError \/ e = KeyError k.
Proof.
  destruct v as [| | | | | |d]; cbn [getitem]; try (intros [= <-]; auto).
  destruct (dict_get d k); [discriminate|]. intros [= <-]. auto.
Qed.

Lemma new_raises (mt : string) (v : json) (b : bool) (e : exn) :
  KernelOutput_new mt v b = Raise e -> e = ValidationError.
Proof. destruct v; cbn; congruence. Qed.

Lemma all_str_raises (l : list json) (e : exn) :
  all_str l = Raise e -> e = TypeError.
Proof.
  induction l as [|x l IH]; [discriminate|].
  destruct x; cbn [all_str]; try congruence.
  destruct (all_str l); cbn [mbind res_bind]; [discriminate|].
  intros [= <-]. apply IH. reflexivity.
Qed.

Lemma join_raises (sep : string) (v : json) (e : exn) :
  join sep v = Raise e -> e = TypeError.
Proof.
  unfold join. destruct v; cbn [iter mbind res_bind]; try congruence;
    match goal with
    | |- context [all_str ?l] =>
        destruct (all_str l) eqn:E; cbn [mbind res_bind];
        [discriminate | intros [= <-]; exact (all_str_raises _ _ E)]
    end.
Qed.

Ltac step_raise H :=
  lazymatch type of H with
  | (?x ≫= _) = Raise _ =>
      let E := fresh "E" in
      destruct x eqn:E; cbn [mbind res_bind] in H
  end.

Lemma process_message_raises (results : list KernelOutput) (message : json)
    (e : exn) :
  process_message results message = Raise e -> translator_error e = true.
Proof.
  unfold process_message.
  destruct message as [| | | | | |m]; try (intros [= <-]; reflexivity).
  cbn [get mbind res_bind].
  destruct (eq_str (dict_get m "msg_type") "stream").
  { intros H. step_raise H;
      [|injection H as <-; destruct (getitem_raises _ _ _ E) as [->| ->];
        reflexivity].
    step_raise H;
      [|injection H as <-; destruct (getitem_raises _ _ _ E0) as [->| ->];
        reflexivity].
    step_raise H; [discriminate|].
    injection H as <-. rewrite (new_raises _ _ _ _ E1). reflexivity. }
  destruct (eq_str (dict_get m "msg_type") "display_data" ||
            eq_str (dict_get m "msg_type") "execute_result").
  { intros H. step_raise H;
      [|injection H as <-; destruct (getitem_raises _ _ _ E) as [->| ->];
        reflexivity].
    step_raise H;
      [|injection H as <-; destruct (getitem_raises _ _ _ E0) as [->| ->];
        reflexivity].
    destruct a0 as [| | | | | |data]; try (injection H as <-; reflexivity).
    rewrite (select_refines results data) in H. unfold emit in H.
    destruct (spec_choice data) as [[mt v]|];
      [|injection H as <-; reflexivity].
    step_raise H; [discriminate|].
    injection H as <-. rewrite (new_raises _ _ _ _ E1). reflexivity. }
  destruct (eq_str (dict_get m "msg_type") "error"); [|discriminate].
  intros H. step_raise H;
    [|injection H as <-; destruct (getitem_raises _ _ _ E) as [->| ->];
      reflexivity].
  step_raise H;
    [|injection H as <-; destruct (getitem_raises _ _ _ E0) as [->| ->];
      reflexivity].
  step_raise H; [discriminate|].
  injection H as <-. rewrite (join_raises _ _ _ E1). reflexivity.
Qed.

(** X20. A translation that fails does so with an [AttributeError], a
    [TypeError] or a [ValidationError], or with the [KeyError] of one of
    the keys [content], [text], [data], [traceback] and [text/plain],
    which are read without a test. It never fails with an [IndexError]
    nor on a representation whose key was found in the data: the lookups
    behind a membership test are safe. *)
Theorem translator_failures (messages : json) (e : exn) :
  _process_messages messages = Raise e -> translator_error e = true.
Proof.
  unfold _process_messages.
  destruct (iter messages) as [items|e'] eqn:Ei; cbn [mbind res_bind].
  - clear Ei. generalize (@nil KernelOutput) as results.
    induction items as [|m items IH]; intros results; [discriminate|].
    cbn [process_loop].
    destruct (process_message results m) as [r|e'] eqn:Em;
      cbn [mbind res_bind]; [apply IH|].
    intros [= <-]. exact (process_message_raises _ _ _ Em).
  - intros [= <-]. destruct messages; try discriminate;
      cbn in Ei; injection Ei as <-; reflexivity.
Qed.

Lemma translator_failures_witness :
  let shown := JObj [("msg_type", JStr "display_data");
                     ("content",
                      JObj [("data", JObj [("application/pdf", JStr "x")])])] in
  _process_messages (JArr [shown]) = Raise (KeyError "text/plain") /\
  translator_error (KeyError "text/plain") = true.
Proof.
  intros shown.
  assert (_process_messages (JArr [shown]) = Raise (KeyError "text/plain"))
    as H by reflexivity.
  split; [exact H|]. exact (translator_failures _ _ H).
Defined.

End FailuresFacts.

(** ** The HTTP session of the client *)

Module HttpFacts.
Import Http.

Lemma new_session_tidy (c : client) :
  tidy c ->
  (forall s, session c = Some s -> s ∈ closed c) ->
  tidy (mkClient (Some (length (made c))) (made c ++ [length (made c)])
                 (closed c)).
Proof.
  intros (Hm & Hc & Hs & Ho) Hcur. unfold tidy. cbn [made closed session].
  rewrite length_app. cbn [length]. rewrite Nat.add_1_r.
  split; [|split; [|split]].
  - rewrite seq_S, <- Hm. reflexivity.
  - intros s H. specialize (Hc s H). lia.
  - intros s [= <-]. lia.
  - intros s Hlt Hn. destruct (decide (s = length (made c))) as [->|Hne];
      [reflexivity|].
    exfalso. apply Hn, Hcur, Ho; [lia | exact Hn].
Qed.

Lemma perform_tidy (op : call) (c : client) : tidy c -> tidy (perform op c).
Proof.
  intros H. destruct op; cbn [perform].
  - unfold _get_session, is_closed. destruct (session c) as [s|] eqn:Es.
    + destruct (bool_decide_reflect (s ∈ closed c)) as [Hin|Hout];
        [|exact H].
      cbn [snd]. apply new_session_tidy; [exact H|]. congruence.
    + cbn [snd]. apply new_session_tidy; [exact H|]. congruence.
  - unfold close, is_closed. destruct (session c) as [s|] eqn:Es; [|exact H].
    destruct (bool_decide_reflect (s ∈ closed c)) as [Hin|Hout];
      cbn [negb]; [exact H|].
    destruct H as (Hm & Hc & Hs & Ho). unfold tidy.
    cbn [made closed session]. rewrite ?Es. rewrite ?Es in Hs, Ho.
    split; [exact Hm|]. split; [|split; [exact Hs|]].
    + intros x Hx. apply elem_of_union in Hx. destruct Hx as [Hx|Hx]; [|auto].
      apply elem_of_singleton in Hx. subst x. auto.
    + intros x Hlt Hx. apply Ho; [exact Hlt|].
      intros Hin. apply Hx, elem_of_union. auto.
Qed.

Lemma perform_all_tidy (ops : list call) (c : client) :
  tidy c -> tidy (perform_all ops c).
Proof.
  revert c. induction ops as [|op ops IH]; intros c H; [exact H|].
  apply IH, perform_tidy, H.
Qed.

Lemma new_tidy : tidy ContainerKernelClient_new.
Proof.
  repeat split; cbn; try (intros; lia); try discriminate.
Qed.

(** X21. After any sequence of requests and closings, the client has no
    open session besides the current one: every session it ever made is
    closed or is the one in use, and no session was made twice. A
    request runs on a session that is not closed and re-opens none: on
    the current session, with nothing changed, when that one is open,
    and on a session made for it, which was not there before, when there
    is no session or the current one is closed. After [close] every
    session made is closed, and no session is made by it. *)
Theorem client_keeps_one_session (ops : list call) :
  let c := perform_all ops ContainerKernelClient_new in
  (forall s, s ∈ made c -> s ∉ closed c -> session c = Some s) /\
  NoDup (made c) /\
  (((_get_session c).1 ∉ closed (_get_session c).2) /\
   session (_get_session c).2 = Some (_get_session c).1 /\
   closed (_get_session c).2 = closed c /\
   (made (_get_session c).2 = made c \/
    (made (_get_session c).2 = made c ++ [(_get_session c).1] /\
     ((_get_session c).1 ∉ made c) /\
     forall s0, session c = Some s0 -> s0 ∈ closed c)) /\
   (forall s0, session c = Some s0 -> s0 ∉ closed c ->
      _get_session c = (s0, c)) /\
   ((forall s0, session c = Some s0 -> s0 ∈ closed c) ->
    made (_get_session c).2 = made c ++ [(_get_session c).1] /\
    ((_get_session c).1 ∉ made c))) /\
  ((forall s, s ∈ made (close c) -> s ∈ closed (close c)) /\
   made (close c) = made c /\ session (close c) = session c /\
   closed c ⊆ closed (close c)).
Proof.
  intros c. pose proof (perform_all_tidy ops _ new_tidy) as H. fold c in H.
  assert (forall c0 s, tidy c0 -> s ∈ made c0 -> s < length (made c0)) as Hin.
  { intros c0 s (Hm & _) Hs. rewrite Hm in Hs.
    apply list_elem_of_In, in_seq in Hs. lia. }
  split; [|split; [|split]].
  - intros s Hs Hn. destruct H as (Hm & Hc & Hcur & Ho).
    apply Ho; [|exact Hn]. apply (Hin c); [repeat split; assumption|exact Hs].
  - destruct H as (Hm & _). rewrite Hm. apply NoDup_ListNoDup, seq_NoDup.
  - pose proof (perform_tidy Request c H) as H'. cbn [perform] in H'.
    unfold _get_session, is_closed in *.
    assert (length (made c) ∉ closed c) as Hfresh.
    { intros Hx. destruct H as (_ & Hc & _). specialize (Hc _ Hx). lia. }
    assert (length (made c) ∉ made c) as Hnew.
    { intros Hx. specialize (Hin c _ H Hx). lia. }
    destruct (session c) as [s|] eqn:Es.
    + destruct (bool_decide_reflect (s ∈ closed c)) as [Hcl|Hop].
      * cbn [closed session made fst snd]. split; [exact Hfresh|].
        split; [reflexivity|]. split; [reflexivity|]. split; [|split].
        -- right. split; [reflexivity|].
           split; [exact Hnew|]. intros s0 [= <-]. exact Hcl.
        -- intros s0 [= <-] Hn. contradiction.
        -- intros _. split; [reflexivity | exact Hnew].
      * cbn [fst snd]. split; [exact Hop|]. split; [exact Es|].
        split; [reflexivity|]. split; [left; reflexivity|]. split.
        -- intros s0 [= <-] _. reflexivity.
        -- intros Hall. exfalso. apply Hop, Hall. reflexivity.
    + cbn [closed session made fst snd]. split; [exact Hfresh|].
      split; [reflexivity|]. split; [reflexivity|]. split; [|split].
      * right. split; [reflexivity|]. split; [exact Hnew|]. discriminate.
      * discriminate.
      * intros _. split; [reflexivity | exact Hnew].
  - split.
    + pose proof (perform_tidy Close c H) as H'. cbn [perform] in H'.
      intros s Hs. destruct (decide (s ∈ closed (close c))) as [|Hn];
        [assumption|exfalso].
      pose proof (Hin _ _ H' Hs) as Hlt.
      destruct H' as (_ & _ & _ & Ho). specialize (Ho s Hlt Hn).
      revert Ho Hn. unfold close, is_closed.
      destruct (session c) as [s0|] eqn:Es; [|rewrite ?Es; discriminate].
      destruct (bool_decide_reflect (s0 ∈ closed c)) as [Hcl|Hop]; cbn [negb].
      * rewrite ?Es. intros [= ->]. auto.
      * cbn [session closed]. rewrite ?Es. intros [= ->] Hx. apply Hx.
        apply elem_of_union. left. apply elem_of_singleton. reflexivity.
    + unfold close, is_closed. destruct (session c) as [s0|] eqn:Es;
        [|rewrite ?Es; auto].
      destruct (bool_decide_reflect (s0 ∈ closed c)); cbn [negb];
        cbn [made session closed]; rewrite ?Es;
        repeat split; try reflexivity.
      apply union_subseteq_r.
Qed.

Lemma client_keeps_one_session_witness :
  let c := perform_all [Request; Close] ContainerKernelClient_new in
  (forall s0, session c = Some s0 -> s0 ∈ closed c) /\
  made (_get_session c).2 = made c ++ [(_get_session c).1] /\
  _get_session c = (1, mkClient (Some 1) [0; 1] {[0]}).
Proof.
  intros c.
  assert (forall s0, session c = Some s0 -> s0 ∈ closed c) as H.
  { intros s0 [= <-]. apply elem_of_union. left. apply elem_of_singleton.
    reflexivity. }
  split; [exact H|]. split; [|reflexivity].
  pose proof (client_keeps_one_session [Request; Close]) as T.
  cbv zeta in T. destruct T as (_ & _ & (_ & _ & _ & _ & _ & Hnew) & _).
  exact (proj1 (Hnew H)).
Defined.

End HttpFacts.

(** ** The table of result parsers *)

Module ParsersFacts.
Import Parsers.

Section TableFacts.

Variable parser : Type.

Lemma setitem_length_in (d : table parser) (k : string) (v : parser) :
  In k (map fst d) -> length (setitem parser d k v) = length d.
Proof.
  induction d as [|[k' v'] d IH]; [contradiction|]. cbn [setitem map fst].
  destruct (String.eqb_spec k' k) as [->|Hne]; [reflexivity|].
  intros [H|H]; [contradiction|]. cbn [length]. rewrite (IH H). reflexivity.
Qed.

Lemma setitem_length_new (d : table parser) (k : string) (v : parser) :
  ~ In k (map fst d) -> length (setitem parser d k v) = S (length d).
Proof.
  induction d as [|[k' v'] d IH]; [reflexivity|]. cbn [setitem map fst].
  intros H. destruct (String.eqb_spec k' k) as [->|Hne].
  - exfalso. apply H. left. reflexivity.
  - cbn [length]. rewrite IH; [reflexivity|]. intros Hin. apply H. right.
    exact Hin.
Qed.

Lemma setitem_same (d : table parser) (i : nat) (k : string) (v : parser) :
  List.NoDup (map fst d) -> d !! i = Some (k, v) -> setitem parser d k v = d.
Proof.
  revert i. induction d as [|[k' v'] d IH]; intros i Hnd Hi; [discriminate|].
  cbn [setitem]. inversion Hnd as [|? ? Hnot Hnd']; subst.
  destruct i as [|i].
  - injection Hi as -> ->. rewrite String.eqb_refl. reflexivity.
  - cbn in Hi. destruct (String.eqb_spec k' k) as [->|Hne].
    + exfalso. apply Hnot. apply list_elem_of_lookup_2 in Hi.
      apply list_elem_of_In in Hi. exact (in_map fst _ _ Hi).
    + rewrite (IH i Hnd' Hi). reflexivity.
Qed.

Lemma tools_loop_same (server_name : string) (d : table parser)
    (todo pos : nat) :
  List.NoDup (map fst d) ->
  tools_loop parser false server_name (length d) todo pos d = Returns d.
Proof.
  intros Hnd. revert pos. induction todo as [|todo IH]; intros pos;
    cbn [tools_loop]; rewrite Nat.eqb_refl; cbn [negb]; [reflexivity|].
  destruct (d !! pos) as [[k v]|] eqn:E; [|reflexivity].
  rewrite (setitem_same d pos k v Hnd E). apply IH.
Qed.

(** X22. With the parsers of one server, [get_tool_parsers] returns
    the table of that server as it is, the tools under their own names;
    with no server, an empty table. *)
Theorem get_tool_parsers_one_server (server_name : string)
    (tools : table parser) :
  List.NoDup (map fst tools) ->
  get_tool_parsers parser [(server_name, tools)] = Returns tools /\
  get_tool_parsers parser [] = Returns [].
Proof.
  intros Hnd. split; [|reflexivity].
  unfold get_tool_parsers. cbn [length Nat.ltb Nat.leb servers_loop].
  rewrite tools_loop_same by exact Hnd. reflexivity.
Qed.

Lemma servers_loop_empty (many : bool) (acc : table parser)
    (before rest : list (string * table parser)) :
  Forall (fun item => item.2 = []) before ->
  before ++ rest <> [] ->
  servers_loop parser many acc (before ++ rest) =
  match rest with
  | [] => Returns []
  | _ => servers_loop parser many [] rest
  end.
Proof.
  intros H. revert acc. induction H as [|[name d] before Hd _ IH];
    intros acc Hne; cbn [app].
  - destruct rest as [|[name d] rest]; [contradiction|]. reflexivity.
  - cbn [snd] in Hd. subst d. cbn [servers_loop length tools_loop Nat.eqb negb].
    destruct before as [|item before'].
    + cbn [app]. destruct rest; reflexivity.
    + apply IH. discriminate.
Qed.

(** X23. With the parsers of more than one server, [get_tool_parsers]
    raises [RuntimeError] at the first server that has a tool, unless the
    table of that server already holds the tool's name prefixed with the
    server's: the table is changed while the loop runs over it. The
    tables of several servers are thus never merged. *)
Theorem get_tool_parsers_many_servers
    (before after : list (string * table parser)) (server_name : string)
    (tool_name : string) (p : parser) (tools : table parser) :
  Forall (fun item => item.2 = []) before ->
  1 < length (before ++ (server_name, (tool_name, p) :: tools) :: after) ->
  ~ In (server_name +:+ "_" +:+ tool_name) (tool_name :: map fst tools) ->
  get_tool_parsers parser
    (before ++ (server_name, (tool_name, p) :: tools) :: after) = RuntimeError.
Proof.
  intros Hb Hlen Hnew. unfold get_tool_parsers.
  apply Nat.ltb_lt in Hlen. rewrite Hlen.
  rewrite servers_loop_empty; [|exact Hb|intros H; destruct before; discriminate].
  cbn [servers_loop]. 
  set (d := (tool_name, p) :: tools) in *.
  change (tools_loop parser true server_name (length d) (length d) 0 d)
    with (tools_loop parser true server_name (length d) (S (length tools)) 0 d).
  cbn [tools_loop]. rewrite Nat.eqb_refl. cbn [negb].
  change (d !! 0) with (Some (tool_name, p)). cbv iota beta.
  assert (length (setitem parser d (server_name +:+ "_" +:+ tool_name) p)
          = S (length d)) as Hgrow by (apply setitem_length_new; exact Hnew).
  destruct (length tools) as [|n]; cbn [tools_loop]; rewrite Hgrow;
    rewrite (proj2 (Nat.eqb_neq _ _)) by lia; reflexivity.
Qed.

End TableFacts.

Lemma get_tool_parsers_one_server_witness :
  List.NoDup (map fst [("execute_code", 0)]) /\
  get_tool_parsers nat [("code_sandbox_server", [("execute_code", 0)])] =
  Returns [("execute_code", 0)].
Proof.
  assert (List.NoDup (map fst [("execute_code", 0)])) as H
    by (repeat constructor; intros []).
  split; [exact H|].
  exact (proj1 (get_tool_parsers_one_server nat "code_sandbox_server" _ H)).
Defined.

Lemma get_tool_parsers_many_servers_witness :
  let files := ("files", [("read", 1)]) in
  Forall (fun item : string * table nat => item.2 = []) [] /\
  get_tool_parsers nat
    [("code_sandbox_server", [("execute_code", 0)]); files] = RuntimeError.
Proof.
  intros files. split; [constructor|].
  apply (get_tool_parsers_many_servers nat [] [files] "code_sandbox_server"
           "execute_code" 0 []).
  - constructor.
  - cbn. lia.
  - intros [H|[]]. discriminate.
Defined.

End ParsersFacts.

(** ** How late health polling returns *)

Module HealthLate.
Import Py Relay RelayFacts.

(** X24. Health polling returns within the timeout plus one round: when
    every request ends within the 5 seconds of its own timeout and every
    sleep lasts at most [late] ticks longer than its second, the call
    returns no later than [timeout + 6] seconds and [late] ticks after
    [start_time] (or right after its setup, if that alone took longer).
    With a timeout of zero or less it returns [False] at once, without a
    single request, whatever the state of the service. *)
Theorem health_check_returns_by
    (hz : positive) (base_url : string) (env : nat -> attempt)
    (start_time : Z) (setup : N) (timeout : option Z) (late : N)
    (b : bool) (t_end : Z) (log : list effect) :
  (forall i, (Z.of_N (took (env i)) <= 5 * Z.pos hz)%Z) ->
  (forall i, (overshoot (env i) <= late)%N) ->
  health_check hz base_url env start_time setup timeout
    = Some (b, t_end, log) ->
  let t := default 60%Z timeout in
  (t_end - start_time <=
   Z.max (Z.of_N setup) (t * Z.pos hz + 6 * Z.pos hz + Z.of_N late))%Z /\
  ((t <= 0)%Z ->
   b = false /\ log = [] /\ t_end = (start_time + Z.of_N setup)%Z).
Proof.
  intros Htook Hlate H t. unfold health_check in H. fold t in H.
  set (first := (start_time + Z.of_N setup)%Z) in *.
  change first with (probe_start hz env first 0) in H.
  change (@nil effect) with (rounds base_url 0) in H.
  destruct (poll_inv hz base_url env start_time first t _ _ _ _ _ H)
    as (k & _ & Hbefore & Hend).
  assert (probe_start hz env first 0 = first) as H0 by reflexivity.
  pose proof (probe_start_mono hz env first 0 k ltac:(lia)) as Hmono.
  pose proof (Htook k) as Htk. destruct b.
  - destruct Hend as (Hlt & _ & -> & _). split; [lia|].
    intros Ht. exfalso. subst first. nia.
  - destruct Hend as (Hge & -> & ->). destruct k as [|k].
    + split; [subst first; cbn [probe_start]; lia|]. intros _. auto.
    + destruct (Hbefore k ltac:(lia)) as [Hlt _].
      pose proof (Htook k) as Htk'. pose proof (Hlate k) as Hl.
      pose proof (probe_start_mono hz env first 0 k ltac:(lia)) as Hm.
      split; [cbn [probe_start]; lia|].
      intros Ht. exfalso. subst first. nia.
Qed.

Lemma health_check_returns_by_witness :
  let env := fun _ : nat => mkAttempt ProbeClientError 0 0 in
  health_check 1 "http://h" env 0 0 (Some 1%Z)
    = Some (false, 1%Z, [Get "http://h/health" 5; Sleep 1]) /\
  (1 - 0 <= Z.max (Z.of_N 0) (1 * 1 + 6 * 1 + Z.of_N 0))%Z.
Proof.
  intros env.
  assert (health_check 1 "http://h" env 0 0 (Some 1%Z)
          = Some (false, 1%Z, [Get "http://h/health" 5; Sleep 1])) as H
    by reflexivity.
  split; [exact H|].
  apply (health_check_returns_by 1 "http://h" env 0 0 (Some 1%Z) 0
           false 1 _ ltac:(intros; cbn; lia) ltac:(intros; cbn; lia) H).
Defined.

End HealthLate.
